(** * MDMS complaint pipeline: client pages, API service and the ticket model

    A shallow embedding of the MDMS front end (the [services/api] module
    and the pages [ComplaintPage], [TicketLog], [MapView], [HomePage])
    together with a model of the ingestion back end that the front end
    talks to.  JavaScript objects are records whose fields are [option]s
    ([None] is [undefined]/[null]); asynchronous handlers are functions
    into a small trace-and-exception monad. *)

From Stdlib Require Import List String Ascii ZArith QArith Bool Lia.
From Stdlib Require Import Permutation Sorted DecimalString.
Import ListNotations.
Local Open Scope string_scope.
Local Open Scope Z_scope.
Local Open Scope list_scope.

Set Implicit Arguments.

(* ===================================================================== *)
(** ** JavaScript values *)
(* ===================================================================== *)

Module Js.

(** Truthiness of a value that is a string or [undefined]. *)
Definition truthy_str (v : option string) : bool :=
  match v with
  | Some s => negb (String.eqb s "")
  | None => false
  end.

(** Truthiness of a value that is a number or [undefined]/[null]. *)
Definition truthy_num (v : option Q) : bool :=
  match v with
  | Some q => negb (Qeq_bool q 0)
  | None => false
  end.

(** [a || b] on numbers and on strings. *)
Definition or_num (a b : option Q) : option Q :=
  if truthy_num a then a else b.

Definition or_str (a b : option string) : option string :=
  if truthy_str a then a else b.

(** [v === s] where [s] is a string. *)
Definition strict_eq_str (v : option string) (s : string) : bool :=
  match v with
  | Some x => String.eqb x s
  | None => false
  end.

(** [xs || []]. *)
Definition or_empty {A} (xs : option (list A)) : list A :=
  match xs with
  | Some l => l
  | None => []
  end.

(** [Array.prototype.slice(start, end)], negative indices included. *)
Definition slice {A} (l : list A) (start stop : Z) : list A :=
  let len := Z.of_nat (List.length l) in
  let k := if start <? 0 then Z.max (len + start) 0 else Z.min start len in
  let final := if stop <? 0 then Z.max (len + stop) 0 else Z.min stop len in
  firstn (Z.to_nat (final - k)) (skipn (Z.to_nat k) l).

(** [Array.prototype.sort(cmp)].  The comparator returns a number,
    [None] standing for [NaN], which the sort reads as [+0].  The sort
    is stable; for a consistent comparator every conforming engine
    returns the list computed here. *)
Section Sort.
Context {A : Type} (cmp : A -> A -> option Z).

Definition before (x y : A) : bool :=
  match cmp x y with
  | Some v => v <=? 0
  | None => true
  end.

Fixpoint insert (x : A) (l : list A) : list A :=
  match l with
  | [] => [x]
  | y :: l' => if before x y then x :: l else y :: insert x l'
  end.

Definition sort (l : list A) : list A := fold_right insert [] l.
End Sort.

(** Decimal rendering of an integer inside a template literal. *)
Definition show_int (n : Z) : string := NilZero.string_of_int (Z.to_int n).

(** Values produced by [JSON.parse].  An object lists its own
    properties, each key once. *)
#[local] Unset Elimination Schemes.
Inductive json :=
| JNull
| JBool (b : bool)
| JNum (q : Q)
| JStr (s : string)
| JArr (items : list json)
| JObj (fields : list (string * json)).
#[local] Set Elimination Schemes.

Definition truthy (v : option json) : bool :=
  match v with
  | None | Some JNull => false
  | Some (JBool b) => b
  | Some (JNum q) => negb (Qeq_bool q 0)
  | Some (JStr s) => negb (String.eqb s "")
  | Some (JArr _) | Some (JObj _) => true
  end.

Fixpoint assoc {A} (k : string) (fields : list (string * A)) : option A :=
  match fields with
  | [] => None
  | (k', v) :: rest => if String.eqb k k' then Some v else assoc k rest
  end.

(** Exceptions: [new Error(message)] and the engine's own errors. *)
Inductive error :=
| Error (message : string)
| TypeError (message : string)
| SyntaxError (message : string).

Definition message (e : error) : string :=
  match e with
  | Error m | TypeError m | SyntaxError m => m
  end.

(** An [async] computation: the events it performed, in order, and
    then either the exception that rejected it or its value. *)
Definition M (E A : Type) : Type := list E * (error + A).

Definition ret {E A} (a : A) : M E A := ([], inr a).

Definition throw {E A} (e : error) : M E A := ([], inl e).

Definition emit {E} (ev : E) : M E unit := ([ev], inr tt).

Definition bind {E A B} (c : M E A) (k : A -> M E B) : M E B :=
  match c with
  | (tr, inl e) => (tr, inl e)
  | (tr, inr a) => let (tr', r) := k a in (tr ++ tr', r)
  end.

(** [try { c } catch (error) { h }]. *)
Definition try_catch {E A} (c : M E A) (h : error -> M E A) : M E A :=
  match c with
  | (tr, inl e) => let (tr', r) := h e in (tr ++ tr', r)
  | (tr, inr a) => (tr, inr a)
  end.

(** [try { c } finally { f }] where [f] does not throw. *)
Definition finally {E A} (c : M E A) (f : list E) : M E A :=
  let (tr, r) := c in (tr ++ f, r).

(** Run a computation of a callee inside a caller with more events. *)
Definition lift {E E' A} (inj : E -> E') (c : M E A) : M E' A :=
  let (tr, r) := c in (map inj tr, r).

Definition trace {E A} (c : M E A) : list E := fst c.

Definition outcome {E A} (c : M E A) : error + A := snd c.

(** A step that can throw, and a loop of such steps, which ends at the
    first exception. *)
Definition and_then {A B} (r : error + A) (k : A -> error + B) : error + B :=
  match r with
  | inl e => inl e
  | inr a => k a
  end.

Fixpoint traverse {A B} (f : A -> error + B) (l : list A) : error + list B :=
  match l with
  | [] => inr []
  | x :: rest =>
      and_then (f x) (fun y =>
      and_then (traverse f rest) (fun ys => inr (y :: ys)))
  end.

(** A number as the relational operators see it. *)
Inductive number :=
| Finite (q : Q)
| PlusInfinity
| MinusInfinity
| NotANumber.

(** [n > 0]. *)
Definition is_positive (n : number) : bool :=
  match n with
  | Finite q => negb (Qle_bool q 0)
  | PlusInfinity => true
  | MinusInfinity | NotANumber => false
  end.

End Js.

Declare Scope js_scope.
Delimit Scope js_scope with js.
Notation "x <- c ;; k" := (Js.bind c (fun x => k))
  (at level 61, c at next level, right associativity) : js_scope.
Notation "c ;;; k" := (Js.bind c (fun _ => k))
  (at level 61, right associativity) : js_scope.

(* ===================================================================== *)
(** ** Wire data: tickets and sub-tickets as the pages read them *)
(* ===================================================================== *)

Record SubTicket := {
  sub_id : option string;
  issue_type : option string;
  authority : option string;
  status : option string;
  latitude : option Q;
  longitude : option Q;
  media_count : option Q;
  rejected_count : option Q;
  created_at : option string;
  image_id : option string
}.

Record Ticket := {
  ticket_id : option string;
  t_latitude : option Q;
  t_longitude : option Q;
  t_status : option string;
  t_created_at : option string;
  sub_tickets : option (list SubTicket)
}.

(** Every (ticket, sub-ticket) pair of a listing, in document order: the
    traversal shared by the pages' nested [forEach] loops. *)
Definition flat_pairs (tickets : list Ticket) : list (Ticket * SubTicket) :=
  flat_map (fun ticket =>
              map (fun subTicket => (ticket, subTicket))
                  (Js.or_empty (sub_tickets ticket)))
           tickets.

(* ===================================================================== *)
(** ** TicketLog.jsx *)
(* ===================================================================== *)

Module TicketLog.

Definition ITEMS_PER_PAGE : Z := 10.

Definition distortions : list string :=
  ["all"; "pathholes"; "garbage"; "streetdebris"].

Definition statuses : list string :=
  ["all"; "open"; "in_progress"; "resolved"; "closed"].

(** A row of the [tickets] state: [{...subTicket, ticket_id,
    ticket_latitude, ticket_longitude}]. *)
Record Row := {
  row_sub : SubTicket;
  row_ticket_id : option string;
  ticket_latitude : option Q;
  ticket_longitude : option Q
}.

Definition row_of (ticket : Ticket) (subTicket : SubTicket) : Row :=
  {| row_sub := subTicket;
     row_ticket_id := ticket_id ticket;
     ticket_latitude := t_latitude ticket;
     ticket_longitude := t_longitude ticket |}.

(** The flattening done by [fetchTickets]. *)
Definition fetchTickets (response_tickets : option (list Ticket)) : list Row :=
  flat_map (fun ticket =>
              map (fun subTicket => row_of ticket subTicket)
                  (Js.or_empty (sub_tickets ticket)))
           (Js.or_empty response_tickets).

Section View.
(** Time value of [new Date(s)] in milliseconds; [None] is an
    Invalid Date, whose time value is [NaN]. *)
Variable Date_parse : string -> option Z.

Variables selectedDistortion selectedStatus selectedDate : string.

Definition distortionMatch (ticket : Row) : bool :=
  String.eqb selectedDistortion "all"
  || Js.strict_eq_str (issue_type (row_sub ticket)) selectedDistortion.

Definition statusMatch (ticket : Row) : bool :=
  String.eqb selectedStatus "all"
  || Js.strict_eq_str (status (row_sub ticket)) selectedStatus.

Definition dateMatch (ticket : Row) : bool :=
  String.eqb selectedDate ""
  || (Js.truthy_str (created_at (row_sub ticket))
      && match created_at (row_sub ticket) with
         | Some c => String.prefix selectedDate c
         | None => false
         end).

Definition keep (ticket : Row) : bool :=
  distortionMatch ticket && statusMatch ticket && dateMatch ticket.

(** [a.created_at ? new Date(a.created_at) : new Date(0)]. *)
Definition date_of (a : Row) : option Z :=
  match created_at (row_sub a) with
  | Some c => if Js.truthy_str (Some c) then Date_parse c else Some 0
  | None => Some 0
  end.

(** The comparator [(a, b) => dateB - dateA]. *)
Definition newest_first (a b : Row) : option Z :=
  match date_of b, date_of a with
  | Some dateB, Some dateA => Some (dateB - dateA)
  | _, _ => None
  end.

Definition filteredTickets (tickets : list Row) : list Row :=
  Js.sort newest_first (filter keep tickets).

Definition totalPages (tickets : list Row) : Z :=
  let n := Z.of_nat (List.length (filteredTickets tickets)) in
  (n + ITEMS_PER_PAGE - 1) / ITEMS_PER_PAGE.

Definition startIndex (currentPage : Z) : Z :=
  (currentPage - 1) * ITEMS_PER_PAGE.

Definition endIndex (currentPage : Z) : Z :=
  startIndex currentPage + ITEMS_PER_PAGE.

Definition paginatedTickets (tickets : list Row) (currentPage : Z) : list Row :=
  Js.slice (filteredTickets tickets) (startIndex currentPage) (endIndex currentPage).
End View.

(** The Location cell of a table row. *)
Inductive LocationCell :=
| LocationLink (lat lng : Q)
| LocationNotAvailable.

Definition location_cell (ticket : Row) : LocationCell :=
  let lat := Js.or_num (latitude (row_sub ticket)) (ticket_latitude ticket) in
  let lng := Js.or_num (longitude (row_sub ticket)) (ticket_longitude ticket) in
  match lat, lng with
  | Some a, Some b =>
      if Js.truthy_num lat && Js.truthy_num lng
      then LocationLink a b else LocationNotAvailable
  | _, _ => LocationNotAvailable
  end.

End TicketLog.

(* ===================================================================== *)
(** ** MapView.jsx *)
(* ===================================================================== *)

Module MapView.

(** An element of [allTickets]: [{...subTicket, ticket_id, latitude:
    lat, longitude: lng}]. *)
Record Located := {
  loc_sub : SubTicket;
  loc_ticket_id : option string;
  loc_latitude : option Q;
  loc_longitude : option Q
}.

Record Marker := {
  marker_key : option string;
  position : Q * Q;
  popup : Located
}.

Definition lat_of (ticket : Ticket) (subTicket : SubTicket) : option Q :=
  Js.or_num (latitude subTicket) (t_latitude ticket).

Definition lng_of (ticket : Ticket) (subTicket : SubTicket) : option Q :=
  Js.or_num (longitude subTicket) (t_longitude ticket).

Definition locate (ticket : Ticket) (subTicket : SubTicket) : Located :=
  {| loc_sub := subTicket;
     loc_ticket_id := ticket_id ticket;
     loc_latitude := lat_of ticket subTicket;
     loc_longitude := lng_of ticket subTicket |}.

(** [fetchTickets]: the rows pushed onto [ticketsWithLocations]. *)
Definition fetchTickets (response_tickets : option (list Ticket)) : list Located :=
  flat_map (fun ticket =>
              flat_map (fun subTicket =>
                          let lat := lat_of ticket subTicket in
                          let lng := lng_of ticket subTicket in
                          if Js.truthy_num lat && Js.truthy_num lng
                          then [locate ticket subTicket]
                          else [])
                       (Js.or_empty (sub_tickets ticket)))
           (Js.or_empty response_tickets).

(** One element of [allTickets.map(...)]: [null] or a [<Marker>]. *)
Definition render_marker (ticket : Located) : option Marker :=
  if negb (Js.truthy_num (loc_latitude ticket))
     || negb (Js.truthy_num (loc_longitude ticket))
  then None
  else match loc_latitude ticket, loc_longitude ticket with
       | Some a, Some b =>
           Some {| marker_key := Js.or_str (sub_id (loc_sub ticket))
                                           (loc_ticket_id ticket);
                   position := (a, b);
                   popup := ticket |}
       | _, _ => None
       end.

(** The markers on the map once loading has finished. *)
Definition markers (response_tickets : option (list Ticket)) : list Marker :=
  flat_map (fun ticket => match render_marker ticket with
                          | Some m => [m]
                          | None => []
                          end)
           (fetchTickets response_tickets).

End MapView.

(* ===================================================================== *)
(** ** HomePage.jsx *)
(* ===================================================================== *)

Module HomePage.

Record Stats := { total : Z; resolved : Z; working : Z; open : Z }.

Definition is_resolved (t : Ticket) : bool :=
  Js.strict_eq_str (t_status t) "resolved"
  || Js.strict_eq_str (t_status t) "closed".

Definition is_working (t : Ticket) : bool :=
  Js.strict_eq_str (t_status t) "in_progress"
  || Js.strict_eq_str (t_status t) "working".

(** The statistics [fetchTickets] stores with [setStats]. *)
Definition fetchTickets (response_tickets : option (list Ticket)) : Stats :=
  let ticketsData := Js.or_empty response_tickets in
  let total := Z.of_nat (List.length ticketsData) in
  let resolved := Z.of_nat (List.length (filter is_resolved ticketsData)) in
  let working := Z.of_nat (List.length (filter is_working ticketsData)) in
  let open := total - resolved - working in
  {| total := total; resolved := resolved; working := working; open := open |}.

End HomePage.

(* ===================================================================== *)
(** ** services/api.js *)
(* ===================================================================== *)

Module Api.

Import Js.
Local Open Scope js_scope.

Record File := {
  file_name : string;
  file_type : string;
  file_bytes : list Byte.byte
}.

Record Blob := {
  blob_type : string;
  blob_bytes : list Byte.byte
}.

(** [new File([blob], name, { type })]. *)
Definition new_File (blob : Blob) (name type : string) : File :=
  {| file_name := name; file_type := type; file_bytes := blob_bytes blob |}.

(** A call of [fetch(url, init)]; a [FormData] body is its entries. *)
Record Request := {
  req_url : string;
  req_method : option string;
  req_headers : list (string * string);
  req_body : option (list (string * File))
}.

Record Response := {
  ok : bool;
  status : Z;
  statusText : string;
  content_type : string;
  body : list Byte.byte
}.

(** [response.text()] and [response.blob()]. *)
Definition text (response : Response) : string :=
  string_of_list_byte (body response).

Definition blob (response : Response) : Blob :=
  {| blob_type := content_type response; blob_bytes := body response |}.

(** What the module takes from its surroundings: the configured base
    URL, the network, and the engine's JSON, string and number
    conversions and the messages of its own [TypeError]s (reading a
    property of [null], iterating a value that is not iterable,
    calling a value that is not a function). *)
Record Env := {
  API_BASE_URL : string;
  fetch : Request -> error + Response;
  JSON_parse : string -> error + json;
  JSON_stringify : json -> string;
  ToString : json -> string;
  null_read : string -> string;
  URLSearchParams_toString : list (string * string) -> string;
  StringToNumber : string -> number;
  not_iterable : string -> string;
  not_a_function : string -> string
}.

Inductive Event :=
| Fetch (request : Request)
| ConsoleError (label : string) (e : error).

Record Options := {
  opt_method : option string;
  opt_headers : option (list (string * string));
  opt_body : option (list (string * File))
}.

Definition no_options : Options :=
  {| opt_method := None; opt_headers := None; opt_body := None |}.

Record Filters := {
  filter_status : option string;
  filter_issue_type : option string
}.

Section Service.
Variable env : Env.

Definition do_fetch (request : Request) : M Event Response :=
  ([Fetch request], fetch env request).

(** [response.json()]. *)
Definition json_of (response : Response) : M Event json :=
  ([], JSON_parse env (text response)).

(** [v.p] for a parsed value [v]: reading a property of [null] throws
    a [TypeError] whose message is the engine's. *)
Definition get (v : json) (p : string) : error + option json :=
  match v with
  | JNull => inl (TypeError (null_read env p))
  | JObj fields => inr (assoc p fields)
  | _ => inr None
  end.

(** [ToNumber(v)]; an array or an object is first turned into its
    string. *)
Definition ToNumber (v : option json) : number :=
  match v with
  | None => NotANumber
  | Some JNull => Finite 0%Q
  | Some (JBool b) => Finite (if b then 1%Q else 0%Q)
  | Some (JNum q) => Finite q
  | Some (JStr s) => StringToNumber env s
  | Some (JArr items) => StringToNumber env (ToString env (JArr items))
  | Some (JObj fields) => StringToNumber env (ToString env (JObj fields))
  end.

(** The message of [new Error(v)]. *)
Definition String_of (v : json) : string :=
  match v with
  | JStr s => s
  | _ => ToString env v
  end.

(** The message of [new Error(v || fallback)]. *)
Definition message_or (v : option json) (fallback : string) : string :=
  match v with
  | Some d => if truthy (Some d) then String_of d else fallback
  | None => fallback
  end.

(** [{ ...defaultOptions, ...options }] at [url]. *)
Definition request_of (url : string) (options : Options) : Request :=
  {| req_url := url;
     req_method := opt_method options;
     req_headers := match opt_headers options with
                    | Some h => h
                    | None => [("Content-Type", "application/json")]
                    end;
     req_body := opt_body options |}.

(** The value of [errorMessage] after the inner [try]/[catch] of
    [apiRequest]. *)
Definition errorMessage (text : string) : json :=
  match JSON_parse env text with
  | inr errorData =>
      match get errorData "detail" with
      | inr (Some d) =>
          if truthy (Some d) then d else JStr (JSON_stringify env errorData)
      | inr None => JStr (JSON_stringify env errorData)
      | inl _ => JStr text
      end
  | inl _ => JStr text
  end.

Definition apiRequest (endpoint : string) (options : Options) : M Event json :=
  let url := (API_BASE_URL env ++ endpoint)%string in
  try_catch
    (response <- do_fetch (request_of url options) ;;
     if negb (ok response)
     then throw (Error (message_or
                          (Some (errorMessage (text response)))
                          ("HTTP error! status: " ++ show_int (status response))%string))
     else json_of response)
    (fun e =>
       emit (ConsoleError ("API Error (" ++ endpoint ++ "):")%string e) ;;;
       throw e).

Definition upload_request (files : list File) : Request :=
  {| req_url := (API_BASE_URL env ++ "/api/complaints/batch")%string;
     req_method := Some "POST";
     req_headers := [];
     req_body := Some (map (fun file => ("files", file)) files) |}.

Definition uploadComplaints (files : list File) : M Event json :=
  response <- do_fetch (upload_request files) ;;
  if negb (ok response)
  then
    errorData <- try_catch (json_of response)
                   (fun _ => ret (JObj [("detail", JStr (statusText response))])) ;;
    detail <- ([], get errorData "detail") ;;
    throw (Error (message_or detail
                    ("Upload failed: " ++ show_int (status response))%string))
  else json_of response.

Definition getTickets_params (filters : Filters) : list (string * string) :=
  (match filter_status filters with
   | Some s => if truthy_str (Some s) then [("status", s)] else []
   | None => []
   end)
  ++ (match filter_issue_type filters with
      | Some s => if truthy_str (Some s) then [("issue_type", s)] else []
      | None => []
      end).

Definition getTickets_endpoint (filters : Filters) : string :=
  let queryString := URLSearchParams_toString env (getTickets_params filters) in
  ("/api/complaints/tickets"
   ++ (if truthy_str (Some queryString) then "?" ++ queryString else ""))%string.

Definition getTickets (filters : Filters) : M Event json :=
  apiRequest (getTickets_endpoint filters) no_options.

End Service.

End Api.

(* ===================================================================== *)
(** ** Reading tickets out of a parsed response *)
(* ===================================================================== *)

Module Wire.

Import Js.

(** [v.p] on a value that is not [null]. *)
Definition field (v : json) (p : string) : option json :=
  match v with
  | JObj fields => assoc p fields
  | _ => None
  end.

(** A scalar field as the typed records hold it: the string or the
    number that the wire format puts there, [None] when the field is
    absent or [null].  A value of another type is handed on by the
    pages as it is; the records have no place for it and hold [None]. *)
Definition as_str (v : option json) : option string :=
  match v with
  | Some (JStr s) => Some s
  | _ => None
  end.

Definition as_num (v : option json) : option Q :=
  match v with
  | Some (JNum q) => Some q
  | _ => None
  end.

(** The fields that the pages read off a sub-ticket value other than
    [null]. *)
Definition subTicket_fields (v : json) : SubTicket :=
  {| sub_id := as_str (field v "sub_id");
     issue_type := as_str (field v "issue_type");
     authority := as_str (field v "authority");
     status := as_str (field v "status");
     latitude := as_num (field v "latitude");
     longitude := as_num (field v "longitude");
     media_count := as_num (field v "media_count");
     rejected_count := as_num (field v "rejected_count");
     created_at := as_str (field v "created_at");
     image_id := as_str (field v "image_id") |}.

(** The fields read off a ticket value other than [null], with the
    sub-tickets that the loop over [ticket.sub_tickets || []] visited. *)
Definition ticket_fields (v : json) (subs : option (list SubTicket)) : Ticket :=
  {| ticket_id := as_str (field v "ticket_id");
     t_latitude := as_num (field v "latitude");
     t_longitude := as_num (field v "longitude");
     t_status := as_str (field v "status");
     t_created_at := as_str (field v "created_at");
     sub_tickets := subs |}.

(** [v.length]: of an array, of a string, or the property of that name
    of an object. *)
Definition length_of (v : option json) : option json :=
  match v with
  | Some (JArr items) => Some (JNum (inject_Z (Z.of_nat (List.length items))))
  | Some (JStr s) => Some (JNum (inject_Z (Z.of_nat (String.length s))))
  | Some (JObj fields) => assoc "length" fields
  | _ => None
  end.

(** The body of a batch-upload response. *)
Record UploadResponse := {
  tickets_created : option (list Ticket);
  duplicates_found : option Q;
  response_message : option string
}.

Section Reading.
Variable env : Api.Env.

(** The values that [for (const x of v)] visits: the items of an
    array, the characters of a string; nothing else that [JSON.parse]
    returns is iterable. *)
Definition for_of (what : string) (v : option json) : error + list json :=
  match v with
  | Some (JArr items) => inr items
  | Some (JStr s) =>
      inr (map (fun c => JStr (String c EmptyString)) (list_ascii_of_string s))
  | _ => inl (TypeError (Api.not_iterable env what))
  end.

(** The values that [(v || []).forEach(...)] visits: only an array has
    the method. *)
Definition forEach (what : string) (v : option json) : error + list json :=
  if truthy v then
    match v with
    | Some (JArr items) => inr items
    | _ => inl (TypeError (Api.not_a_function env what))
    end
  else inr [].

(** [{ ...subTicket, ... }] in the ticket log; spreading [null] or a
    value without these properties gives an object without them. *)
Definition spread_subTicket (v : json) : SubTicket := subTicket_fields v.

(** One turn of the outer [forEach] of the ticket log. *)
Definition listed_ticket (v : json) : error + Ticket :=
  and_then (Api.get env v "sub_tickets") (fun sub_tickets =>
  and_then (forEach "(ticket.sub_tickets || []).forEach" sub_tickets) (fun items =>
  inr (ticket_fields v (if truthy sub_tickets
                        then Some (map spread_subTicket items) else None)))).

(** What the ticket log reads of a listing response: the tickets that
    [(response.tickets || []).forEach] visits, each with the
    sub-tickets visited in it, or the [TypeError] that ends the
    loops. *)
Definition tickets_of (response : json) : error + option (list Ticket) :=
  and_then (Api.get env response "tickets") (fun tickets =>
  and_then (forEach "(response.tickets || []).forEach" tickets) (fun items =>
  and_then (traverse listed_ticket items) (fun visited =>
  inr (if truthy tickets then Some visited else None)))).

(** The object pushed for a sub-ticket by [handleAnalyze]: its first
    read, [subTicket.issue_type], throws on [null]. *)
Definition read_subTicket (v : json) : error + SubTicket :=
  match v with
  | JNull => inl (TypeError (Api.null_read env "issue_type"))
  | _ => inr (subTicket_fields v)
  end.

(** One turn of the outer [for] of [handleAnalyze], over
    [ticket.sub_tickets || []]. *)
Definition created_ticket (v : json) : error + Ticket :=
  and_then (Api.get env v "sub_tickets") (fun sub_tickets =>
  if truthy sub_tickets then
    and_then (for_of "ticket.sub_tickets || []" sub_tickets) (fun items =>
    and_then (traverse read_subTicket items) (fun subs =>
    inr (ticket_fields v (Some subs))))
  else inr (ticket_fields v None)).

(** What [handleAnalyze] reads of the response after the notice:
    [response.tickets_created && response.tickets_created.length > 0]
    and then the loops, or the [TypeError] that ends them; beside it
    the two other fields as the typed record holds them. *)
Definition uploadResponse_of (response : json) : error + UploadResponse :=
  and_then (Api.get env response "tickets_created") (fun tickets_created =>
  and_then
    (if truthy tickets_created
        && is_positive (Api.ToNumber env (length_of tickets_created))
     then
       and_then (for_of "response.tickets_created" tickets_created) (fun items =>
       and_then (traverse created_ticket items) (fun visited =>
       inr (Some visited)))
     else inr None)
    (fun visited =>
       inr {| tickets_created := visited;
              duplicates_found := as_num (field response "duplicates_found");
              response_message := as_str (field response "message") |})).

End Reading.

End Wire.

(* ===================================================================== *)
(** ** ComplaintPage.jsx *)
(* ===================================================================== *)

Module ComplaintPage.

Import Js.
Local Open Scope js_scope.

(** An element of the [images] and [videos] state. *)
Record Media := {
  id : string;
  url : option string;
  file : option Api.File;
  lat : option Q;
  lng : option Q
}.

(** A row handed to the analyse page. *)
Record UploadedFile := {
  uf_id : string;
  previewUrl : option string;
  uf_type : string;
  uf_ticket_id : option string;
  uf_sub_id : option string;
  uf_issue_type : option string;
  uf_authority : option string;
  uf_status : option string;
  uf_latitude : option Q;
  uf_longitude : option Q;
  uf_media_count : option Q;
  uf_rejected_count : option Q
}.

Record NavState := {
  uploadedFiles : list UploadedFile;
  uploadResponse : json
}.

Inductive Event :=
| Service (e : Api.Event)
| Alert (msg : string)
| SetUploading (b : bool)
| SetUploadError (e : option string)
| ConsoleError (label : string) (e : error)
| Navigate (path : string) (state : NavState).

Section Page.
Variable env : Api.Env.

(** [fetch(url)] of a [blob:] or [data:] URL, read as a blob. *)
Definition fetch_blob (u : string) : M Event Api.Blob :=
  response <- lift Service
                (Api.do_fetch env
                   {| Api.req_url := u; Api.req_method := None;
                      Api.req_headers := []; Api.req_body := None |}) ;;
  ret (Api.blob response).

(** One iteration of the loop over [images]: the files it pushes. *)
Definition image_files (img : Media) : M Event (list Api.File) :=
  match file img with
  | Some f => ret [f]
  | None =>
      match url img with
      | Some u =>
          if truthy_str (Some u) && String.prefix "blob:" u then
            blob <- fetch_blob u ;;
            ret [Api.new_File blob ("image-" ++ id img ++ ".jpg")%string
                              (Api.blob_type blob)]
          else if truthy_str (Some u) && String.prefix "data:" u then
            blob <- fetch_blob u ;;
            ret [Api.new_File blob ("image-" ++ id img ++ ".jpg")%string
                              (Api.blob_type blob)]
          else ret []
      | None => ret []
      end
  end.

(** One iteration of the loop over [videos]. *)
Definition video_files (vid : Media) : M Event (list Api.File) :=
  match file vid with
  | Some f => ret [f]
  | None =>
      match url vid with
      | Some u =>
          if truthy_str (Some u) && String.prefix "blob:" u then
            blob <- fetch_blob u ;;
            ret [Api.new_File blob ("video-" ++ id vid ++ ".webm")%string
                              (Api.blob_type blob)]
          else ret []
      | None => ret []
      end
  end.

(** [for (const m of items) { ...push... }] on [filesToUpload]. *)
Fixpoint collect (step : Media -> M Event (list Api.File)) (items : list Media)
         (filesToUpload : list Api.File) : M Event (list Api.File) :=
  match items with
  | [] => ret filesToUpload
  | m :: rest =>
      pushed <- step m ;;
      collect step rest (filesToUpload ++ pushed)
  end.

Definition collect_files (images videos : list Media) : M Event (list Api.File) :=
  filesToUpload <- collect image_files images [] ;;
  collect video_files videos filesToUpload.

Section Rows.
Variables images videos : list Media.

(** The object pushed for [subTicket] of [ticket] when [uploadedFiles]
    already holds the rows pushed before. *)
Definition row_of (ticket : Ticket) (subTicket : SubTicket)
           (uploadedFiles : list UploadedFile) : UploadedFile :=
  let mediaIndex := List.length uploadedFiles in
  let originalMedia := nth_error (images ++ videos) mediaIndex in
  let fallback_id := ("media-" ++ show_int (Z.of_nat mediaIndex))%string in
  {| uf_id := match originalMedia with
              | Some m => if truthy_str (Some (id m)) then id m else fallback_id
              | None => fallback_id
              end;
     previewUrl := match originalMedia with Some m => url m | None => None end;
     uf_type := if strict_eq_str (issue_type subTicket) "video"
                then "video" else "image";
     uf_ticket_id := ticket_id ticket;
     uf_sub_id := sub_id subTicket;
     uf_issue_type := issue_type subTicket;
     uf_authority := authority subTicket;
     uf_status := status subTicket;
     uf_latitude :=
       or_num (or_num (latitude subTicket) (t_latitude ticket))
              (match originalMedia with Some m => lat m | None => None end);
     uf_longitude :=
       or_num (or_num (longitude subTicket) (t_longitude ticket))
              (match originalMedia with Some m => lng m | None => None end);
     uf_media_count := media_count subTicket;
     uf_rejected_count := rejected_count subTicket |}.

Definition push_sub_tickets (ticket : Ticket) (uploadedFiles : list UploadedFile)
  : list UploadedFile :=
  fold_left (fun uploadedFiles subTicket =>
               uploadedFiles ++ [row_of ticket subTicket uploadedFiles])
            (or_empty (sub_tickets ticket)) uploadedFiles.

(** [uploadedFiles] once the response has been processed. *)
Definition rows (response : Wire.UploadResponse) : list UploadedFile :=
  match Wire.tickets_created response with
  | Some tickets =>
      if (0 <? List.length tickets)%nat
      then fold_left (fun uploadedFiles ticket =>
                        push_sub_tickets ticket uploadedFiles)
                     tickets []
      else []
  | None => []
  end.
End Rows.

(** [response?.duplicates_found]. *)
Definition duplicates_read (response : json) : option json :=
  match response with
  | JNull => None
  | _ => Wire.field response "duplicates_found"
  end.

(** [response?.duplicates_found && response.duplicates_found > 0]. *)
Definition has_duplicates (response : json) : bool :=
  truthy (duplicates_read response)
  && is_positive (Api.ToNumber env (duplicates_read response)).

(** The text that [alert] shows for its argument. *)
Definition shown (v : option json) : string :=
  match v with
  | Some x => Api.String_of env x
  | None => "undefined"
  end.

(** The argument of the notice: [response.message] or the template. *)
Definition notice (response : json) : string :=
  if truthy (Wire.field response "message")
  then shown (Wire.field response "message")
  else ("Some images were already registered. Duplicates: "
        ++ shown (duplicates_read response))%string.

(** The body of the [try] block. *)
Definition upload_and_show (images videos : list Media) : M Event unit :=
  filesToUpload <- collect_files images videos ;;
  if (List.length filesToUpload =? 0)%nat
  then throw (Error "No valid files to upload")
  else
    response <- lift Service (Api.uploadComplaints env filesToUpload) ;;
    (if has_duplicates response then emit (Alert (notice response)) else ret tt) ;;;
    read <- ([], Wire.uploadResponse_of env response) ;;
    emit (Navigate "/analyse"
            {| uploadedFiles := rows images videos read;
               uploadResponse := response |}).

Definition handleAnalyze (images videos : list Media) : M Event unit :=
  if (List.length images =? 0)%nat && (List.length videos =? 0)%nat
  then emit (Alert "Please add at least one image or video.")
  else
    emit (SetUploading true) ;;;
    emit (SetUploadError None) ;;;
    finally
      (try_catch (upload_and_show images videos)
         (fun e =>
            emit (ConsoleError "Upload error:" e) ;;;
            emit (SetUploadError
                    (Some (if truthy_str (Some (message e)) then message e
                           else "Failed to upload complaints. Please try again."))) ;;;
            emit (Alert ("Upload failed: " ++ message e)%string)))
      [SetUploading false].

End Page.

End ComplaintPage.

(* ===================================================================== *)
(** ** The ingestion back end *)
(* ===================================================================== *)

Module Backend.

(** Modelled from the spec: the back end is not among the sources (only
    its client is), so its data model follows section 3 of the
    specification.  The lifecycle status of a sub-ticket. *)
Inductive Status := open | in_progress | resolved | closed.

(** Modelled from the spec: the media kind of section 3, absent from
    the sources. *)
Inductive MediaKind := image | video.

(** Modelled from the spec: the error taxonomy of section 7, absent
    from the sources. *)
Inductive Failure :=
| InvalidInput
| UnsupportedMediaType
| DuplicateMedia
| DetectionFailure
| StorageFailure
| InvalidStatusTransition
| NotFound.

(** Modelled from the spec: a captured latitude/longitude pair. *)
Definition Location : Type := (Q * Q)%type.

(** Modelled from the spec: one file of a batch as the gateway receives
    it, with its optional geolocation and its arrival time. *)
Record Upload := {
  name : string;
  bytes : list Byte.byte;
  geolocation : option Location;
  received_at : Z
}.

(** Modelled from the spec: the MediaItem of section 3. *)
Record MediaItem := {
  media_id : nat;
  kind : MediaKind;
  payload : list Byte.byte;
  captured : option Location;
  uploaded_at : Z;
  content_hash : N;
  duplicate : bool
}.

(** Modelled from the spec: the Detection of section 3; the media item
    it belongs to is the one being processed. *)
Record Detection := {
  det_issue_type : string;
  confidence : Q;
  frame : option nat
}.

(** Modelled from the spec: the Ticket of section 3. *)
Record Ticket := {
  ticket_id : nat;
  location : option Location;
  created_at : Z;
  sub_ids : list nat
}.

(** Modelled from the spec: the SubTicket of section 3. *)
Record SubTicket := {
  sub_id : nat;
  parent : nat;
  issue_type : string;
  authority : string;
  status : Status;
  media_count : nat;
  rejected_count : nat;
  sub_location : option Location
}.

(** Modelled from the spec: the persisted state of the media store, the
    dedup store (content hash to canonical media item) and the ticket
    store, with the link from a canonical media item to the sub-tickets
    it contributed to.  All lists are in creation order. *)
Record Store := {
  media : list MediaItem;
  fingerprints : list (N * nat);
  tickets : list Ticket;
  subs : list SubTicket;
  attached : list (nat * nat)
}.

(** Modelled from the spec: the state of a system that has received
    nothing yet. *)
Definition empty : Store :=
  {| media := []; fingerprints := []; tickets := []; subs := []; attached := [] |}.

(** Modelled from the spec: the batch response of section 6, each
    touched ticket with the snapshot of its sub-tickets. *)
Record BatchResult := {
  tickets_created : list (Ticket * list SubTicket);
  duplicates_found : nat;
  message : string;
  rejected : list (string * Failure)
}.

(** Modelled from the spec: what the gateway has accumulated while it
    walks a batch. *)
Record Progress := {
  store : Store;
  touched : list nat;
  duplicates : nat;
  failures : list (string * Failure)
}.

(** Modelled from the spec: equality test on the status enumeration,
    used by the transition check. *)
Definition Status_eqb (a b : Status) : bool :=
  match a, b with
  | open, open | in_progress, in_progress
  | resolved, resolved | closed, closed => true
  | _, _ => false
  end.

(** Modelled from the spec: the successor on the forward-only chain
    open, in_progress, resolved, closed of section 4.5. *)
Definition next_status (s : Status) : option Status :=
  match s with
  | open => Some in_progress
  | in_progress => Some resolved
  | resolved => Some closed
  | closed => None
  end.

(** Modelled from the spec: the same chain as a relation, one
    constructor per arrow. *)
Inductive follows_chain : Status -> Status -> Prop :=
| open_to_in_progress : follows_chain open in_progress
| in_progress_to_resolved : follows_chain in_progress resolved
| resolved_to_closed : follows_chain resolved closed.

(** Modelled from the spec: the only mutations of a sub-ticket the
    specification allows, its status and its two counters. *)
Definition set_status (st : SubTicket) (s : Status) : SubTicket :=
  {| sub_id := sub_id st; parent := parent st; issue_type := issue_type st;
     authority := authority st; status := s; media_count := media_count st;
     rejected_count := rejected_count st; sub_location := sub_location st |}.

(** Modelled from the spec: one more media item on a sub-ticket. *)
Definition add_media (st : SubTicket) : SubTicket :=
  {| sub_id := sub_id st; parent := parent st; issue_type := issue_type st;
     authority := authority st; status := status st;
     media_count := S (media_count st);
     rejected_count := rejected_count st; sub_location := sub_location st |}.

(** Modelled from the spec: one more rejected duplicate on a
    sub-ticket. *)
Definition add_rejected (st : SubTicket) : SubTicket :=
  {| sub_id := sub_id st; parent := parent st; issue_type := issue_type st;
     authority := authority st; status := status st;
     media_count := media_count st;
     rejected_count := S (rejected_count st); sub_location := sub_location st |}.

(** Modelled from the spec: a store with its sub-tickets replaced. *)
Definition with_subs (s : Store) (l : list SubTicket) : Store :=
  {| media := media s; fingerprints := fingerprints s; tickets := tickets s;
     subs := l; attached := attached s |}.

(** Modelled from the spec: [updateStatus(sub_id, newStatus)] of the
    ticket store (section 4.5), absent from the sources.  It returns
    the updated sub-ticket or the failure, and the store afterwards. *)
Definition updateStatus (s : Store) (sub : nat) (newStatus : Status)
  : (Failure + SubTicket) * Store :=
  match find (fun st => Nat.eqb (sub_id st) sub) (subs s) with
  | None => (inl NotFound, s)
  | Some st =>
      match next_status (status st) with
      | Some allowed =>
          if Status_eqb allowed newStatus
          then (inr (set_status st newStatus),
                with_subs s (map (fun x => if Nat.eqb (sub_id x) sub
                                           then set_status x newStatus else x)
                                 (subs s)))
          else (inl InvalidStatusTransition, s)
      | None => (inl InvalidStatusTransition, s)
      end
  end.

(** Modelled from the spec: a batch in flight (section 5): the files
    it has still to commit and what its gateway has accumulated. *)
Record InFlight := {
  pending : list Upload;
  batch_touched : list nat;
  batch_duplicates : nat;
  batch_failures : list (string * Failure)
}.

(** Modelled from the spec: the system while batches are served
    concurrently (section 5): the one authoritative store and the
    batches in flight. *)
Record System := {
  shared : Store;
  flights : list InFlight
}.

(** Modelled from the spec: the batches in flight with the one at
    position [i] replaced. *)
Fixpoint set_flight (l : list InFlight) (i : nat) (b : InFlight) : list InFlight :=
  match l, i with
  | [], _ => []
  | _ :: rest, O => b :: rest
  | x :: rest, S j => x :: set_flight rest j b
  end.

Section Pipeline.

(** Modelled from the spec: the pluggable parts of the pipeline, which
    the specification leaves to configuration or to external services:
    the content hash, the media-kind sniffing, the detector (no result
    on timeout or malformed output), the authority table, the bucket
    predicate over radius and time window, the batch limit and the
    wording of the response message. *)
Variable fingerprint : list Byte.byte -> N.
Variable kind_of : list Byte.byte -> option MediaKind.
Variable detect : MediaKind -> list Byte.byte -> option (list Detection).
Variable authority_mapping : list (string * string).
Variable same_bucket : Location -> Z -> Location -> Z -> bool.
Variable max_batch : nat.
Variable message_for : nat -> string.

(** Modelled from the spec: the canonical media item of a content
    hash, if the hash is registered. *)
Fixpoint lookup_hash (h : N) (fps : list (N * nat)) : option nat :=
  match fps with
  | [] => None
  | (h', m) :: rest => if N.eqb h h' then Some m else lookup_hash h rest
  end.

(** Modelled from the spec: [registerIfAbsent(hash, media_item_id)] of
    the dedup store (section 4.2), one atomic check-and-set. *)
Definition registerIfAbsent (s : Store) (h : N) (m : nat) : (bool * nat) * Store :=
  match lookup_hash h (fingerprints s) with
  | Some canonical => ((false, canonical), s)
  | None =>
      ((true, m),
       {| media := media s; fingerprints := fingerprints s ++ [(h, m)];
          tickets := tickets s; subs := subs s; attached := attached s |})
  end.

(** Modelled from the spec: the collapse of repeated detections of one
    issue type from one media item (section 4.3); the first of each
    issue type is kept. *)
Fixpoint collapse (seen : list string) (dets : list Detection) : list Detection :=
  match dets with
  | [] => []
  | d :: rest =>
      if existsb (String.eqb (det_issue_type d)) seen
      then collapse seen rest
      else d :: collapse (det_issue_type d :: seen) rest
  end.

(** Modelled from the spec: authority assignment with the
    [unassigned] default (section 4.4). *)
Definition authority_for (issue : string) : string :=
  match Js.assoc issue authority_mapping with
  | Some a => a
  | None => "unassigned"
  end.

(** Modelled from the spec: the sub-ticket of a ticket for an issue
    type, if it has one. *)
Definition sub_of_type (s : Store) (t : Ticket) (issue : string) : option SubTicket :=
  find (fun st => Nat.eqb (parent st) (ticket_id t)
                  && String.eqb (issue_type st) issue)
       (subs s).

(** Modelled from the spec: resolved or closed, so that no further
    media accretes (section 3). *)
Definition done (st : SubTicket) : bool :=
  match status st with
  | resolved | closed => true
  | _ => false
  end.

(** Modelled from the spec: step 1 of the decision procedure of
    section 4.4.  A ticket matches a detection when both have a known
    location in one bucket and the ticket's sub-ticket of that issue
    type, if any, is not yet resolved or closed. *)
Definition matching (s : Store) (issue : string) (loc : option Location)
           (time : Z) (t : Ticket) : bool :=
  match loc, location t with
  | Some l, Some l' =>
      same_bucket l time l' (created_at t)
      && match sub_of_type s t issue with
         | Some st => negb (done st)
         | None => true
         end
  | _, _ => false
  end.

(** Modelled from the spec: a sub-ticket at its creation, open, with
    the media item that caused it and its authority assigned. *)
Definition new_sub (s : Store) (t : nat) (issue : string) (loc : option Location)
  : SubTicket :=
  {| sub_id := List.length (subs s); parent := t; issue_type := issue;
     authority := authority_for issue; status := open;
     media_count := 1; rejected_count := 0; sub_location := loc |}.

(** Modelled from the spec: steps 1 to 4 of the aggregation engine
    (section 4.4) for one detection of media item [m]; returns the
    store and the id of the ticket touched. *)
Definition aggregate (s : Store) (m : nat) (loc : option Location) (time : Z)
           (d : Detection) : Store * nat :=
  let issue := det_issue_type d in
  match find (matching s issue loc time) (tickets s) with
  | Some t =>
      match sub_of_type s t issue with
      | Some st =>
          ({| media := media s; fingerprints := fingerprints s;
              tickets := tickets s;
              subs := map (fun x => if Nat.eqb (sub_id x) (sub_id st)
                                    then add_media x else x) (subs s);
              attached := attached s ++ [(m, sub_id st)] |},
           ticket_id t)
      | None =>
          let st := new_sub s (ticket_id t) issue loc in
          ({| media := media s; fingerprints := fingerprints s;
              tickets := map (fun x => if Nat.eqb (ticket_id x) (ticket_id t)
                                       then {| ticket_id := ticket_id x;
                                               location := location x;
                                               created_at := created_at x;
                                               sub_ids := sub_ids x ++ [sub_id st] |}
                                       else x) (tickets s);
              subs := subs s ++ [st];
              attached := attached s ++ [(m, sub_id st)] |},
           ticket_id t)
      end
  | None =>
      let t := List.length (tickets s) in
      let st := new_sub s t issue loc in
      ({| media := media s; fingerprints := fingerprints s;
          tickets := tickets s ++ [{| ticket_id := t; location := loc;
                                      created_at := time;
                                      sub_ids := [sub_id st] |}];
          subs := subs s ++ [st];
          attached := attached s ++ [(m, sub_id st)] |},
       t)
  end.

(** Modelled from the spec: the media item stored for an upload. *)
Definition item_of (u : Upload) (m : nat) (k : MediaKind) (dup : bool) : MediaItem :=
  {| media_id := m; kind := k; payload := bytes u; captured := geolocation u;
     uploaded_at := received_at u; content_hash := fingerprint (bytes u);
     duplicate := dup |}.

(** Modelled from the spec: is the sub-ticket associated with the
    canonical media item. *)
Definition attached_to (s : Store) (canonical : nat) (st : SubTicket) : bool :=
  existsb (fun a => Nat.eqb (fst a) canonical && Nat.eqb (snd a) (sub_id st))
          (attached s).

(** Modelled from the spec: the commit of a duplicate (section 4.2):
    the item is kept flagged as duplicate and only the rejected count
    of the sub-tickets of the canonical item moves. *)
Definition commit_duplicate (s : Store) (u : Upload) (k : MediaKind)
           (canonical : nat) : Store :=
  {| media := media s ++ [item_of u (List.length (media s)) k true];
     fingerprints := fingerprints s;
     tickets := tickets s;
     subs := map (fun st => if attached_to s canonical st
                            then add_rejected st else st) (subs s);
     attached := attached s |}.

(** Modelled from the spec: the commit of a novel file: its media item
    and then one aggregation per collapsed detection, in order. *)
Definition commit_novel (s : Store) (u : Upload) (k : MediaKind)
           (dets : list Detection) : Store * list nat :=
  let m := List.length (media s) in
  fold_left (fun acc d =>
               let '(s', t) := aggregate (fst acc) m (geolocation u)
                                         (received_at u) d in
               (s', snd acc ++ [t]))
            (collapse [] dets)
            ({| media := media s ++ [item_of u m k false];
                fingerprints := fingerprints s; tickets := tickets s;
                subs := subs s; attached := attached s |}, []).

(** Modelled from the spec: the tickets of the sub-tickets associated
    with a canonical media item. *)
Definition parents_of (s : Store) (canonical : nat) : list nat :=
  map parent (filter (attached_to s canonical) (subs s)).

(** Modelled from the spec: the per-file step of the gateway (sections
    4.1 to 4.3): sniff the kind, register the fingerprint, and either
    count a duplicate or run detection and aggregation.  A file whose
    detection fails commits nothing. *)
Definition process (p : Progress) (u : Upload) : Progress :=
  match kind_of (bytes u) with
  | None =>
      {| store := store p; touched := touched p; duplicates := duplicates p;
         failures := failures p ++ [(name u, UnsupportedMediaType)] |}
  | Some k =>
      let m := List.length (media (store p)) in
      let '((registered, canonical), s1) :=
        registerIfAbsent (store p) (fingerprint (bytes u)) m in
      if registered then
        match detect k (bytes u) with
        | None =>
            {| store := store p; touched := touched p;
               duplicates := duplicates p;
               failures := failures p ++ [(name u, DetectionFailure)] |}
        | Some dets =>
            let '(s2, ts) := commit_novel s1 u k dets in
            {| store := s2; touched := touched p ++ ts;
               duplicates := duplicates p; failures := failures p |}
        end
      else
        {| store := commit_duplicate s1 u k canonical;
           touched := touched p ++ parents_of s1 canonical;
           duplicates := S (duplicates p);
           failures := failures p ++ [(name u, DuplicateMedia)] |}
  end.

(** Modelled from the spec: the snapshot of a touched ticket with its
    sub-tickets (section 4.4). *)
Definition snapshot (s : Store) (t : nat) : list (Ticket * list SubTicket) :=
  map (fun x => (x, filter (fun st => Nat.eqb (parent st) t) (subs s)))
      (filter (fun x => Nat.eqb (ticket_id x) t) (tickets s)).

(** Modelled from the spec: [submitBatch(files)] of the ingestion
    gateway (section 4.1) on the store [s]: an empty batch is
    [InvalidInput]; files beyond the configured maximum are rejected
    one by one; the response carries every ticket touched. *)
Definition submitBatch (s : Store) (files : list Upload)
  : Failure + (BatchResult * Store) :=
  match files with
  | [] => inl InvalidInput
  | _ =>
      let p := fold_left process (firstn max_batch files)
                 {| store := s; touched := []; duplicates := 0; failures := [] |} in
      inr ({| tickets_created :=
                flat_map (snapshot (store p)) (nodup Nat.eq_dec (touched p));
              duplicates_found := duplicates p;
              message := message_for (duplicates p);
              rejected := failures p
                          ++ map (fun u => (name u, InvalidInput))
                                 (skipn max_batch files) |},
           store p)
  end.

(** Modelled from the spec: a batch as the gateway accepts it
    (section 4.1), cut at the configured maximum, with no file
    committed yet. *)
Definition accept (files : list Upload) : InFlight :=
  {| pending := firstn max_batch files; batch_touched := [];
     batch_duplicates := 0; batch_failures := [] |}.

(** Modelled from the spec: batches accepted at the same time on the
    store [s] (section 5). *)
Definition start (s : Store) (batches : list (list Upload)) : System :=
  {| shared := s; flights := map accept batches |}.

(** Modelled from the spec: one atomic per-file commit (section 5):
    batch [i] commits its next file on the shared store; a batch that
    has none left, or is not there, changes nothing. *)
Definition commit (sys : System) (i : nat) : System :=
  match nth_error (flights sys) i with
  | Some b =>
      match pending b with
      | u :: rest =>
          let p := process {| store := shared sys; touched := batch_touched b;
                              duplicates := batch_duplicates b;
                              failures := batch_failures b |} u in
          {| shared := store p;
             flights := set_flight (flights sys) i
                          {| pending := rest; batch_touched := touched p;
                             batch_duplicates := duplicates p;
                             batch_failures := failures p |} |}
      | [] => sys
      end
  | None => sys
  end.

(** Modelled from the spec: an interleaving of the batches' commits
    (section 5): [schedule] names, commit after commit, the batch
    whose next file is committed. *)
Definition run (sys : System) (schedule : list nat) : System :=
  fold_left commit schedule sys.

End Pipeline.

(** Modelled from the spec: the files still to commit over all
    batches in flight. *)
Definition remaining (sys : System) : nat :=
  list_sum (map (fun b => List.length (pending b)) (flights sys)).

(** Modelled from the spec: the duplicates that the batches in flight
    have counted so far. *)
Definition counted_duplicates (sys : System) : nat :=
  list_sum (map batch_duplicates (flights sys)).

End Backend.

(* ===================================================================== *)
(** ** Vocabulary of the statements *)
(* ===================================================================== *)

(** A comparator that is the difference of a numeric key, largest key
    first, on the elements of [l]; and the order it induces. *)
Definition keyed {A} (cmp : A -> A -> option Z) (key : A -> Z) (l : list A) : Prop :=
  forall x y, In x l -> In y l -> cmp x y = Some (key y - key x).

Definition descending {A} (key : A -> Z) (x y : A) : Prop := key y <= key x.

(** Row [a] of the ticket log was created no earlier than row [b]. *)
Definition not_older (Date_parse : string -> option Z) (a b : TicketLog.Row) : Prop :=
  exists da db,
    TicketLog.date_of Date_parse a = Some da
    /\ TicketLog.date_of Date_parse b = Some db
    /\ db <= da.

Definition date_key (Date_parse : string -> option Z) (t : TicketLog.Row) : Z :=
  match TicketLog.date_of Date_parse t with
  | Some d => d
  | None => 0
  end.

(** What the three selections of the ticket log ask of a row; [all]
    and the empty date select everything. *)
Definition selected (selectedDistortion selectedStatus selectedDate : string)
           (t : TicketLog.Row) : Prop :=
  (selectedDistortion = "all"
   \/ issue_type (TicketLog.row_sub t) = Some selectedDistortion)
  /\ (selectedStatus = "all"
      \/ status (TicketLog.row_sub t) = Some selectedStatus)
  /\ (selectedDate = ""
      \/ exists c, created_at (TicketLog.row_sub t) = Some c
                   /\ String.prefix selectedDate c = true).

(** Both coordinates of a sub-ticket, after the fall-back to its
    ticket, are truthy. *)
Definition has_location (ticket : Ticket) (subTicket : SubTicket) : Prop :=
  Js.truthy_num (MapView.lat_of ticket subTicket) = true
  /\ Js.truthy_num (MapView.lng_of ticket subTicket) = true.

(** The map shows a marker for this sub-ticket of this ticket. *)
Definition has_marker (tickets : list Ticket) (ticket : Ticket)
           (subTicket : SubTicket) : Prop :=
  exists m, In m (MapView.markers (Some tickets))
            /\ MapView.popup m = MapView.locate ticket subTicket.

(** What a row shows of the sub-ticket it was built from. *)
Definition shown_ids (row : ComplaintPage.UploadedFile) :=
  (ComplaintPage.uf_ticket_id row, ComplaintPage.uf_sub_id row,
   ComplaintPage.uf_issue_type row).

Definition typed_by_issue (row : ComplaintPage.UploadedFile) : Prop :=
  ComplaintPage.uf_type row
  = if Js.strict_eq_str (ComplaintPage.uf_issue_type row) "video"
    then "video" else "image".

(** An event of the conversion loops: a [fetch] of a local URL, which
    has no body. *)
Definition local_fetch (e : ComplaintPage.Event) : Prop :=
  exists u, e = ComplaintPage.Service
                  (Api.Fetch {| Api.req_url := u; Api.req_method := None;
                                Api.req_headers := []; Api.req_body := None |}).

(** The requests among the events of a handler. *)
Definition requests (tr : list ComplaintPage.Event) : list Api.Request :=
  flat_map (fun e => match e with
                     | ComplaintPage.Service (Api.Fetch r) => [r]
                     | _ => []
                     end) tr.

(** The files that the items of the page state hold, in order. *)
Definition attached_files (items : list ComplaintPage.Media) : list Api.File :=
  flat_map (fun m => match ComplaintPage.file m with
                     | Some f => [f]
                     | None => []
                     end) items.

(** What the submit handler does about an error [e] that it caught. *)
Definition reported (e : Js.error) : list ComplaintPage.Event :=
  [ComplaintPage.ConsoleError "Upload error:" e;
   ComplaintPage.SetUploadError
     (Some (if Js.truthy_str (Some (Js.message e)) then Js.message e
            else "Failed to upload complaints. Please try again."));
   ComplaintPage.Alert ("Upload failed: " ++ Js.message e)%string].

(** A media item with its attached geolocation removed. *)
Definition without_location (m : ComplaintPage.Media) : ComplaintPage.Media :=
  {| ComplaintPage.id := ComplaintPage.id m;
     ComplaintPage.url := ComplaintPage.url m;
     ComplaintPage.file := ComplaintPage.file m;
     ComplaintPage.lat := None;
     ComplaintPage.lng := None |}.

(** The body of an error response names a detail: it parses to an
    object whose [detail] is truthy. *)
Definition server_detail (env : Api.Env) (response : Api.Response) (d : Js.json)
  : Prop :=
  exists fields,
    Api.JSON_parse env (Api.text response) = inr (Js.JObj fields)
    /\ Js.assoc "detail" fields = Some d
    /\ Js.truthy (Some d) = true.

(** A response in the wire format, read against the typed records: a
    scalar field holds a string (a number), or is absent or [null]; a
    list field holds an array of objects, or is absent or [null]. *)
Definition wire_str (x : option Js.json) (o : option string) : Prop :=
  match o with
  | Some s => x = Some (Js.JStr s)
  | None => x = None \/ x = Some Js.JNull
  end.

Definition wire_num (x : option Js.json) (o : option Q) : Prop :=
  match o with
  | Some q => x = Some (Js.JNum q)
  | None => x = None \/ x = Some Js.JNull
  end.

Definition wire_list {A} (item : Js.json -> A -> Prop)
           (x : option Js.json) (o : option (list A)) : Prop :=
  match o with
  | Some l => exists items, x = Some (Js.JArr items) /\ Forall2 item items l
  | None => x = None \/ x = Some Js.JNull
  end.

Definition is_object (v : Js.json) : Prop := exists fields, v = Js.JObj fields.

Definition wire_subTicket (v : Js.json) (st : SubTicket) : Prop :=
  is_object v
  /\ wire_str (Wire.field v "sub_id") (sub_id st)
  /\ wire_str (Wire.field v "issue_type") (issue_type st)
  /\ wire_str (Wire.field v "authority") (authority st)
  /\ wire_str (Wire.field v "status") (status st)
  /\ wire_num (Wire.field v "latitude") (latitude st)
  /\ wire_num (Wire.field v "longitude") (longitude st)
  /\ wire_num (Wire.field v "media_count") (media_count st)
  /\ wire_num (Wire.field v "rejected_count") (rejected_count st)
  /\ wire_str (Wire.field v "created_at") (created_at st)
  /\ wire_str (Wire.field v "image_id") (image_id st).

Definition wire_ticket (v : Js.json) (t : Ticket) : Prop :=
  is_object v
  /\ wire_str (Wire.field v "ticket_id") (ticket_id t)
  /\ wire_num (Wire.field v "latitude") (t_latitude t)
  /\ wire_num (Wire.field v "longitude") (t_longitude t)
  /\ wire_str (Wire.field v "status") (t_status t)
  /\ wire_str (Wire.field v "created_at") (t_created_at t)
  /\ wire_list wire_subTicket (Wire.field v "sub_tickets") (sub_tickets t).

(** A listing response that carries [tickets], and an upload response
    that carries [r]. *)
Definition wire_listing (response : Js.json) (tickets : option (list Ticket)) : Prop :=
  is_object response
  /\ wire_list wire_ticket (Wire.field response "tickets") tickets.

Definition wire_upload (response : Js.json) (r : Wire.UploadResponse) : Prop :=
  is_object response
  /\ wire_list wire_ticket (Wire.field response "tickets_created")
                (Wire.tickets_created r)
  /\ wire_num (Wire.field response "duplicates_found") (Wire.duplicates_found r)
  /\ wire_str (Wire.field response "message") (Wire.response_message r).

(** The batch request would carry each file's geolocation if the
    locations of the items could be read off it. *)
Definition request_carries_geolocation : Prop :=
  exists read : Api.Request -> list (option Q * option Q),
    forall env images videos tr files,
      ComplaintPage.collect_files env images videos = (tr, inr files) ->
      read (Api.upload_request env files)
      = map (fun m => (ComplaintPage.lat m, ComplaintPage.lng m))
            (images ++ videos).

(** The ticket and the sub-ticket that the first copy [u0] of some
    content creates in an empty store, the latter after [j] rejected
    duplicates. *)
Definition first_ticket (u0 : Backend.Upload) : Backend.Ticket :=
  {| Backend.ticket_id := 0; Backend.location := Backend.geolocation u0;
     Backend.created_at := Backend.received_at u0; Backend.sub_ids := [0%nat] |}.

Definition first_sub (authority_mapping : list (string * string))
           (u0 : Backend.Upload) (issue : string) (j : nat) : Backend.SubTicket :=
  {| Backend.sub_id := 0; Backend.parent := 0; Backend.issue_type := issue;
     Backend.authority := Backend.authority_for authority_mapping issue;
     Backend.status := Backend.open; Backend.media_count := 1;
     Backend.rejected_count := j; Backend.sub_location := Backend.geolocation u0 |}.

(** The gateway's progress once [u0] and then [j] byte-identical
    copies of it have been processed, starting from nothing. *)
Definition after_copies (fingerprint : list Byte.byte -> N)
           (authority_mapping : list (string * string))
           (u0 : Backend.Upload) (k : Backend.MediaKind) (issue : string)
           (j : nat) (p : Backend.Progress) : Prop :=
  Backend.fingerprints (Backend.store p)
  = [(fingerprint (Backend.bytes u0), 0%nat)]
  /\ Backend.tickets (Backend.store p) = [first_ticket u0]
  /\ Backend.subs (Backend.store p) = [first_sub authority_mapping u0 issue j]
  /\ Backend.attached (Backend.store p) = [(0%nat, 0%nat)]
  /\ (exists dups,
        Backend.media (Backend.store p)
        = Backend.item_of fingerprint u0 0 k false :: dups
        /\ List.length dups = j
        /\ Forall (fun m => Backend.duplicate m = true) dups)
  /\ Backend.duplicates p = j
  /\ (exists more, Backend.touched p = 0%nat :: more /\ Forall (eq 0%nat) more).

(** The store once [u0] and then [j] byte-identical copies of it have
    been committed, starting from nothing, by whichever batches. *)
Definition store_after_copies (fingerprint : list Byte.byte -> N)
           (authority_mapping : list (string * string))
           (u0 : Backend.Upload) (k : Backend.MediaKind) (issue : string)
           (j : nat) (s : Backend.Store) : Prop :=
  Backend.fingerprints s = [(fingerprint (Backend.bytes u0), 0%nat)]
  /\ Backend.tickets s = [first_ticket u0]
  /\ Backend.subs s = [first_sub authority_mapping u0 issue j]
  /\ Backend.attached s = [(0%nat, 0%nat)]
  /\ (exists dups,
        Backend.media s = Backend.item_of fingerprint u0 0 k false :: dups
        /\ List.length dups = j
        /\ Forall (fun m => Backend.duplicate m = true) dups).

(** The batches in flight hold copies of one content only, [total] of
    them were submitted, and either none is committed yet or one is
    the canonical item and the others committed so far were counted
    as its duplicates. *)
Definition copies_in_flight (fingerprint : list Byte.byte -> N)
           (authority_mapping : list (string * string))
           (content : list Byte.byte) (k : Backend.MediaKind) (issue : string)
           (total : nat) (sys : Backend.System) : Prop :=
  (forall b u, In b (Backend.flights sys) -> In u (Backend.pending b) ->
               Backend.bytes u = content)
  /\ ((Backend.shared sys = Backend.empty
       /\ Backend.remaining sys = total
       /\ Backend.counted_duplicates sys = 0%nat)
      \/ exists u0 j,
           Backend.bytes u0 = content
           /\ store_after_copies fingerprint authority_mapping u0 k issue j
                                 (Backend.shared sys)
           /\ (S j + Backend.remaining sys)%nat = total
           /\ Backend.counted_duplicates sys = j).

(** The canonical and the duplicate media items of a store. *)
Definition canonical_items (s : Backend.Store) : list Backend.MediaItem :=
  filter (fun m => negb (Backend.duplicate m)) (Backend.media s).

Definition duplicate_items (s : Backend.Store) : list Backend.MediaItem :=
  filter Backend.duplicate (Backend.media s).

(** Byte-identical copies would always make one ticket if, whatever
    the detector and the other pluggable parts are, every batch of
    copies of one content, submitted to a system that holds nothing
    yet, gave one canonical item, one ticket with one sub-ticket and
    the counts of the duplicates. *)
Definition copies_always_make_one_ticket : Prop :=
  forall fingerprint kind_of detect authority_mapping same_bucket max_batch
         message_for (files : list Backend.Upload) (content : list Byte.byte),
    files <> [] ->
    (forall u, In u files -> Backend.bytes u = content) ->
    exists result s t st,
      Backend.submitBatch fingerprint kind_of detect authority_mapping same_bucket
                          max_batch message_for Backend.empty files
      = inr (result, s)
      /\ List.length (canonical_items s) = 1%nat
      /\ Backend.tickets s = [t]
      /\ Backend.subs s = [st]
      /\ Backend.tickets_created result = [(t, [st])]
      /\ Backend.duplicates_found result = (List.length files - 1)%nat
      /\ Backend.media_count st = 1%nat
      /\ Backend.rejected_count st = (List.length files - 1)%nat.

(** A submission without a file to send would be rejected cleanly if
    the handler always failed with an error and did nothing but tell
    the user. *)
Definition empty_batch_is_rejected_cleanly : Prop :=
  forall env images videos,
    Js.outcome (ComplaintPage.collect_files env images videos) = inr [] ->
    (exists e,
        Js.outcome (ComplaintPage.handleAnalyze env images videos) = inl e)
    /\ forall ev,
         In ev (Js.trace (ComplaintPage.handleAnalyze env images videos)) ->
         exists msg, ev = ComplaintPage.Alert msg.

(** [window.alert] is modal: the call returns when the user has closed
    the dialog.  So what a handler has done while its first alert is
    on the screen is its trace up to that alert. *)
Fixpoint until_dismissed (tr : list ComplaintPage.Event) : list ComplaintPage.Event :=
  match tr with
  | [] => []
  | ComplaintPage.Alert msg :: _ => [ComplaintPage.Alert msg]
  | e :: rest => e :: until_dismissed rest
  end.

(** The duplicate notice would be non-blocking if, whenever the upload
    response reports duplicates, the results page were opened while
    the notice is still on the screen. *)
Definition notice_is_non_blocking : Prop :=
  forall env images videos tr1 files tr2 response r n,
    ComplaintPage.collect_files env images videos = (tr1, inr files) ->
    files <> [] ->
    Api.uploadComplaints env files = (tr2, inr response) ->
    wire_upload response r ->
    Wire.duplicates_found r = Some n ->
    (0 < n)%Q ->
    exists st,
      In (ComplaintPage.Navigate "/analyse" st)
         (until_dismissed
            (Js.trace (ComplaintPage.handleAnalyze env images videos))).

(* ===================================================================== *)
(** ** Sample data *)
(* ===================================================================== *)

Module Sample.

Definition sub (sid issue st : string) (la lo : option Q) (created : option string)
  : SubTicket :=
  {| sub_id := Some sid; issue_type := Some issue; authority := Some "municipality";
     status := Some st; latitude := la; longitude := lo;
     media_count := Some 1%Q; rejected_count := Some 0%Q;
     created_at := created; image_id := None |}.

Definition pothole : SubTicket :=
  sub "SUB-1" "pathholes" "resolved" (Some (33 # 2)%Q) (Some (403 # 5)%Q)
      (Some "2026-01-02T10:00:00").

Definition garbage : SubTicket :=
  sub "SUB-2" "garbage" "resolved" None None (Some "2026-01-05T08:30:00").

Definition debris : SubTicket :=
  sub "SUB-3" "streetdebris" "open" (Some 0%Q) (Some (403 # 5)%Q)
      (Some "2026-01-03T09:00:00").

Definition ticket (tid : string) (la lo : option Q) (subs : list SubTicket) : Ticket :=
  {| ticket_id := Some tid; t_latitude := la; t_longitude := lo;
     t_status := None; t_created_at := Some "2026-01-02T10:00:00";
     sub_tickets := Some subs |}.

Definition ticket1 : Ticket :=
  ticket "T-1" (Some (33 # 2)%Q) (Some (403 # 5)%Q) [pothole; garbage].

Definition ticket2 : Ticket :=
  ticket "T-2" (Some 0%Q) (Some (403 # 5)%Q) [debris].

Definition listing : list Ticket := [ticket1; ticket2].

(** A stand-in for [Date]: the digits of an ISO timestamp read as one
    number. *)
Definition digit (c : ascii) : option Z :=
  let n := Z.of_nat (nat_of_ascii c) in
  if (48 <=? n) && (n <=? 57) then Some (n - 48) else None.

Fixpoint digits (s : string) (acc : Z) : Z :=
  match s with
  | EmptyString => acc
  | String c rest =>
      match digit c with
      | Some d => digits rest (10 * acc + d)
      | None => digits rest acc
      end
  end.

Definition Date_parse (s : string) : option Z := Some (digits s 0).

(** A stand-in for the engine's reading of a string as a number: the
    empty string is 0, a run of decimal digits its value, anything
    else not a number. *)
Definition StringToNumber (s : string) : Js.number :=
  if forallb (fun c => match digit c with Some _ => true | None => false end)
             (list_ascii_of_string s)
  then Js.Finite (inject_Z (digits s 0))
  else Js.NotANumber.

Definition rows : list TicketLog.Row := TicketLog.fetchTickets (Some listing).

(** A stand-in for the engine and the network: every request gets the
    same response, and [JSON.parse] knows a few texts. *)
Definition quoted (s : string) : string :=
  (String (ascii_of_nat 34) s ++ String (ascii_of_nat 34) EmptyString)%string.

Definition detail_text : string :=
  ("{" ++ quoted "detail" ++ ":" ++ quoted "Store unreachable" ++ "}")%string.

Definition upload_json : Js.json :=
  Js.JObj [ ("tickets_created",
             Js.JArr [ Js.JObj [ ("ticket_id", Js.JStr "T-1");
                                 ("sub_tickets",
                                  Js.JArr [ Js.JObj [ ("sub_id", Js.JStr "SUB-1");
                                                      ("issue_type", Js.JStr "garbage");
                                                      ("status", Js.JStr "open");
                                                      ("media_count", Js.JNum 1);
                                                      ("rejected_count", Js.JNum 1) ] ]) ] ]);
            ("duplicates_found", Js.JNum 1);
            ("message", Js.JStr "1 duplicate skipped") ].

Definition JSON_parse (s : string) : Js.error + Js.json :=
  if String.eqb s "null" then inr Js.JNull
  else if String.eqb s detail_text
       then inr (Js.JObj [("detail", Js.JStr "Store unreachable")])
  else if String.eqb s "upload-result" then inr upload_json
  else inl (Js.SyntaxError "Unexpected token").

Definition response (ok : bool) (status : Z) (text : string) : Api.Response :=
  {| Api.ok := ok; Api.status := status; Api.statusText := "";
     Api.content_type := "application/json";
     Api.body := list_byte_of_string text |}.

Definition env (r : Api.Response) : Api.Env :=
  {| Api.API_BASE_URL := "";
     Api.fetch := fun _ => inr r;
     Api.JSON_parse := JSON_parse;
     Api.JSON_stringify := fun _ => "{}";
     Api.ToString := fun _ => "[object Object]";
     Api.null_read :=
       fun p => ("Cannot read properties of null (reading '" ++ p ++ "')")%string;
     Api.URLSearchParams_toString := fun _ => "";
     Api.StringToNumber := StringToNumber;
     Api.not_iterable := fun what => (what ++ " is not iterable")%string;
     Api.not_a_function := fun what => (what ++ " is not a function")%string |}.

Definition open_sub : Backend.SubTicket :=
  {| Backend.sub_id := 0; Backend.parent := 0;
     Backend.issue_type := "pathholes"; Backend.authority := "roads";
     Backend.status := Backend.open; Backend.media_count := 1;
     Backend.rejected_count := 0; Backend.sub_location := None |}.

Definition one_ticket_store : Backend.Store :=
  {| Backend.media := []; Backend.fingerprints := [];
     Backend.tickets := [ {| Backend.ticket_id := 0; Backend.location := None;
                             Backend.created_at := 0; Backend.sub_ids := [0%nat] |} ];
     Backend.subs := [open_sub]; Backend.attached := [] |}.

(** The store after a run of status updates, each applied to the store
    the one before left, with the results in order. *)
Fixpoint update_all (s : Backend.Store) (sub : nat) (steps : list Backend.Status)
  : list (Backend.Failure + Backend.Status) * Backend.Store :=
  match steps with
  | [] => ([], s)
  | step :: rest =>
      let (r, s') := Backend.updateStatus s sub step in
      let (rs, s'') := update_all s' sub rest in
      (match r with
       | inl e => inl e
       | inr st => inr (Backend.status st)
       end :: rs, s'')
  end.

(** A stand-in pipeline: every file is an image in which the detector
    sees a pothole in two frames. *)
Definition fingerprint (b : list Byte.byte) : N := N.of_nat (List.length b).

Definition kind_of (b : list Byte.byte) : option Backend.MediaKind :=
  Some Backend.image.

Definition detect (k : Backend.MediaKind) (b : list Byte.byte)
  : option (list Backend.Detection) :=
  Some [ {| Backend.det_issue_type := "pathholes";
            Backend.confidence := (9 # 10)%Q; Backend.frame := Some 0%nat |};
         {| Backend.det_issue_type := "pathholes";
            Backend.confidence := (8 # 10)%Q; Backend.frame := Some 1%nat |} ].

(** A stand-in detector for a photo that shows two defects. *)
Definition detect_two (k : Backend.MediaKind) (b : list Byte.byte)
  : option (list Backend.Detection) :=
  Some [ {| Backend.det_issue_type := "pathholes";
            Backend.confidence := (9 # 10)%Q; Backend.frame := None |};
         {| Backend.det_issue_type := "garbage";
            Backend.confidence := (7 # 10)%Q; Backend.frame := None |} ].

Definition authority_mapping : list (string * string) :=
  [("pathholes", "roads"); ("garbage", "sanitation")].

Definition same_bucket (l : Backend.Location) (t : Z)
           (l' : Backend.Location) (t' : Z) : bool :=
  Qeq_bool (fst l) (fst l') && Qeq_bool (snd l) (snd l').

Definition message_for (n : nat) : string :=
  if Nat.eqb n 0 then "" else "Some files were already registered".

Definition imgA (file_name : string) (geo : option Backend.Location) (t : Z)
  : Backend.Upload :=
  {| Backend.name := file_name; Backend.bytes := list_byte_of_string "imgA";
     Backend.geolocation := geo; Backend.received_at := t |}.

Definition twice : list Backend.Upload :=
  [ imgA "imgA.jpg" (Some ((33 # 2)%Q, (403 # 5)%Q)) 100;
    imgA "imgA-copy.jpg" None 101 ].

Definition photo : Api.File :=
  {| Api.file_name := "pothole.jpg"; Api.file_type := "image/jpeg";
     Api.file_bytes := list_byte_of_string "jpeg-bytes" |}.

Definition clip_file : Api.File :=
  {| Api.file_name := "street.webm"; Api.file_type := "video/webm";
     Api.file_bytes := list_byte_of_string "webm-bytes" |}.

Definition picture (la lo : option Q) : ComplaintPage.Media :=
  {| ComplaintPage.id := "img-1"; ComplaintPage.url := Some "blob:preview-1";
     ComplaintPage.file := Some photo;
     ComplaintPage.lat := la; ComplaintPage.lng := lo |}.

(** An item of the page state that holds neither a file nor a URL. *)
Definition unreadable : ComplaintPage.Media :=
  {| ComplaintPage.id := "img-0"; ComplaintPage.url := None;
     ComplaintPage.file := None;
     ComplaintPage.lat := None; ComplaintPage.lng := None |}.

Definition clip : ComplaintPage.Media :=
  {| ComplaintPage.id := "vid-1"; ComplaintPage.url := Some "blob:preview-2";
     ComplaintPage.file := Some clip_file;
     ComplaintPage.lat := None; ComplaintPage.lng := None |}.

Definition upload_response : Wire.UploadResponse :=
  {| Wire.tickets_created := Some listing;
     Wire.duplicates_found := Some 1%Q;
     Wire.response_message := None |}.

(** What [upload_json] carries. *)
Definition upload_typed : Wire.UploadResponse :=
  {| Wire.tickets_created :=
       Some [ {| ticket_id := Some "T-1"; t_latitude := None; t_longitude := None;
                 t_status := None; t_created_at := None;
                 sub_tickets :=
                   Some [ {| sub_id := Some "SUB-1"; issue_type := Some "garbage";
                             authority := None; status := Some "open";
                             latitude := None; longitude := None;
                             media_count := Some 1%Q; rejected_count := Some 1%Q;
                             created_at := None; image_id := None |} ] |} ];
     Wire.duplicates_found := Some 1%Q;
     Wire.response_message := Some "1 duplicate skipped" |}.

End Sample.

(* ===================================================================== *)
(** ** services/api.js: the other calls *)
(* ===================================================================== *)

Module ApiCalls.

Import Js.
Local Open Scope js_scope.

Section Calls.
Variable env : Api.Env.

Definition getTicketById (ticketId : string) : M Api.Event json :=
  Api.apiRequest env ("/api/complaints/tickets/" ++ ticketId)%string Api.no_options.

Definition getImageUrl (imageId : string) : string :=
  (Api.API_BASE_URL env ++ "/api/complaints/images/" ++ imageId)%string.

(** The request of [detectImage] and [detectVideo]: a form with the
    one field [file]. *)
Definition detect_request (path : string) (file : Api.File) : Api.Request :=
  {| Api.req_url := (Api.API_BASE_URL env ++ path)%string;
     Api.req_method := Some "POST";
     Api.req_headers := [];
     Api.req_body := Some [("file", file)] |}.

Definition detectImage (file : Api.File) : M Api.Event json :=
  response <- Api.do_fetch env (detect_request "/api/yolo/detect-image" file) ;;
  if negb (Api.ok response)
  then
    errorData <- try_catch (Api.json_of env response)
                   (fun _ => ret (JObj [("detail", JStr (Api.statusText response))])) ;;
    detail <- ([], Api.get env errorData "detail") ;;
    throw (Error (Api.message_or env detail
                    ("Detection failed: " ++ show_int (Api.status response))%string))
  else Api.json_of env response.

Definition detectVideo (file : Api.File) : M Api.Event json :=
  response <- Api.do_fetch env (detect_request "/api/yolo/detect-video" file) ;;
  if negb (Api.ok response)
  then
    errorData <- try_catch (Api.json_of env response)
                   (fun _ => ret (JObj [("detail", JStr (Api.statusText response))])) ;;
    detail <- ([], Api.get env errorData "detail") ;;
    throw (Error (Api.message_or env detail
                    ("Video detection failed: " ++ show_int (Api.status response))%string))
  else Api.json_of env response.

Definition getAnnotatedImageUrl (filename : string) : string :=
  (Api.API_BASE_URL env ++ "/api/yolo/annotated/" ++ filename)%string.

Definition getOriginalImageUrl (filename : string) : string :=
  (Api.API_BASE_URL env ++ "/api/yolo/original/" ++ filename)%string.

End Calls.

End ApiCalls.

(* ===================================================================== *)
(** ** TicketLog: state, loading and the pager *)
(* ===================================================================== *)

Module TicketLogPage.

Import Js.
Local Open Scope js_scope.

Record State := {
  tickets : list TicketLog.Row;
  loading : bool;
  selectedDistortion : string;
  selectedStatus : string;
  selectedDate : string;
  showFilters : bool;
  currentPage : Z
}.

(** The [useState] initial values. *)
Definition initial : State :=
  {| tickets := []; loading := true; selectedDistortion := "all";
     selectedStatus := "all"; selectedDate := ""; showFilters := false;
     currentPage := 1 |}.

Inductive Event :=
| Service (e : Api.Event)
| SetTickets (rows : list TicketLog.Row)
| SetLoading (b : bool)
| ConsoleError (label : string) (e : error).

(** The effect run on mount: [getTickets()], flatten, [setTickets];
    a [TypeError] in the loops leaves the rows unset. *)
Definition fetchTickets (env : Api.Env) : M Event unit :=
  finally
    (try_catch
       (response <- lift Service
                      (Api.getTickets env {| Api.filter_status := None;
                                             Api.filter_issue_type := None |}) ;;
        tickets <- ([], Wire.tickets_of env response) ;;
        emit (SetTickets (TicketLog.fetchTickets tickets)))
       (fun e => emit (ConsoleError "Failed to fetch tickets:" e)))
    [SetLoading false].

(** The state after the setters among the events have run. *)
Definition apply (s : State) (ev : Event) : State :=
  match ev with
  | SetTickets rows =>
      {| tickets := rows; loading := loading s;
         selectedDistortion := selectedDistortion s;
         selectedStatus := selectedStatus s; selectedDate := selectedDate s;
         showFilters := showFilters s; currentPage := currentPage s |}
  | SetLoading b =>
      {| tickets := tickets s; loading := b;
         selectedDistortion := selectedDistortion s;
         selectedStatus := selectedStatus s; selectedDate := selectedDate s;
         showFilters := showFilters s; currentPage := currentPage s |}
  | _ => s
  end.

Definition after (s : State) (tr : list Event) : State := fold_left apply tr s.

Section Render.
Variable Date_parse : string -> option Z.

Definition filteredTickets (s : State) : list TicketLog.Row :=
  TicketLog.filteredTickets Date_parse (selectedDistortion s) (selectedStatus s)
                            (selectedDate s) (tickets s).

Definition totalPages (s : State) : Z :=
  TicketLog.totalPages Date_parse (selectedDistortion s) (selectedStatus s)
                       (selectedDate s) (tickets s).

Definition paginatedTickets (s : State) : list TicketLog.Row :=
  TicketLog.paginatedTickets Date_parse (selectedDistortion s) (selectedStatus s)
                             (selectedDate s) (tickets s) (currentPage s).

(** The first column: [startIndex + index + 1] for each row. *)
Fixpoint numbered (startIndex : Z) (index : Z) (rows : list TicketLog.Row)
  : list (Z * TicketLog.Row) :=
  match rows with
  | [] => []
  | ticket :: rest =>
      (startIndex + index + 1, ticket) :: numbered startIndex (index + 1) rest
  end.

(** The table body. *)
Inductive Body :=
| Loading
| NoRecords
| Rows (rows : list (Z * TicketLog.Row)).

Definition body (s : State) : Body :=
  if loading s then Loading
  else if (List.length (paginatedTickets s) =? 0)%nat then NoRecords
  else Rows (numbered (TicketLog.startIndex (currentPage s)) 0 (paginatedTickets s)).

(** What the user can do; a control that is not rendered or is
    disabled gives no state. *)
Inductive Action :=
| ToggleFilters
| ChangeDistortion (value : string)
| ChangeStatus (value : string)
| ChangeDate (value : string)
| Prev
| Next
| Page (i : Z).

Definition with_page (s : State) (p : Z) : State :=
  {| tickets := tickets s; loading := loading s;
     selectedDistortion := selectedDistortion s;
     selectedStatus := selectedStatus s; selectedDate := selectedDate s;
     showFilters := showFilters s; currentPage := p |}.

(** [handleFilterChange(setter)(value)]: set the filter, go to page 1. *)
Definition handleFilterChange (s : State) (a : Action) : State :=
  match a with
  | ChangeDistortion v =>
      {| tickets := tickets s; loading := loading s; selectedDistortion := v;
         selectedStatus := selectedStatus s; selectedDate := selectedDate s;
         showFilters := showFilters s; currentPage := 1 |}
  | ChangeStatus v =>
      {| tickets := tickets s; loading := loading s;
         selectedDistortion := selectedDistortion s; selectedStatus := v;
         selectedDate := selectedDate s;
         showFilters := showFilters s; currentPage := 1 |}
  | ChangeDate v =>
      {| tickets := tickets s; loading := loading s;
         selectedDistortion := selectedDistortion s;
         selectedStatus := selectedStatus s; selectedDate := v;
         showFilters := showFilters s; currentPage := 1 |}
  | _ => s
  end.

Definition click (s : State) (a : Action) : option State :=
  match a with
  | ToggleFilters =>
      Some {| tickets := tickets s; loading := loading s;
              selectedDistortion := selectedDistortion s;
              selectedStatus := selectedStatus s; selectedDate := selectedDate s;
              showFilters := negb (showFilters s); currentPage := currentPage s |}
  | ChangeDistortion v =>
      if showFilters s && existsb (String.eqb v) TicketLog.distortions
      then Some (handleFilterChange s a) else None
  | ChangeStatus v =>
      if showFilters s && existsb (String.eqb v) TicketLog.statuses
      then Some (handleFilterChange s a) else None
  | ChangeDate v =>
      if showFilters s then Some (handleFilterChange s a) else None
  | Prev =>
      if (1 <? totalPages s) && negb (currentPage s =? 1)
      then Some (with_page s (currentPage s - 1)) else None
  | Next =>
      if (1 <? totalPages s) && negb (currentPage s =? totalPages s)
      then Some (with_page s (currentPage s + 1)) else None
  | Page i =>
      if (1 <? totalPages s) && (1 <=? i) && (i <=? totalPages s)
      then Some (with_page s i) else None
  end.

(** A run of clicks, each on the state the one before left. *)
Fixpoint clicks (s : State) (actions : list Action) : option State :=
  match actions with
  | [] => Some s
  | a :: rest =>
      match click s a with
      | Some s' => clicks s' rest
      | None => None
      end
  end.

End Render.

End TicketLogPage.

(* ===================================================================== *)
(** ** HomePage: recent activity *)
(* ===================================================================== *)

Module HomeRecent.

(** [{...subTicket, ticket_id, created_at: subTicket.created_at ||
    ticket.created_at}]. *)
Record Recent := {
  recent_sub : SubTicket;
  recent_ticket_id : option string;
  recent_created_at : option string
}.

Definition recent_of (ticket : Ticket) (subTicket : SubTicket) : Recent :=
  {| recent_sub := subTicket;
     recent_ticket_id := ticket_id ticket;
     recent_created_at := Js.or_str (created_at subTicket) (t_created_at ticket) |}.

Definition flattened (tickets : list Ticket) : list Recent :=
  flat_map (fun ticket =>
              map (fun subTicket => recent_of ticket subTicket)
                  (Js.or_empty (sub_tickets ticket)))
           tickets.

Section Recent.
Variable Date_parse : string -> option Z.

Definition date_of (a : Recent) : option Z :=
  match recent_created_at a with
  | Some c => if Js.truthy_str (Some c) then Date_parse c else Some 0
  | None => Some 0
  end.

Definition newest_first (a b : Recent) : option Z :=
  match date_of b, date_of a with
  | Some dateB, Some dateA => Some (dateB - dateA)
  | _, _ => None
  end.

Definition recentTickets (tickets : list Ticket) : list Recent :=
  Js.slice (Js.sort newest_first (flattened tickets)) 0 3.

End Recent.

End HomeRecent.

(* ===================================================================== *)
(** ** AnalysePage and MapView: opening the map at a location *)
(* ===================================================================== *)

Module MapLink.

(** A coordinate as the analyse page holds it. *)
Inductive value :=
| Undefined
| Null
| Num (q : Q)
| NaN.

(** [Number(v)]; [None] is [NaN]. *)
Definition Number (v : value) : option Q :=
  match v with
  | Undefined => None
  | Null => Some 0%Q
  | Num q => Some q
  | NaN => None
  end.

(** [location.state] of the map route. *)
Record MapState := {
  state_lat : option Q;
  state_lng : option Q;
  state_label : option string
}.

Inductive Event :=
| Alert (msg : string)
| Navigate (path : string) (state : MapState).

Definition is_undefined (v : value) : bool :=
  match v with
  | Undefined => true
  | _ => false
  end.

Definition is_NaN (n : option Q) : bool :=
  match n with
  | None => true
  | Some _ => false
  end.

(** [handleLocationClick(lat, lng)] of the analyse page. *)
Definition handleLocationClick (lat lng : value) : Event :=
  if is_undefined lat || is_undefined lng
     || is_NaN (Number lat) || is_NaN (Number lng)
  then Alert "Location not available for this item."
  else Navigate "/map" {| state_lat := Number lat; state_lng := Number lng;
                          state_label := None |}.

Definition DEFAULT_CENTER : Q * Q := ((82531 # 5000)%Q, (10081 # 125)%Q).
Definition DEFAULT_ZOOM : Z := 13.

(** [Boolean(location.state?.lat && location.state?.lng)]. *)
Definition isRedirected (state : option MapState) : bool :=
  match state with
  | Some st => Js.truthy_num (state_lat st) && Js.truthy_num (state_lng st)
  | None => false
  end.

(** [complaintPos] and [complaintLabel] after the navigation effect. *)
Definition complaint (state : option MapState) : option (Q * Q) * string :=
  match state with
  | Some st =>
      if isRedirected state
      then match state_lat st, state_lng st with
           | Some a, Some b =>
               (Some (a, b),
                match Js.or_str (state_label st) (Some "Complaint Location") with
                | Some l => l
                | None => "Complaint Location"
                end)
           | _, _ => (None, "")
           end
      else (None, "")
  | None => (None, "")
  end.

(** The complaint marker, when one is rendered: position and label. *)
Definition complaint_marker (state : option MapState) : option ((Q * Q) * string) :=
  if isRedirected state
  then match fst (complaint state) with
       | Some position =>
           Some (position,
                 if Js.truthy_str (Some (snd (complaint state)))
                 then snd (complaint state) else "Complaint Location")
       | None => None
       end
  else None.

(** Where the map is centred, and at which zoom, once the effects of
    [ResetMap] and [ComplaintMarker] have run. *)
Definition view (state : option MapState) : (Q * Q) * Z :=
  if negb (isRedirected state) then (DEFAULT_CENTER, DEFAULT_ZOOM)
  else match fst (complaint state) with
       | Some position => (position, 16)
       | None => (DEFAULT_CENTER, DEFAULT_ZOOM)
       end.

End MapLink.

(* ===================================================================== *)
(** ** ComplaintPage: the evidence lists *)
(* ===================================================================== *)

Module Evidence.

(** The [location] state. *)
Record Location := {
  loc_lat : option Q;
  loc_lng : option Q;
  loc_error : option string
}.

Record State := {
  images : list ComplaintPage.Media;
  videos : list ComplaintPage.Media;
  location : Location
}.

Definition initial : State :=
  {| images := []; videos := [];
     location := {| loc_lat := None; loc_lng := None; loc_error := None |} |}.

(** A picked file with what the browser made for it:
    [crypto.randomUUID()] and [URL.createObjectURL(f)]. *)
Record Picked := {
  uuid : string;
  objectURL : string;
  picked_file : Api.File
}.

Definition item_of (location : Location) (f : Picked) : ComplaintPage.Media :=
  {| ComplaintPage.id := uuid f;
     ComplaintPage.url := Some (objectURL f);
     ComplaintPage.file := Some (picked_file f);
     ComplaintPage.lat := loc_lat location;
     ComplaintPage.lng := loc_lng location |}.

Definition handleImageUpload (s : State) (files : list Picked) : State :=
  {| images := images s ++ map (item_of (location s)) files;
     videos := videos s; location := location s |}.

Definition handleVideoUpload (s : State) (files : list Picked) : State :=
  {| images := images s;
     videos := videos s ++ map (item_of (location s)) files;
     location := location s |}.

Definition removeImage (s : State) (id : string) : State :=
  {| images := filter (fun i => negb (String.eqb (ComplaintPage.id i) id)) (images s);
     videos := videos s; location := location s |}.

Definition removeVideo (s : State) (id : string) : State :=
  {| images := images s;
     videos := filter (fun v => negb (String.eqb (ComplaintPage.id v) id)) (videos s);
     location := location s |}.

Definition resetFiles (s : State) : State :=
  {| images := []; videos := []; location := location s |}.

(** The success callback of [getCurrentPosition]. *)
Definition located (s : State) (latitude longitude : Q) : State :=
  {| images := images s; videos := videos s;
     location := {| loc_lat := Some latitude; loc_lng := Some longitude;
                    loc_error := None |} |}.

(** The error callback of [getCurrentPosition]:
    [err.message || "Location unavailable"]. *)
Definition location_failed (s : State) (msg : string) : State :=
  {| images := images s; videos := videos s;
     location := {| loc_lat := loc_lat (location s);
                    loc_lng := loc_lng (location s);
                    loc_error := Some (if String.eqb msg ""
                                       then "Location unavailable" else msg) |} |}.

(** What happens to the lists through the file inputs, the remove
    buttons and the geolocation callbacks.  Items made with the camera
    are not part of this model. *)
Inductive Action :=
| PickImages (files : list Picked)
| PickVideos (files : list Picked)
| RemoveImage (id : string)
| RemoveVideo (id : string)
| Reset
| Located (latitude longitude : Q)
| LocationFailed (msg : string).

Definition step (s : State) (a : Action) : State :=
  match a with
  | PickImages files => handleImageUpload s files
  | PickVideos files => handleVideoUpload s files
  | RemoveImage id => removeImage s id
  | RemoveVideo id => removeVideo s id
  | Reset => resetFiles s
  | Located la lo => located s la lo
  | LocationFailed msg => location_failed s msg
  end.

Definition run (actions : list Action) : State := fold_left step actions initial.

End Evidence.

(* ===================================================================== *)
(** ** Regular expressions *)
(* ===================================================================== *)

Module RegExp.

(** The part of the pattern language that the front end uses, over
    UTF-16 code units.  [Empty] matches nothing; no literal denotes
    it, the matcher produces it. *)
Inductive regex :=
| Empty
| Eps
| Class (p : N -> bool)
| Cat (r1 r2 : regex)
| Alt (r1 r2 : regex)
| Star (r : regex).

(** [r+] and a literal character. *)
Definition Plus (r : regex) : regex := Cat r (Star r).
Definition Chr (c : N) : regex := Class (N.eqb c).

(** The class [\s], which is also what [trim] strips: WhiteSpace and
    LineTerminator of the language. *)
Definition is_space (c : N) : bool :=
  existsb (N.eqb c)
          [9; 10; 11; 12; 13; 32; 160; 5760; 8232; 8233; 8239; 8287; 12288; 65279]%N
  || ((8192 <=? c) && (c <=? 8202))%N.

(** The class [\S]. *)
Definition not_space (c : N) : bool := negb (is_space c).

Fixpoint nullable (r : regex) : bool :=
  match r with
  | Empty => false
  | Eps => true
  | Class _ => false
  | Cat r1 r2 => nullable r1 && nullable r2
  | Alt r1 r2 => nullable r1 || nullable r2
  | Star _ => true
  end.

(** What is left of [r] once [c] has been read. *)
Fixpoint deriv (c : N) (r : regex) : regex :=
  match r with
  | Empty => Empty
  | Eps => Empty
  | Class p => if p c then Eps else Empty
  | Cat r1 r2 =>
      Alt (Cat (deriv c r1) r2) (if nullable r1 then deriv c r2 else Empty)
  | Alt r1 r2 => Alt (deriv c r1) (deriv c r2)
  | Star r1 => Cat (deriv c r1) (Star r1)
  end.

(** [/^r$/.test(s)]. *)
Definition test (r : regex) (s : list N) : bool :=
  nullable (fold_left (fun r c => deriv c r) s r).

(** The words of a pattern. *)
Inductive matches : regex -> list N -> Prop :=
| MEps : matches Eps []
| MClass (p : N -> bool) (c : N) : p c = true -> matches (Class p) [c]
| MCat (r1 r2 : regex) (s1 s2 : list N) :
    matches r1 s1 -> matches r2 s2 -> matches (Cat r1 r2) (s1 ++ s2)
| MAltL (r1 r2 : regex) (s : list N) : matches r1 s -> matches (Alt r1 r2) s
| MAltR (r1 r2 : regex) (s : list N) : matches r2 s -> matches (Alt r1 r2) s
| MStar0 (r : regex) : matches (Star r) []
| MStarS (r : regex) (s1 s2 : list N) :
    matches r s1 -> matches (Star r) s2 -> matches (Star r) (s1 ++ s2).

End RegExp.

(* ===================================================================== *)
(** ** LoginSignup.jsx *)
(* ===================================================================== *)

Module LoginSignup.

(** The value of an input field: its UTF-16 code units. *)
Definition text := list N.

(** [!s.trim()]. *)
Definition blank (s : text) : bool := forallb RegExp.is_space s.

(** [/^\S+@\S+\.\S+$/]. *)
Definition email_pattern : RegExp.regex :=
  RegExp.Cat (RegExp.Plus (RegExp.Class RegExp.not_space))
    (RegExp.Cat (RegExp.Chr 64)
       (RegExp.Cat (RegExp.Plus (RegExp.Class RegExp.not_space))
          (RegExp.Cat (RegExp.Chr 46)
             (RegExp.Plus (RegExp.Class RegExp.not_space))))).

Definition email_test (email : text) : bool := RegExp.test email_pattern email.

Record Errors := {
  err_name : option string;
  err_email : option string;
  err_password : option string
}.

Definition no_errors : Errors :=
  {| err_name := None; err_email := None; err_password := None |}.

Definition name_error (action : string) (name : text) : option string :=
  if String.eqb action "Sign Up" then
    if blank name then Some "Name is required"
    else if (List.length name <? 3)%nat
         then Some "Name must be at least 3 characters"
    else None
  else None.

Definition email_error (email : text) : option string :=
  match email with
  | [] => Some "Email is required"
  | _ => if negb (email_test email) then Some "Enter a valid email" else None
  end.

Definition password_error (action : string) (password : text) : option string :=
  match password with
  | [] => Some "Password is required"
  | _ => if String.eqb action "Sign Up" && (List.length password <? 6)%nat
         then Some "Password must be at least 6 characters"
         else None
  end.

(** [validateForm]: the errors it sets and the boolean it returns. *)
Definition validateForm (action : string) (name email password : text)
  : Errors * bool :=
  let newErrors :=
    {| err_name := name_error action name;
       err_email := email_error email;
       err_password := password_error action password |} in
  (newErrors,
   match err_name newErrors, err_email newErrors, err_password newErrors with
   | None, None, None => true
   | _, _, _ => false
   end).

Inductive Event :=
| SetErrors (e : Errors)
| Alert (msg : string)
| SetItem (key value : string)
| Navigate (path : string).

Definition handleSubmit (action : string) (name email password : text)
  : list Event :=
  let (newErrors, valid) := validateForm action name email password in
  SetErrors newErrors
  :: (if negb valid then []
      else [ Alert (if String.eqb action "Sign Up"
                    then "Signup successful" else "Login successful");
             SetItem "isLoggedIn" "true";
             Navigate "/home" ]).

End LoginSignup.

(* ===================================================================== *)
(** ** Vocabulary of the further statements *)
(* ===================================================================== *)

(** Recent row [a] was created no earlier than recent row [b]. *)
Definition recent_not_older (Date_parse : string -> option Z)
           (a b : HomeRecent.Recent) : Prop :=
  exists da db,
    HomeRecent.date_of Date_parse a = Some da
    /\ HomeRecent.date_of Date_parse b = Some db
    /\ db <= da.

Definition recent_key (Date_parse : string -> option Z) (a : HomeRecent.Recent) : Z :=
  match HomeRecent.date_of Date_parse a with
  | Some d => d
  | None => 0
  end.

(** A ticket that the dashboard counts neither as resolved nor as in
    progress. *)
Definition counted_open (t : Ticket) : bool :=
  negb (HomePage.is_resolved t) && negb (HomePage.is_working t).

(** [kept] is [l] with some items left out, the others in the order
    they have in [l]. *)
Inductive subsequence {A : Type} : list A -> list A -> Prop :=
| subsequence_nil : subsequence [] []
| subsequence_keep (x : A) (kept l : list A) :
    subsequence kept l -> subsequence (x :: kept) (x :: l)
| subsequence_drop (x : A) (kept l : list A) :
    subsequence kept l -> subsequence kept (x :: l).

(** The page state holds a file for every item. *)
Definition all_with_file (s : Evidence.State) : Prop :=
  (forall m, In m (Evidence.images s) -> ComplaintPage.file m <> None)
  /\ (forall m, In m (Evidence.videos s) -> ComplaintPage.file m <> None).

(** An e-mail address of the accepted shape: no white space, and
    [a@b.c] with non-empty [a], [b] and [c]. *)
Definition email_shape (email : LoginSignup.text) : Prop :=
  (forall c, In c email -> RegExp.is_space c = false)
  /\ exists a b c,
       a <> [] /\ b <> [] /\ c <> []
       /\ email = a ++ 64%N :: b ++ 46%N :: c.

(** Result row [row] stands at position [k] and shows the media item
    of that position in [images] followed by [videos], by its id and
    preview; past the last item it shows a numbered id and no preview. *)
Definition paired_with_media (images videos : list ComplaintPage.Media)
           (k : nat) (row : ComplaintPage.UploadedFile) : Prop :=
  let numbered := ("media-" ++ Js.show_int (Z.of_nat k))%string in
  match nth_error (images ++ videos) k with
  | Some m =>
      ComplaintPage.uf_id row
      = (if String.eqb (ComplaintPage.id m) "" then numbered else ComplaintPage.id m)
      /\ ComplaintPage.previewUrl row = ComplaintPage.url m
  | None =>
      ComplaintPage.uf_id row = numbered
      /\ ComplaintPage.previewUrl row = None
  end.

(** The items, images first, that the page holds. *)
Definition evidence_items (s : Evidence.State) : list ComplaintPage.Media :=
  Evidence.images s ++ Evidence.videos s.

(** What the form must hold for a submission to go through. *)
Definition form_valid (action : string) (name email password : LoginSignup.text)
  : Prop :=
  LoginSignup.email_test email = true
  /\ password <> []
  /\ (action = "Sign Up" ->
      LoginSignup.blank name = false
      /\ (3 <= List.length name)%nat
      /\ (6 <= List.length password)%nat).

Module Cases.

(** The code units of a text of the first 256 characters. *)
Definition units (s : string) : LoginSignup.text :=
  map N_of_ascii (list_ascii_of_string s).

Definition picked (n : string) (f : Api.File) : Evidence.Picked :=
  {| Evidence.uuid := n; Evidence.objectURL := ("blob:" ++ n)%string;
     Evidence.picked_file := f |}.

Definition session : list Evidence.Action :=
  [ Evidence.PickImages [picked "a" Sample.photo; picked "b" Sample.photo];
    Evidence.Located (33 # 2)%Q (403 # 5)%Q;
    Evidence.PickVideos [picked "c" Sample.clip_file];
    Evidence.RemoveImage "a" ].

Definition loaded : TicketLogPage.State :=
  {| TicketLogPage.tickets := Sample.rows; TicketLogPage.loading := false;
     TicketLogPage.selectedDistortion := "all";
     TicketLogPage.selectedStatus := "all";
     TicketLogPage.selectedDate := ""; TicketLogPage.showFilters := false;
     TicketLogPage.currentPage := 1 |}.

(** An upload answer that reports no duplicate, and a stand-in engine
    that always receives it. *)
Definition fresh_json : Js.json :=
  Js.JObj [ ("tickets_created",
             Js.JArr [ Js.JObj [ ("ticket_id", Js.JStr "T-7");
                                 ("sub_tickets",
                                  Js.JArr [ Js.JObj [ ("sub_id", Js.JStr "SUB-9");
                                                      ("issue_type", Js.JStr "garbage");
                                                      ("status", Js.JStr "open");
                                                      ("media_count", Js.JNum 1);
                                                      ("rejected_count", Js.JNum 0) ] ]) ] ]);
            ("duplicates_found", Js.JNum 0) ].

(** What [fresh_json] carries. *)
Definition fresh_typed : Wire.UploadResponse :=
  {| Wire.tickets_created :=
       Some [ {| ticket_id := Some "T-7"; t_latitude := None; t_longitude := None;
                 t_status := None; t_created_at := None;
                 sub_tickets :=
                   Some [ {| sub_id := Some "SUB-9"; issue_type := Some "garbage";
                             authority := None; status := Some "open";
                             latitude := None; longitude := None;
                             media_count := Some 1%Q; rejected_count := Some 0%Q;
                             created_at := None; image_id := None |} ] |} ];
     Wire.duplicates_found := Some 0%Q;
     Wire.response_message := None |}.

Definition fresh_env : Api.Env :=
  {| Api.API_BASE_URL := "";
     Api.fetch := fun _ => inr (Sample.response true 200 "fresh");
     Api.JSON_parse := fun _ => inr fresh_json;
     Api.JSON_stringify := fun _ => "{}";
     Api.ToString := fun _ => "[object Object]";
     Api.null_read :=
       fun p => ("Cannot read properties of null (reading '" ++ p ++ "')")%string;
     Api.URLSearchParams_toString := fun _ => "";
     Api.StringToNumber := Sample.StringToNumber;
     Api.not_iterable := fun what => (what ++ " is not iterable")%string;
     Api.not_a_function := fun what => (what ++ " is not a function")%string |}.

(** An environment whose every response parses to [body]. *)
Definition answering (body : Js.json) : Api.Env :=
  {| Api.API_BASE_URL := "";
     Api.fetch := fun _ => inr (Sample.response true 200 "body");
     Api.JSON_parse := fun _ => inr body;
     Api.JSON_stringify := fun _ => "{}";
     Api.ToString := fun _ => "[object Object]";
     Api.null_read :=
       fun p => ("Cannot read properties of null (reading '" ++ p ++ "')")%string;
     Api.URLSearchParams_toString := fun _ => "";
     Api.StringToNumber := Sample.StringToNumber;
     Api.not_iterable := fun what => (what ++ " is not iterable")%string;
     Api.not_a_function := fun what => (what ++ " is not a function")%string |}.

(** A listing response with one ticket, what it carries, and the same
    response with a [null] after the ticket. *)
Definition listed_json : Js.json :=
  Js.JObj [ ("ticket_id", Js.JStr "T-7");
            ("sub_tickets",
             Js.JArr [ Js.JObj [ ("sub_id", Js.JStr "SUB-9");
                                 ("issue_type", Js.JStr "garbage");
                                 ("status", Js.JStr "open") ] ]) ].

Definition listed_typed : Ticket :=
  {| ticket_id := Some "T-7"; t_latitude := None; t_longitude := None;
     t_status := None; t_created_at := None;
     sub_tickets :=
       Some [ {| sub_id := Some "SUB-9"; issue_type := Some "garbage";
                 authority := None; status := Some "open";
                 latitude := None; longitude := None;
                 media_count := None; rejected_count := None;
                 created_at := None; image_id := None |} ] |}.

Definition listing_json : Js.json :=
  Js.JObj [ ("tickets", Js.JArr [listed_json]) ].

Definition listing_with_null : Js.json :=
  Js.JObj [ ("tickets", Js.JArr [listed_json; Js.JNull]) ].

(** A listing whose last ticket has a sub-ticket without a date. *)
Definition undated : SubTicket :=
  Sample.sub "SUB-4" "garbage" "open" None None None.

Definition ticket3 : Ticket :=
  {| ticket_id := Some "T-3"; t_latitude := None; t_longitude := None;
     t_status := None; t_created_at := Some "2026-01-04T12:00:00";
     sub_tickets := Some [undated] |}.

Definition listing_with_undated : list Ticket := Sample.listing ++ [ticket3].

End Cases.

(* ===================================================================== *)
(** * Properties *)
(* ===================================================================== *)

Lemma eqb_str_true (a b : string) : String.eqb a b = true <-> a = b.
Proof. apply String.eqb_eq. Qed.

Lemma strict_eq_str_true (v : option string) (s : string) :
  Js.strict_eq_str v s = true <-> v = Some s.
Proof.
  destruct v as [x|]; simpl.
  - rewrite String.eqb_eq. split; congruence.
  - split; discriminate.
Qed.

Lemma truthy_num_zero (v : option Q) (q : Q) :
  v = Some q -> q == 0 -> Js.truthy_num v = false.
Proof.
  intros -> Hq. simpl. apply Qeq_eq_bool in Hq. now rewrite Hq.
Qed.

(** [a || b] is truthy exactly when one of the two is. *)
Lemma truthy_or_num (a b : option Q) :
  Js.truthy_num (Js.or_num a b) = Js.truthy_num a || Js.truthy_num b.
Proof.
  unfold Js.or_num. destruct (Js.truthy_num a) eqn:Ha; simpl; auto.
Qed.

Lemma StronglySorted_weaken {A} (R R' : A -> A -> Prop) (l : list A) :
  (forall a b, In a l -> In b l -> R a b -> R' a b) ->
  StronglySorted R l -> StronglySorted R' l.
Proof.
  intros H Hs. induction Hs as [|a l Hs IH Ha]; constructor.
  - apply IH. intros x y Hx Hy. apply H; now right.
  - rewrite Forall_forall in *. intros b Hb.
    apply H; [ now left | now right | now apply Ha ].
Qed.

(** ** The sort *)

Section SortFacts.
Context {A : Type} (cmp : A -> A -> option Z).

Lemma insert_perm (x : A) (l : list A) :
  Permutation (Js.insert cmp x l) (x :: l).
Proof.
  induction l as [|y l IH]; simpl.
  - reflexivity.
  - destruct (Js.before cmp x y).
    + reflexivity.
    + rewrite IH. apply perm_swap.
Qed.

Lemma sort_perm (l : list A) : Permutation (Js.sort cmp l) l.
Proof.
  induction l as [|x l IH]; simpl.
  - constructor.
  - rewrite insert_perm. now constructor.
Qed.

Lemma sort_In (l : list A) (x : A) : In x (Js.sort cmp l) <-> In x l.
Proof.
  split; apply Permutation_in; [ | symmetry ]; apply sort_perm.
Qed.

(** When the comparator is the difference of a numeric key, largest
    key first, on the elements at hand, the result is in that order. *)
Variable key : A -> Z.

Lemma insert_sorted (x : A) (l : list A) :
  keyed cmp key (x :: l) ->
  StronglySorted (descending key) l ->
  StronglySorted (descending key) (Js.insert cmp x l).
Proof.
  intros Hk Hs. induction Hs as [|y l Hs IH Hy]; simpl.
  - repeat constructor.
  - unfold Js.before. rewrite (Hk x y) by (simpl; auto).
    destruct (key y - key x <=? 0) eqn:E.
    + apply Z.leb_le in E.
      constructor; [ now constructor | ].
      constructor; [ unfold descending; lia | ].
      eapply Forall_impl; [ | exact Hy ].
      unfold descending; intros; lia.
    + apply Z.leb_gt in E.
      constructor.
      * apply IH. intros a b Ha Hb. apply Hk; simpl in *; tauto.
      * apply Forall_forall. intros z Hz.
        apply (Permutation_in _ (insert_perm x l)) in Hz.
        destruct Hz as [<-|Hz].
        -- unfold descending; lia.
        -- rewrite Forall_forall in Hy. now apply Hy.
Qed.

Lemma sort_sorted (l : list A) :
  keyed cmp key l -> StronglySorted (descending key) (Js.sort cmp l).
Proof.
  induction l as [|x l IH]; intros Hk; simpl.
  - constructor.
  - apply insert_sorted.
    + intros a b Ha Hb. apply Hk.
      * destruct Ha as [<-|Ha]; [now left | right; now apply sort_In].
      * destruct Hb as [<-|Hb]; [now left | right; now apply sort_In].
    + apply IH. intros a b Ha Hb. apply Hk; now right.
Qed.

End SortFacts.

(** ** The page window *)

Lemma slice_window {A} (l : list A) (start : Z) (n : nat) (i : nat) :
  0 <= start ->
  nth_error (Js.slice l start (start + Z.of_nat n)) i
  = if (i <? n)%nat then nth_error l (Z.to_nat start + i) else None.
Proof.
  intros Hs. unfold Js.slice.
  assert (E1 : (start <? 0) = false) by (apply Z.ltb_ge; lia).
  assert (E2 : (start + Z.of_nat n <? 0) = false) by (apply Z.ltb_ge; lia).
  rewrite E1, E2, nth_error_firstn, nth_error_skipn.
  set (len := Z.of_nat (List.length l)).
  set (k := Z.min start len).
  set (final := Z.min (start + Z.of_nat n) len).
  destruct (i <? Z.to_nat (final - k))%nat eqn:Ej.
  - apply Nat.ltb_lt in Ej.
    assert (Ei : (i <? n)%nat = true) by (apply Nat.ltb_lt; lia).
    rewrite Ei. f_equal. lia.
  - apply Nat.ltb_ge in Ej.
    destruct (i <? n)%nat eqn:Ei; [ | reflexivity ].
    apply Nat.ltb_lt in Ei.
    symmetry. apply nth_error_None. unfold len in *. lia.
Qed.

Lemma slice_length {A} (l : list A) (start : Z) (n : nat) :
  0 <= start ->
  (List.length (Js.slice l start (start + Z.of_nat n)) <= n)%nat.
Proof.
  intros Hs. unfold Js.slice.
  assert (E1 : (start <? 0) = false) by (apply Z.ltb_ge; lia).
  assert (E2 : (start + Z.of_nat n <? 0) = false) by (apply Z.ltb_ge; lia).
  rewrite E1, E2.
  etransitivity; [ apply firstn_le_length | lia ].
Qed.

(** ** TicketLog: filter, order, page *)

Section TicketLogFacts.
Variable Date_parse : string -> option Z.
Variables selectedDistortion selectedStatus selectedDate : string.

#[local] Abbreviation keep := (TicketLog.keep selectedDistortion selectedStatus selectedDate).
#[local] Abbreviation filteredTickets :=
  (TicketLog.filteredTickets Date_parse selectedDistortion selectedStatus selectedDate).
#[local] Abbreviation paginatedTickets :=
  (TicketLog.paginatedTickets Date_parse selectedDistortion selectedStatus selectedDate).

#[local] Abbreviation chosen :=
  (selected selectedDistortion selectedStatus selectedDate).

Lemma prefix_nonempty (p c : string) :
  p <> "" -> String.prefix p c = true -> c <> "".
Proof.
  intros Hp H ->. destruct p; [congruence | discriminate].
Qed.

Lemma keep_selected (t : TicketLog.Row) : keep t = true <-> chosen t.
Proof.
  unfold TicketLog.keep, TicketLog.distortionMatch, TicketLog.statusMatch,
    TicketLog.dateMatch, selected.
  rewrite !andb_true_iff, !orb_true_iff, !String.eqb_eq, !strict_eq_str_true.
  split.
  - intros [[Hd Hs] Hc]. repeat split; auto.
    destruct Hc as [Hc|Hc]; [now left | right].
    apply andb_true_iff in Hc. destruct Hc as [_ Hc].
    destruct (created_at (TicketLog.row_sub t)) as [c|]; [ | discriminate ].
    now exists c.
  - intros (Hd & Hs & Hc). repeat split; auto.
    destruct Hc as [Hc|(c & Hc & Hp)]; [now left | ].
    destruct (string_dec selectedDate "") as [E|E]; [now left | right].
    rewrite Hc. apply andb_true_iff. split; [ | exact Hp ].
    simpl. apply negb_true_iff, String.eqb_neq.
    eapply prefix_nonempty; eauto.
Qed.

Lemma filtered_perm (tickets : list TicketLog.Row) :
  Permutation (filteredTickets tickets) (filter keep tickets).
Proof. apply sort_perm. Qed.

Lemma filtered_In (tickets : list TicketLog.Row) (t : TicketLog.Row) :
  In t (filteredTickets tickets) <-> In t tickets /\ chosen t.
Proof.
  unfold TicketLog.filteredTickets.
  rewrite sort_In, filter_In, keep_selected. reflexivity.
Qed.

Lemma filtered_sorted (tickets : list TicketLog.Row) :
  (forall t, In t tickets -> TicketLog.date_of Date_parse t <> None) ->
  StronglySorted (not_older Date_parse) (filteredTickets tickets).
Proof.
  intros Hv.
  assert (Hk : keyed (TicketLog.newest_first Date_parse) (date_key Date_parse)
                     (filter keep tickets)).
  { intros x y Hx Hy. apply filter_In in Hx, Hy.
    unfold TicketLog.newest_first, date_key.
    destruct (TicketLog.date_of Date_parse x) eqn:Ex;
      [ | now apply Hv in Ex ].
    destruct (TicketLog.date_of Date_parse y) eqn:Ey;
      [ reflexivity | now apply Hv in Ey ]. }
  eapply StronglySorted_weaken; [ | exact (sort_sorted Hk) ].
  intros a b Ha Hb Hab.
  apply filtered_In in Ha, Hb.
  unfold descending, date_key in Hab. unfold not_older.
  destruct (TicketLog.date_of Date_parse a) as [da|] eqn:Ea;
    [ | exfalso; apply (Hv a); tauto ].
  destruct (TicketLog.date_of Date_parse b) as [db|] eqn:Eb;
    [ | exfalso; apply (Hv b); tauto ].
  now exists da, db.
Qed.

(** C2.  Whatever was fetched and whatever is selected, the ticket log
    shows exactly the rows that the status, issue-type and date
    selections ask for (with a status selected, only rows of that
    status), newest first by [created_at], and page [p] holds the rows
    at positions [(p-1)*10] to [p*10-1] of that sequence, at most ten.
    The timestamps are those of well-formed dates and pages count
    from one. *)
Theorem ticket_log_shows_selected_page
        (tickets : list TicketLog.Row) (currentPage : Z) :
  (forall t, In t tickets -> TicketLog.date_of Date_parse t <> None) ->
  1 <= currentPage ->
  let shown := filteredTickets tickets in
  let page := paginatedTickets tickets currentPage in
  Permutation shown (filter keep tickets)
  /\ (forall t, keep t = true <-> chosen t)
  /\ (forall t, In t shown <-> In t tickets /\ chosen t)
  /\ (selectedStatus <> "all" ->
      forall t, In t shown -> status (TicketLog.row_sub t) = Some selectedStatus)
  /\ StronglySorted (not_older Date_parse) shown
  /\ (List.length page <= 10)%nat
  /\ (forall i, nth_error page i
                = if (i <? 10)%nat
                  then nth_error shown (Z.to_nat ((currentPage - 1) * 10) + i)
                  else None).
Proof.
  intros Hv Hp shown page.
  split; [ apply filtered_perm | ].
  split; [ apply keep_selected | ].
  split; [ apply filtered_In | ].
  split.
  { intros Hs t Ht. apply filtered_In in Ht.
    destruct Ht as (_ & _ & [E|E] & _); [ contradiction | exact E ]. }
  split; [ now apply filtered_sorted | ].
  unfold page, TicketLog.paginatedTickets, TicketLog.endIndex,
    TicketLog.startIndex, TicketLog.ITEMS_PER_PAGE.
  change 10 with (Z.of_nat 10).
  split.
  - apply slice_length. lia.
  - intros i. apply slice_window. lia.
Qed.

End TicketLogFacts.

Lemma ticket_log_shows_selected_page_witness :
  (forall t, In t Sample.rows ->
             TicketLog.date_of Sample.Date_parse t <> None)
  /\ 1 <= 1
  /\ TicketLog.paginatedTickets Sample.Date_parse "all" "resolved" ""
                                Sample.rows 1
     = [ TicketLog.row_of Sample.ticket1 Sample.garbage;
         TicketLog.row_of Sample.ticket1 Sample.pothole ]
  /\ forall t,
       In t (TicketLog.filteredTickets Sample.Date_parse "all" "resolved" ""
                                       Sample.rows)
       -> status (TicketLog.row_sub t) = Some "resolved".
Proof.
  assert (Hv : forall t, In t Sample.rows ->
                         TicketLog.date_of Sample.Date_parse t <> None).
  { intros t Ht. unfold TicketLog.date_of, Sample.Date_parse.
    destruct (created_at (TicketLog.row_sub t)) as [c|]; [ | discriminate ].
    destruct (Js.truthy_str (Some c)); discriminate. }
  assert (Hp : 1 <= 1) by lia.
  split; [ exact Hv | ]. split; [ exact Hp | ].
  split; [ reflexivity | ].
  pose proof (ticket_log_shows_selected_page
                Sample.Date_parse "all" "resolved" "" Sample.rows Hv Hp) as H.
  simpl in H. destruct H as (_ & _ & _ & Hs & _).
  apply Hs. discriminate.
Defined.

(** ** HomePage: the statistics *)

Lemma filter_none {A} (f : A -> bool) (l : list A) :
  (forall x, In x l -> f x = false) -> filter f l = [].
Proof.
  induction l as [|x l IH]; intros H; simpl.
  - reflexivity.
  - rewrite (H x) by now left. apply IH. intros y Hy. apply H. now right.
Qed.

(** C8.  When the tickets of a listing carry no status of their own,
    the dashboard counts none as resolved, none as in progress and
    all of them as open, whatever their sub-tickets' statuses are. *)
Theorem home_stats_ignore_sub_tickets (ticketsData : list Ticket) :
  (forall t, In t ticketsData -> t_status t = None) ->
  HomePage.fetchTickets (Some ticketsData)
  = {| HomePage.total := Z.of_nat (List.length ticketsData);
       HomePage.resolved := 0;
       HomePage.working := 0;
       HomePage.open := Z.of_nat (List.length ticketsData) |}.
Proof.
  intros H. unfold HomePage.fetchTickets. simpl.
  rewrite !filter_none.
  - simpl. f_equal. lia.
  - intros t Ht. unfold HomePage.is_working. now rewrite (H t Ht).
  - intros t Ht. unfold HomePage.is_resolved. now rewrite (H t Ht).
Qed.

Lemma home_stats_ignore_sub_tickets_witness :
  (forall t, In t Sample.listing -> t_status t = None)
  /\ HomePage.fetchTickets (Some Sample.listing)
     = {| HomePage.total := 2; HomePage.resolved := 0;
          HomePage.working := 0; HomePage.open := 2 |}.
Proof.
  assert (H : forall t, In t Sample.listing -> t_status t = None).
  { intros t [<-|[<-|[]]]; reflexivity. }
  split; [ exact H | ].
  exact (home_stats_ignore_sub_tickets Sample.listing H).
Defined.

(** ** MapView and TicketLog: locations *)

Lemma in_flat_pairs (tickets : list Ticket) (ticket : Ticket) (subTicket : SubTicket) :
  In (ticket, subTicket) (flat_pairs tickets)
  <-> In ticket tickets /\ In subTicket (Js.or_empty (sub_tickets ticket)).
Proof.
  unfold flat_pairs. rewrite in_flat_map. split.
  - intros (t & Ht & Hp). apply in_map_iff in Hp.
    destruct Hp as (st & E & Hst). inversion E; subst. auto.
  - intros [Ht Hst]. exists ticket. split; [ exact Ht | ].
    apply in_map_iff. now exists subTicket.
Qed.

Lemma render_located (ticket : Ticket) (subTicket : SubTicket) :
  has_location ticket subTicket ->
  exists m, MapView.render_marker (MapView.locate ticket subTicket) = Some m
            /\ MapView.popup m = MapView.locate ticket subTicket.
Proof.
  intros [Hlat Hlng]. unfold MapView.render_marker. simpl.
  rewrite Hlat, Hlng. simpl.
  destruct (MapView.lat_of ticket subTicket) as [a|]; [ | discriminate ].
  destruct (MapView.lng_of ticket subTicket) as [b|]; [ | discriminate ].
  eexists. split; reflexivity.
Qed.

Lemma rendered_popup (l : MapView.Located) (m : MapView.Marker) :
  MapView.render_marker l = Some m ->
  MapView.popup m = l
  /\ Js.truthy_num (MapView.loc_latitude l) = true
  /\ Js.truthy_num (MapView.loc_longitude l) = true.
Proof.
  unfold MapView.render_marker.
  destruct (Js.truthy_num (MapView.loc_latitude l)) eqn:Hlat;
    destruct (Js.truthy_num (MapView.loc_longitude l)) eqn:Hlng;
    simpl; try discriminate.
  destruct (MapView.loc_latitude l), (MapView.loc_longitude l); try discriminate.
  intros E. inversion E; subst. auto.
Qed.

Lemma marker_iff_location (tickets : list Ticket) (ticket : Ticket)
      (subTicket : SubTicket) :
  In (ticket, subTicket) (flat_pairs tickets) ->
  has_marker tickets ticket subTicket <-> has_location ticket subTicket.
Proof.
  intros Hin. apply in_flat_pairs in Hin. destruct Hin as [Ht Hst].
  unfold has_marker, MapView.markers. split.
  - intros (m & Hm & Hp). apply in_flat_map in Hm.
    destruct Hm as (l & _ & Hm).
    destruct (MapView.render_marker l) as [m'|] eqn:E; [ | contradiction ].
    destruct Hm as [<-|[]]. apply rendered_popup in E.
    destruct E as (E & Hlat & Hlng). rewrite Hp in E. subst l.
    split; assumption.
  - intros Hloc. destruct (render_located Hloc) as (m & Hm & Hp).
    exists m. split; [ | exact Hp ].
    apply in_flat_map. exists (MapView.locate ticket subTicket). split.
    + unfold MapView.fetchTickets. simpl.
      apply in_flat_map. exists ticket. split; [ exact Ht | ].
      apply in_flat_map. exists subTicket. split; [ exact Hst | ].
      destruct Hloc as [Hlat Hlng]. rewrite Hlat, Hlng. now left.
    + rewrite Hm. now left.
Qed.

Lemma cell_iff_location (ticket : Ticket) (subTicket : SubTicket) :
  (exists a b, TicketLog.location_cell (TicketLog.row_of ticket subTicket)
               = TicketLog.LocationLink a b)
  <-> has_location ticket subTicket.
Proof.
  unfold TicketLog.location_cell, has_location, MapView.lat_of, MapView.lng_of.
  simpl.
  destruct (Js.or_num (latitude subTicket) (t_latitude ticket)) as [a|];
    destruct (Js.or_num (longitude subTicket) (t_longitude ticket)) as [b|];
    simpl.
  - destruct (negb (Qeq_bool a 0)), (negb (Qeq_bool b 0)); simpl;
      split; try (intros [? ?]; discriminate); try (intros (? & ? & ?); discriminate).
    + intros _. auto.
    + intros _. now exists a, b.
  - split; [ intros (? & ? & ?) | intros [? ?] ]; discriminate.
  - split; [ intros (? & ? & ?) | intros [? ?] ]; discriminate.
  - split; [ intros (? & ? & ?) | intros [? ?] ]; discriminate.
Qed.

Lemma cell_without_location (ticket : Ticket) (subTicket : SubTicket) :
  ~ has_location ticket subTicket ->
  TicketLog.location_cell (TicketLog.row_of ticket subTicket)
  = TicketLog.LocationNotAvailable.
Proof.
  intros H.
  destruct (TicketLog.location_cell (TicketLog.row_of ticket subTicket))
    as [a b|] eqn:E; [ | reflexivity ].
  exfalso. apply H. apply cell_iff_location. now exists a, b.
Qed.

(** C10.  On the map and in the ticket log a sub-ticket has a location
    exactly when its latitude and its longitude, each falling back to
    the ticket's, are both truthy.  So a coordinate that comes out as
    0 means no location: no marker on the map, and the log's cell
    reads [Location not available]. *)
Theorem location_needs_truthy_coordinates
        (tickets : list Ticket) (ticket : Ticket) (subTicket : SubTicket) :
  In (ticket, subTicket) (flat_pairs tickets) ->
  let lat := Js.or_num (latitude subTicket) (t_latitude ticket) in
  let lng := Js.or_num (longitude subTicket) (t_longitude ticket) in
  In (TicketLog.row_of ticket subTicket) (TicketLog.fetchTickets (Some tickets))
  /\ (has_marker tickets ticket subTicket
      <-> Js.truthy_num lat = true /\ Js.truthy_num lng = true)
  /\ ((exists a b, TicketLog.location_cell (TicketLog.row_of ticket subTicket)
                   = TicketLog.LocationLink a b)
      <-> Js.truthy_num lat = true /\ Js.truthy_num lng = true)
  /\ (forall q, lat = Some q \/ lng = Some q -> q == 0 ->
                ~ has_marker tickets ticket subTicket
                /\ TicketLog.location_cell (TicketLog.row_of ticket subTicket)
                   = TicketLog.LocationNotAvailable).
Proof.
  intros Hin lat lng.
  split.
  { apply in_flat_pairs in Hin. destruct Hin as [Ht Hst].
    unfold TicketLog.fetchTickets. simpl.
    apply in_flat_map. exists ticket. split; [ exact Ht | ].
    apply in_map_iff. now exists subTicket. }
  split; [ now apply marker_iff_location | ].
  split; [ apply cell_iff_location | ].
  intros q Hq Hz.
  assert (Hno : ~ has_location ticket subTicket).
  { intros [Hlat Hlng].
    destruct Hq as [Hq|Hq].
    - fold lat in Hq. pose proof (truthy_num_zero Hq Hz) as E.
      unfold MapView.lat_of in Hlat. fold lat in Hlat. congruence.
    - fold lng in Hq. pose proof (truthy_num_zero Hq Hz) as E.
      unfold MapView.lng_of in Hlng. fold lng in Hlng. congruence. }
  split.
  - intros Hm. apply Hno. eapply marker_iff_location; eassumption.
  - now apply cell_without_location.
Qed.

Lemma location_needs_truthy_coordinates_witness :
  In (Sample.ticket2, Sample.debris) (flat_pairs Sample.listing)
  /\ ~ has_marker Sample.listing Sample.ticket2 Sample.debris
  /\ TicketLog.location_cell (TicketLog.row_of Sample.ticket2 Sample.debris)
     = TicketLog.LocationNotAvailable.
Proof.
  assert (Hin : In (Sample.ticket2, Sample.debris) (flat_pairs Sample.listing)).
  { simpl. right. right. left. reflexivity. }
  split; [ exact Hin | ].
  destruct (location_needs_truthy_coordinates Sample.listing _ _ Hin)
    as (_ & _ & _ & H).
  apply (H 0%Q).
  - left. reflexivity.
  - reflexivity.
Defined.

(** ** ComplaintPage: the rows of the upload results *)

Section RowFacts.
Variables images videos : list ComplaintPage.Media.

Lemma push_sub_tickets_rows (ticket : Ticket) (subs : list SubTicket) :
  forall uploadedFiles,
  exists pushed,
    fold_left (fun uploadedFiles subTicket =>
                 uploadedFiles
                 ++ [ComplaintPage.row_of images videos ticket subTicket uploadedFiles])
              subs uploadedFiles
    = uploadedFiles ++ pushed
    /\ map shown_ids pushed
       = map (fun st => (ticket_id ticket, sub_id st, issue_type st)) subs
    /\ Forall typed_by_issue pushed.
Proof.
  induction subs as [|st subs IH]; intros acc; simpl.
  - exists []. now rewrite app_nil_r.
  - destruct (IH (acc ++ [ComplaintPage.row_of images videos ticket st acc]))
      as (pushed & E & Hids & Hty).
    exists (ComplaintPage.row_of images videos ticket st acc :: pushed).
    rewrite E, <- app_assoc. simpl. repeat split.
    + now rewrite Hids.
    + constructor; [ reflexivity | exact Hty ].
Qed.

Lemma push_tickets_rows (tickets : list Ticket) :
  forall uploadedFiles,
  exists pushed,
    fold_left (fun uploadedFiles ticket =>
                 ComplaintPage.push_sub_tickets images videos ticket uploadedFiles)
              tickets uploadedFiles
    = uploadedFiles ++ pushed
    /\ map shown_ids pushed
       = map (fun p => (ticket_id (fst p), sub_id (snd p), issue_type (snd p)))
             (flat_pairs tickets)
    /\ Forall typed_by_issue pushed.
Proof.
  induction tickets as [|t tickets IH]; intros acc; simpl.
  - exists []. now rewrite app_nil_r.
  - unfold ComplaintPage.push_sub_tickets at 2.
    destruct (push_sub_tickets_rows t (Js.or_empty (sub_tickets t)) acc)
      as (p1 & E1 & H1 & T1).
    rewrite E1.
    destruct (IH (acc ++ p1)) as (p2 & E2 & H2 & T2).
    exists (p1 ++ p2). rewrite E2, <- app_assoc. repeat split.
    + rewrite !map_app, H1, H2, map_map. reflexivity.
    + apply Forall_app. now split.
Qed.

Lemma rows_of_response (response : Wire.UploadResponse) :
  map shown_ids (ComplaintPage.rows images videos response)
  = map (fun p => (ticket_id (fst p), sub_id (snd p), issue_type (snd p)))
        (flat_pairs (Js.or_empty (Wire.tickets_created response)))
  /\ Forall typed_by_issue (ComplaintPage.rows images videos response).
Proof.
  unfold ComplaintPage.rows.
  destruct (Wire.tickets_created response) as [tickets|]; simpl;
    [ | split; constructor ].
  destruct tickets as [|t tickets]; [ split; constructor | ].
  change (0 <? List.length (t :: tickets))%nat with true. cbv iota.
  destruct (push_tickets_rows (t :: tickets) []) as (pushed & E & H & T).
  rewrite E. simpl. now split.
Qed.

(** What a row copies from its sub-ticket and ticket, it copies for
    every sub-ticket of the response, in order. *)
Lemma push_sub_tickets_project {X} (g : ComplaintPage.UploadedFile -> X)
      (h : Ticket -> SubTicket -> X) (ticket : Ticket) (subs : list SubTicket) :
  (forall t st acc, g (ComplaintPage.row_of images videos t st acc) = h t st) ->
  forall uploadedFiles,
    map g (fold_left (fun uploadedFiles subTicket =>
                        uploadedFiles
                        ++ [ComplaintPage.row_of images videos ticket subTicket
                              uploadedFiles])
                     subs uploadedFiles)
    = map g uploadedFiles ++ map (h ticket) subs.
Proof.
  intros Hg. induction subs as [|st subs IH]; intros acc; simpl.
  - now rewrite app_nil_r.
  - rewrite IH, map_app, <- app_assoc. simpl. now rewrite Hg.
Qed.

Lemma rows_project {X} (g : ComplaintPage.UploadedFile -> X)
      (h : Ticket -> SubTicket -> X) (response : Wire.UploadResponse) :
  (forall t st acc, g (ComplaintPage.row_of images videos t st acc) = h t st) ->
  map g (ComplaintPage.rows images videos response)
  = map (fun p => h (fst p) (snd p))
        (flat_pairs (Js.or_empty (Wire.tickets_created response))).
Proof.
  intros Hg.
  assert (H : forall tickets acc,
             map g (fold_left (fun uploadedFiles ticket =>
                                 ComplaintPage.push_sub_tickets images videos
                                   ticket uploadedFiles)
                              tickets acc)
             = map g acc ++ map (fun p => h (fst p) (snd p)) (flat_pairs tickets)).
  { induction tickets as [|t tickets IH]; intros acc; simpl.
    - now rewrite app_nil_r.
    - rewrite IH. unfold ComplaintPage.push_sub_tickets.
      rewrite (push_sub_tickets_project g h t _ Hg).
      now rewrite map_app, map_map, <- app_assoc. }
  unfold ComplaintPage.rows.
  destruct (Wire.tickets_created response) as [[|t tickets]|]; try reflexivity.
  change (0 <? List.length (t :: tickets))%nat with true. cbv iota.
  now rewrite H.
Qed.

(** C9.  The rows of the upload results are the sub-tickets of the
    response in order, and a row is typed [video] exactly when the
    sub-ticket's issue type is the string [video]; for the defect
    types pathholes, garbage and streetdebris the row is an image,
    whichever media items, videos included, were uploaded. *)
Theorem result_row_is_video_iff_issue_type_video (response : Wire.UploadResponse) :
  let rows := ComplaintPage.rows images videos response in
  map shown_ids rows
  = map (fun p => (ticket_id (fst p), sub_id (snd p), issue_type (snd p)))
        (flat_pairs (Js.or_empty (Wire.tickets_created response)))
  /\ (forall row, In row rows ->
        (ComplaintPage.uf_type row = "video"
         <-> ComplaintPage.uf_issue_type row = Some "video")
        /\ (ComplaintPage.uf_type row = "video"
            \/ ComplaintPage.uf_type row = "image")
        /\ (In (ComplaintPage.uf_issue_type row)
               [Some "pathholes"; Some "garbage"; Some "streetdebris"]
            -> ComplaintPage.uf_type row = "image")).
Proof.
  intros rows. destruct (rows_of_response response) as [Hids Hty].
  split; [ exact Hids | ].
  intros row Hrow. rewrite Forall_forall in Hty. specialize (Hty row Hrow).
  unfold typed_by_issue in Hty. rewrite Hty.
  destruct (Js.strict_eq_str (ComplaintPage.uf_issue_type row) "video") eqn:E.
  - apply strict_eq_str_true in E. rewrite E. repeat split; auto.
    intros [H|[H|[H|[]]]]; discriminate.
  - repeat split; auto; try discriminate.
    intros H. apply strict_eq_str_true in H. congruence.
Qed.

End RowFacts.

Lemma result_row_is_video_iff_issue_type_video_witness :
  let row := ComplaintPage.row_of [] [Sample.clip] Sample.ticket1 Sample.pothole [] in
  In row (ComplaintPage.rows [] [Sample.clip] Sample.upload_response)
  /\ ComplaintPage.previewUrl row = ComplaintPage.url Sample.clip
  /\ ComplaintPage.uf_issue_type row = Some "pathholes"
  /\ ComplaintPage.uf_type row = "image".
Proof.
  intros row.
  assert (Hin : In row (ComplaintPage.rows [] [Sample.clip] Sample.upload_response)).
  { left. reflexivity. }
  split; [ exact Hin | ]. split; [ reflexivity | ]. split; [ reflexivity | ].
  destruct (result_row_is_video_iff_issue_type_video
              [] [Sample.clip] Sample.upload_response) as [_ H].
  destruct (H row Hin) as (_ & _ & Himg).
  apply Himg. left. reflexivity.
Defined.

(** ** ComplaintPage: the submission *)

Section SubmitFacts.
Variable env : Api.Env.

#[local] Abbreviation collect_files := (ComplaintPage.collect_files env).
#[local] Abbreviation handleAnalyze := (ComplaintPage.handleAnalyze env).

Lemma fetch_blob_local (u : string) :
  Forall local_fetch (Js.trace (ComplaintPage.fetch_blob env u)).
Proof.
  unfold ComplaintPage.fetch_blob, Api.do_fetch, Js.lift, Js.bind, Js.ret.
  destruct (Api.fetch env _); simpl; repeat constructor; now exists u.
Qed.

Lemma bind_trace_local {A B} (c : Js.M ComplaintPage.Event A)
      (k : A -> Js.M ComplaintPage.Event B) :
  Forall local_fetch (Js.trace c) ->
  (forall a, Forall local_fetch (Js.trace (k a))) ->
  Forall local_fetch (Js.trace (Js.bind c k)).
Proof.
  destruct c as [tr [e|a]]; simpl; intros Hc Hk; [ exact Hc | ].
  specialize (Hk a). destruct (k a) as [tr' r]. simpl in *.
  apply Forall_app. now split.
Qed.

Lemma image_files_local (img : ComplaintPage.Media) :
  Forall local_fetch (Js.trace (ComplaintPage.image_files env img)).
Proof.
  unfold ComplaintPage.image_files.
  destruct (ComplaintPage.file img); [ constructor | ].
  destruct (ComplaintPage.url img) as [u|]; [ | constructor ].
  destruct (Js.truthy_str (Some u) && String.prefix "blob:" u);
    [ apply bind_trace_local; [ apply fetch_blob_local | constructor ] | ].
  destruct (Js.truthy_str (Some u) && String.prefix "data:" u);
    [ apply bind_trace_local; [ apply fetch_blob_local | constructor ] | ].
  constructor.
Qed.

Lemma video_files_local (vid : ComplaintPage.Media) :
  Forall local_fetch (Js.trace (ComplaintPage.video_files env vid)).
Proof.
  unfold ComplaintPage.video_files.
  destruct (ComplaintPage.file vid); [ constructor | ].
  destruct (ComplaintPage.url vid) as [u|]; [ | constructor ].
  destruct (Js.truthy_str (Some u) && String.prefix "blob:" u);
    [ apply bind_trace_local; [ apply fetch_blob_local | constructor ] | ].
  constructor.
Qed.

Lemma collect_local (step : ComplaintPage.Media -> Js.M ComplaintPage.Event (list Api.File))
      (items : list ComplaintPage.Media) :
  (forall m, Forall local_fetch (Js.trace (step m))) ->
  forall acc, Forall local_fetch (Js.trace (ComplaintPage.collect step items acc)).
Proof.
  intros Hstep. induction items as [|m items IH]; intros acc; simpl.
  - constructor.
  - apply bind_trace_local; [ apply Hstep | intros a; apply IH ].
Qed.

Lemma collect_files_local (images videos : list ComplaintPage.Media) :
  Forall local_fetch (Js.trace (collect_files images videos)).
Proof.
  unfold ComplaintPage.collect_files.
  apply bind_trace_local.
  - apply collect_local, image_files_local.
  - intros a. apply collect_local, video_files_local.
Qed.

Lemma collect_files_nil : collect_files [] [] = ([], inr []).
Proof. reflexivity. Qed.

(** The handler when no file comes out of the conversion loops. *)
Lemma handleAnalyze_no_files (images videos : list ComplaintPage.Media)
      (tr : list ComplaintPage.Event) :
  collect_files images videos = (tr, inr []) ->
  handleAnalyze images videos
  = if (List.length images =? 0)%nat && (List.length videos =? 0)%nat
    then ([ComplaintPage.Alert "Please add at least one image or video."], inr tt)
    else ([ComplaintPage.SetUploading true; ComplaintPage.SetUploadError None]
            ++ tr
            ++ [ComplaintPage.ConsoleError "Upload error:"
                  (Js.Error "No valid files to upload");
                ComplaintPage.SetUploadError (Some "No valid files to upload");
                ComplaintPage.Alert "Upload failed: No valid files to upload";
                ComplaintPage.SetUploading false],
          inr tt).
Proof.
  intros E. unfold ComplaintPage.handleAnalyze.
  destruct ((List.length images =? 0)%nat && (List.length videos =? 0)%nat);
    [ reflexivity | ].
  unfold ComplaintPage.upload_and_show. rewrite E. simpl.
  rewrite app_nil_r, <- app_assoc. reflexivity.
Qed.

(** C5, as the code has it.  A submission with no media file to send
    raises no error in the page: the handler ends normally, sends
    nothing to the batch endpoint and does not open the results page.
    With no item at all its only effect is the alert that asks for an
    image or a video.  With items none of which yields a file it sets
    the uploading flag, clears the error banner, runs the local
    fetches of the conversion loops, and then logs [No valid files to
    upload], puts it in the banner, alerts it and clears the flag.
    [InvalidInput] is the answer of the gateway, which the page never
    asks: it refuses an empty batch whatever the store holds. *)
Theorem empty_batch_is_refused_without_upload
        (images videos : list ComplaintPage.Media) :
  Js.outcome (collect_files images videos) = inr [] ->
  let c := handleAnalyze images videos in
  Js.outcome c = inr tt
  /\ (forall files,
        ~ In (ComplaintPage.Service (Api.Fetch (Api.upload_request env files)))
             (Js.trace c))
  /\ (forall request,
        In (ComplaintPage.Service (Api.Fetch request)) (Js.trace c) ->
        Api.req_method request = None /\ Api.req_body request = None)
  /\ (forall path state, ~ In (ComplaintPage.Navigate path state) (Js.trace c))
  /\ (images = [] -> videos = [] ->
      c = ([ComplaintPage.Alert "Please add at least one image or video."], inr tt))
  /\ (images <> [] \/ videos <> [] ->
      c = ([ComplaintPage.SetUploading true; ComplaintPage.SetUploadError None]
             ++ Js.trace (collect_files images videos)
             ++ [ComplaintPage.ConsoleError "Upload error:"
                   (Js.Error "No valid files to upload");
                 ComplaintPage.SetUploadError (Some "No valid files to upload");
                 ComplaintPage.Alert "Upload failed: No valid files to upload";
                 ComplaintPage.SetUploading false],
           inr tt))
  /\ (forall fingerprint kind_of detect authority_mapping same_bucket max_batch
             message_for (s : Backend.Store),
        Backend.submitBatch fingerprint kind_of detect authority_mapping
                            same_bucket max_batch message_for s []
        = inl Backend.InvalidInput).
Proof.
  intros Hout c.
  pose proof (collect_files_local images videos) as Hloc.
  destruct (collect_files images videos) as [tr0 r] eqn:E.
  simpl in Hout, Hloc. subst r.
  pose proof (handleAnalyze_no_files images videos E) as H.
  rewrite Forall_forall in Hloc.
  unfold c. rewrite H. cbn [Js.trace fst].
  destruct ((List.length images =? 0)%nat && (List.length videos =? 0)%nat) eqn:Elen.
  - cbn [Js.outcome Js.trace fst snd].
    split; [ reflexivity | ].
    split; [ intros files [F|[]]; discriminate | ].
    split; [ intros request [F|[]]; discriminate | ].
    split; [ intros path state [F|[]]; discriminate | ].
    split; [ reflexivity | ].
    split; [ | reflexivity ].
    intros Hne. exfalso. destruct images, videos; try discriminate.
    destruct Hne; contradiction.
  - cbn [Js.outcome Js.trace fst snd].
    split; [ reflexivity | ].
    split.
    { intros files [F|[F|F]]; try discriminate.
      cbn [app] in F. apply in_app_or in F. destruct F as [F|F].
      - destruct (Hloc _ F) as [u Hu]. discriminate.
      - simpl in F. intuition discriminate. }
    split.
    { intros request [F|[F|F]]; try discriminate.
      cbn [app] in F. apply in_app_or in F. destruct F as [F|F].
      - destruct (Hloc _ F) as [u Hu]. inversion Hu; subst. now split.
      - simpl in F. intuition discriminate. }
    split.
    { intros path state [F|[F|F]]; try discriminate.
      cbn [app] in F. apply in_app_or in F. destruct F as [F|F].
      - destruct (Hloc _ F) as [u Hu]. discriminate.
      - simpl in F. intuition discriminate. }
    split; [ intros -> ->; discriminate | ].
    split; reflexivity.
Qed.

End SubmitFacts.

Lemma empty_batch_is_refused_without_upload_witness :
  let env := Sample.env (Sample.response true 200 "upload-result") in
  Js.outcome (ComplaintPage.collect_files env [] []) = inr []
  /\ Js.outcome (ComplaintPage.collect_files env [Sample.unreadable] []) = inr []
  /\ ComplaintPage.handleAnalyze env [] []
     = ([ComplaintPage.Alert "Please add at least one image or video."], inr tt)
  /\ ComplaintPage.handleAnalyze env [Sample.unreadable] []
     = ([ComplaintPage.SetUploading true; ComplaintPage.SetUploadError None;
         ComplaintPage.ConsoleError "Upload error:"
           (Js.Error "No valid files to upload");
         ComplaintPage.SetUploadError (Some "No valid files to upload");
         ComplaintPage.Alert "Upload failed: No valid files to upload";
         ComplaintPage.SetUploading false],
        inr tt).
Proof.
  intros env.
  assert (H0 : Js.outcome (ComplaintPage.collect_files env [] []) = inr [])
    by reflexivity.
  assert (H1 : Js.outcome (ComplaintPage.collect_files env [Sample.unreadable] [])
               = inr []) by reflexivity.
  split; [ exact H0 | ]. split; [ exact H1 | ]. split.
  - destruct (empty_batch_is_refused_without_upload env [] [] H0)
      as (_ & _ & _ & _ & E & _).
    now apply E.
  - destruct (empty_batch_is_refused_without_upload env [Sample.unreadable] [] H1)
      as (_ & _ & _ & _ & _ & E & _).
    apply E. left. discriminate.
Defined.

(** C5, as stated.  The handler does not reject a submission without
    files by an error, and with items that yield no file it does more
    than tell the user: it returns normally after it has set and
    cleared the uploading flag, set the error banner and logged. *)
Lemma empty_batch_is_reported_not_rejected : ~ empty_batch_is_rejected_cleanly.
Proof.
  intros H.
  destruct (H (Sample.env (Sample.response true 200 "upload-result"))
              [Sample.unreadable] [] eq_refl) as [[e He] _].
  discriminate.
Qed.

(** ** Reading a response in the wire format *)

Section WireFacts.
Variable env : Api.Env.

Lemma wire_str_read (x : option Js.json) (o : option string) :
  wire_str x o -> Wire.as_str x = o.
Proof. destruct o; simpl; [ intros -> | intros [->| ->] ]; reflexivity. Qed.

Lemma wire_num_read (x : option Js.json) (o : option Q) :
  wire_num x o -> Wire.as_num x = o.
Proof. destruct o; simpl; [ intros -> | intros [->| ->] ]; reflexivity. Qed.

Lemma wire_list_truthy {A} (item : Js.json -> A -> Prop)
      (x : option Js.json) (o : option (list A)) :
  wire_list item x o ->
  Js.truthy x = match o with Some _ => true | None => false end.
Proof.
  destruct o; simpl; [ intros (items & -> & _) | intros [->| ->] ]; reflexivity.
Qed.

Lemma wire_subTicket_fields (v : Js.json) (st : SubTicket) :
  wire_subTicket v st -> Wire.subTicket_fields v = st.
Proof.
  intros (_ & H1 & H2 & H3 & H4 & H5 & H6 & H7 & H8 & H9 & H10).
  unfold Wire.subTicket_fields. destruct st; simpl in *.
  f_equal; auto using wire_str_read, wire_num_read.
Qed.

Lemma wire_read_subTickets (items : list Js.json) (l : list SubTicket) :
  Forall2 wire_subTicket items l ->
  Js.traverse (Wire.read_subTicket env) items = inr l.
Proof.
  induction 1 as [|v st items l Hv _ IH]; simpl; [ reflexivity | ].
  rewrite IH. pose proof (wire_subTicket_fields Hv) as E.
  destruct Hv as ((fields & ->) & _). simpl. now rewrite E.
Qed.

Lemma wire_spread_subTickets (items : list Js.json) (l : list SubTicket) :
  Forall2 wire_subTicket items l -> map Wire.spread_subTicket items = l.
Proof.
  induction 1 as [|v st items l Hv _ IH]; simpl; [ reflexivity | ].
  unfold Wire.spread_subTicket at 1. now rewrite (wire_subTicket_fields Hv), IH.
Qed.

Lemma wire_ticket_fields (v : Js.json) (t : Ticket) :
  wire_ticket v t -> Wire.ticket_fields v (sub_tickets t) = t.
Proof.
  intros (_ & H1 & H2 & H3 & H4 & H5 & _).
  unfold Wire.ticket_fields. destruct t; simpl in *.
  f_equal; auto using wire_str_read, wire_num_read.
Qed.

Lemma wire_created_ticket (v : Js.json) (t : Ticket) :
  wire_ticket v t -> Wire.created_ticket env v = inr t.
Proof.
  intros H. pose proof (wire_ticket_fields H) as E.
  destruct H as ((fields & ->) & _ & _ & _ & _ & _ & Hs).
  unfold Wire.created_ticket. cbn [Api.get Js.and_then].
  change (Js.assoc "sub_tickets" fields) with (Wire.field (Js.JObj fields) "sub_tickets").
  rewrite (@wire_list_truthy _ _ _ _ Hs).
  destruct (sub_tickets t) as [subs|] eqn:Et; [ | now rewrite <- E ].
  destruct Hs as (items & -> & Hitems). cbn [Wire.for_of Js.and_then].
  rewrite (wire_read_subTickets Hitems). cbn [Js.and_then]. now rewrite <- E.
Qed.

Lemma wire_listed_ticket (v : Js.json) (t : Ticket) :
  wire_ticket v t -> Wire.listed_ticket env v = inr t.
Proof.
  intros H. pose proof (wire_ticket_fields H) as E.
  destruct H as ((fields & ->) & _ & _ & _ & _ & _ & Hs).
  unfold Wire.listed_ticket. cbn [Api.get Js.and_then].
  change (Js.assoc "sub_tickets" fields) with (Wire.field (Js.JObj fields) "sub_tickets").
  unfold Wire.forEach. rewrite (@wire_list_truthy _ _ _ _ Hs).
  destruct (sub_tickets t) as [subs|] eqn:Et; [ | now rewrite <- E ].
  destruct Hs as (items & -> & Hitems). cbn [Js.and_then].
  now rewrite (wire_spread_subTickets Hitems), <- E.
Qed.

Lemma wire_traverse {A} (read : Js.json -> Js.error + A) (item : Js.json -> A -> Prop)
      (items : list Js.json) (l : list A) :
  (forall v a, item v a -> read v = inr a) ->
  Forall2 item items l -> Js.traverse read items = inr l.
Proof.
  intros Hread. induction 1 as [|v a items l Hv _ IH]; simpl; [ reflexivity | ].
  now rewrite (Hread v a Hv), IH.
Qed.

(** A listing in the wire format is read as the tickets it carries. *)
Lemma wire_tickets_of (response : Js.json) (tickets : option (list Ticket)) :
  wire_listing response tickets -> Wire.tickets_of env response = inr tickets.
Proof.
  intros ((fields & ->) & Ht). unfold Wire.tickets_of. cbn [Api.get Js.and_then].
  change (Js.assoc "tickets" fields) with (Wire.field (Js.JObj fields) "tickets").
  unfold Wire.forEach. rewrite (@wire_list_truthy _ _ _ _ Ht).
  destruct tickets as [l|]; [ | reflexivity ].
  destruct Ht as (items & -> & Hitems). cbn [Js.and_then].
  now rewrite (wire_traverse (Wire.listed_ticket env) wire_listed_ticket Hitems).
Qed.

Lemma traverse_stops {A} (read : Js.json -> Js.error + A)
      (before after : list Js.json) (l : list A) (v : Js.json) (e : Js.error) :
  Js.traverse read before = inr l ->
  read v = inl e ->
  Js.traverse read (before ++ v :: after) = inl e.
Proof.
  revert l. induction before as [|x before IH]; intros l Hb Hv; simpl.
  - now rewrite Hv.
  - simpl in Hb. destruct (read x) as [e'|a]; [ discriminate | ].
    cbn [Js.and_then] in *.
    destruct (Js.traverse read before) as [e'|l'] eqn:E; [ discriminate | ].
    now rewrite (IH l' eq_refl Hv).
Qed.

(** A [null] among the tickets of a listing ends the loops of the
    ticket log with the [TypeError] of reading its sub-tickets. *)
Lemma tickets_of_null_ticket (response : Js.json)
      (before after : list Js.json) (typed : list Ticket) :
  is_object response ->
  Wire.field response "tickets" = Some (Js.JArr (before ++ Js.JNull :: after)) ->
  Forall2 wire_ticket before typed ->
  Wire.tickets_of env response
  = inl (Js.TypeError (Api.null_read env "sub_tickets")).
Proof.
  intros (fields & ->) Hf Hb. unfold Wire.tickets_of. cbn [Api.get Js.and_then].
  change (Js.assoc "tickets" fields) with (Wire.field (Js.JObj fields) "tickets").
  rewrite Hf. cbn [Wire.forEach Js.truthy Js.and_then].
  rewrite (@traverse_stops _ (Wire.listed_ticket env) before after typed Js.JNull
             (Js.TypeError (Api.null_read env "sub_tickets"))
             (wire_traverse (Wire.listed_ticket env) wire_listed_ticket Hb)
             eq_refl).
  reflexivity.
Qed.

Lemma positive_length (n : nat) :
  Js.is_positive (Js.Finite (inject_Z (Z.of_nat n))) = negb (n =? 0)%nat.
Proof. destruct n; reflexivity. Qed.

(** An upload response in the wire format is read as the record it
    carries, but for an empty array of tickets, which is not looped
    over. *)
Lemma wire_uploadResponse_of (response : Js.json) (r : Wire.UploadResponse) :
  wire_upload response r ->
  exists visited,
    Wire.uploadResponse_of env response
    = inr {| Wire.tickets_created := visited;
             Wire.duplicates_found := Wire.duplicates_found r;
             Wire.response_message := Wire.response_message r |}
    /\ Js.or_empty visited = Js.or_empty (Wire.tickets_created r).
Proof.
  intros ((fields & ->) & Ht & Hd & Hm).
  unfold Wire.uploadResponse_of. cbn [Api.get Js.and_then].
  change (Js.assoc "tickets_created" fields)
    with (Wire.field (Js.JObj fields) "tickets_created").
  rewrite (@wire_list_truthy _ _ _ _ Ht), (@wire_num_read _ _ Hd), (@wire_str_read _ _ Hm).
  destruct (Wire.tickets_created r) as [l|]; [ | eexists; split; reflexivity ].
  destruct Ht as (items & -> & Hitems).
  cbn [Wire.length_of Api.ToNumber andb]. rewrite positive_length.
  destruct items as [|v items].
  - inversion Hitems; subst. eexists. split; reflexivity.
  - cbn [List.length Nat.eqb negb Wire.for_of Js.and_then].
    rewrite (wire_traverse (Wire.created_ticket env) wire_created_ticket Hitems).
    eexists. split; reflexivity.
Qed.

(** The duplicate test and the notice on a response in the wire
    format. *)
Lemma wire_has_duplicates (response : Js.json) (r : Wire.UploadResponse) :
  wire_upload response r ->
  ComplaintPage.has_duplicates env response
  = match Wire.duplicates_found r with
    | Some n => negb (Qle_bool n 0)
    | None => false
    end.
Proof.
  intros ((fields & ->) & _ & Hd & _). unfold ComplaintPage.has_duplicates.
  cbn [ComplaintPage.duplicates_read].
  destruct (Wire.duplicates_found r) as [n|]; cbn [wire_num] in Hd.
  - rewrite Hd. cbn [Js.truthy Api.ToNumber Js.is_positive].
    destruct (Qle_bool n 0) eqn:Hle; [ apply andb_false_r | ].
    destruct (Qeq_bool n 0) eqn:Heq; [ | reflexivity ].
    apply Qeq_bool_iff in Heq. rewrite Heq in Hle. discriminate.
  - destruct Hd as [-> | ->]; reflexivity.
Qed.

Lemma wire_notice (response : Js.json) (r : Wire.UploadResponse) (n : Q) :
  wire_upload response r ->
  Wire.duplicates_found r = Some n ->
  ComplaintPage.notice env response
  = match Wire.response_message r with
    | Some m =>
        if String.eqb m ""
        then ("Some images were already registered. Duplicates: "
              ++ Api.ToString env (Js.JNum n))%string
        else m
    | None => ("Some images were already registered. Duplicates: "
               ++ Api.ToString env (Js.JNum n))%string
    end.
Proof.
  intros ((fields & ->) & _ & Hd & Hm) En. rewrite En in Hd. cbn [wire_num] in Hd.
  unfold ComplaintPage.notice. cbn [ComplaintPage.duplicates_read]. rewrite Hd.
  destruct (Wire.response_message r) as [m|]; cbn [wire_str] in Hm.
  - rewrite Hm. cbn [Js.truthy ComplaintPage.shown Api.String_of].
    now destruct (String.eqb m "").
  - destruct Hm as [-> | ->]; reflexivity.
Qed.

End WireFacts.

Section UploadFacts.
Variable env : Api.Env.

#[local] Abbreviation collect_files' := (ComplaintPage.collect_files env).
#[local] Abbreviation handleAnalyze' := (ComplaintPage.handleAnalyze env).

(** The rows are built from the tickets that were looped over. *)
Lemma rows_or_empty (images videos : list ComplaintPage.Media)
      (r r' : Wire.UploadResponse) :
  Js.or_empty (Wire.tickets_created r) = Js.or_empty (Wire.tickets_created r') ->
  ComplaintPage.rows images videos r = ComplaintPage.rows images videos r'.
Proof.
  assert (H : forall x, ComplaintPage.rows images videos x
                        = fold_left (fun uploadedFiles ticket =>
                                       ComplaintPage.push_sub_tickets images videos
                                         ticket uploadedFiles)
                                    (Js.or_empty (Wire.tickets_created x)) []).
  { intros x. unfold ComplaintPage.rows.
    destruct (Wire.tickets_created x) as [[|t l]|]; reflexivity. }
  intros E. now rewrite (H r), (H r'), E.
Qed.

(** The handler when the upload call returns [response]. *)
Lemma handleAnalyze_uploaded (images videos : list ComplaintPage.Media)
      (tr1 : list ComplaintPage.Event) (files : list Api.File)
      (tr2 : list Api.Event) (response : Js.json) :
  collect_files' images videos = (tr1, inr files) ->
  files <> [] ->
  Api.uploadComplaints env files = (tr2, inr response) ->
  handleAnalyze' images videos
  = ([ComplaintPage.SetUploading true; ComplaintPage.SetUploadError None]
       ++ tr1 ++ map ComplaintPage.Service tr2
       ++ (if ComplaintPage.has_duplicates env response
           then [ComplaintPage.Alert (ComplaintPage.notice env response)] else [])
       ++ match Wire.uploadResponse_of env response with
          | inr read =>
              [ComplaintPage.Navigate "/analyse"
                 {| ComplaintPage.uploadedFiles :=
                      ComplaintPage.rows images videos read;
                    ComplaintPage.uploadResponse := response |}]
          | inl e => reported e
          end
       ++ [ComplaintPage.SetUploading false],
     inr tt).
Proof.
  intros E Hne Eu. unfold ComplaintPage.handleAnalyze.
  assert (G : (List.length images =? 0)%nat && (List.length videos =? 0)%nat = false).
  { destruct images, videos; try reflexivity.
    rewrite collect_files_nil in E. inversion E; subst. contradiction. }
  rewrite G. unfold ComplaintPage.upload_and_show. rewrite E.
  destruct files as [|f files]; [ contradiction | ].
  cbn [Js.bind List.length Nat.eqb]. unfold Js.lift. rewrite Eu.
  cbn [Js.bind].
  destruct (ComplaintPage.has_duplicates env response);
    destruct (Wire.uploadResponse_of env response) as [e|read]; simpl;
    rewrite ?app_nil_r, <- ?app_assoc; reflexivity.
Qed.

Lemma until_dismissed_app (pre rest : list ComplaintPage.Event) :
  (forall e, In e pre -> forall msg, e <> ComplaintPage.Alert msg) ->
  until_dismissed (pre ++ rest) = pre ++ until_dismissed rest.
Proof.
  induction pre as [|e pre IH]; intros H; simpl; [ reflexivity | ].
  rewrite IH by (intros x Hx; apply H; now right).
  destruct e; try reflexivity.
  exfalso. eapply (H _ (or_introl eq_refl)). reflexivity.
Qed.

(** C6, as the code has it.  When an upload response in the wire
    format reports duplicates, the handler first shows the notice with
    [alert] (the server's message when it is not empty, else the
    default text with the count), a modal dialog: until it is
    dismissed nothing of the results is shown.  Then the handler goes
    on: it opens the results page with one row per sub-ticket of the
    response, in order, each with its ticket id, sub-ticket id, issue
    type and counts, and ends without an error. *)
Theorem duplicate_notice_keeps_results
        (images videos : list ComplaintPage.Media)
        (tr1 : list ComplaintPage.Event) (files : list Api.File)
        (tr2 : list Api.Event) (response : Js.json)
        (r : Wire.UploadResponse) (n : Q) :
  collect_files' images videos = (tr1, inr files) ->
  files <> [] ->
  Api.uploadComplaints env files = (tr2, inr response) ->
  wire_upload response r ->
  Wire.duplicates_found r = Some n ->
  (0 < n)%Q ->
  let default :=
    ("Some images were already registered. Duplicates: "
     ++ Api.ToString env (Js.JNum n))%string in
  let text := match Wire.response_message r with
              | Some m => if String.eqb m "" then default else m
              | None => default
              end in
  let shown := ComplaintPage.rows images videos r in
  handleAnalyze' images videos
  = ([ComplaintPage.SetUploading true; ComplaintPage.SetUploadError None]
       ++ tr1 ++ map ComplaintPage.Service tr2
       ++ [ComplaintPage.Alert text;
           ComplaintPage.Navigate "/analyse"
             {| ComplaintPage.uploadedFiles := shown;
                ComplaintPage.uploadResponse := response |};
           ComplaintPage.SetUploading false],
     inr tt)
  /\ until_dismissed (Js.trace (handleAnalyze' images videos))
     = [ComplaintPage.SetUploading true; ComplaintPage.SetUploadError None]
         ++ tr1 ++ map ComplaintPage.Service tr2 ++ [ComplaintPage.Alert text]
  /\ map shown_ids shown
     = map (fun p => (ticket_id (fst p), sub_id (snd p), issue_type (snd p)))
           (flat_pairs (Js.or_empty (Wire.tickets_created r)))
  /\ map (fun row => (ComplaintPage.uf_media_count row,
                      ComplaintPage.uf_rejected_count row)) shown
     = map (fun p => (media_count (snd p), rejected_count (snd p)))
           (flat_pairs (Js.or_empty (Wire.tickets_created r))).
Proof.
  intros E Hne Eu Hw En Hn default text shown.
  assert (Hrun : handleAnalyze' images videos
                 = ([ComplaintPage.SetUploading true; ComplaintPage.SetUploadError None]
                      ++ tr1 ++ map ComplaintPage.Service tr2
                      ++ [ComplaintPage.Alert text;
                          ComplaintPage.Navigate "/analyse"
                            {| ComplaintPage.uploadedFiles := shown;
                               ComplaintPage.uploadResponse := response |};
                          ComplaintPage.SetUploading false],
                    inr tt)); [ | split; [ exact Hrun | split; [ | split ] ] ].
  4: { apply (rows_project images videos
                (fun row => (ComplaintPage.uf_media_count row,
                             ComplaintPage.uf_rejected_count row))
                (fun _ st => (media_count st, rejected_count st))).
       reflexivity. }
  3: apply (rows_of_response images videos r).
  2: { rewrite Hrun. cbn [Js.trace fst].
       pose proof (collect_files_local env images videos) as Hloc.
       rewrite E in Hloc. cbn [Js.trace fst] in Hloc. rewrite Forall_forall in Hloc.
       change ([ComplaintPage.SetUploading true; ComplaintPage.SetUploadError None]
                 ++ tr1 ++ map ComplaintPage.Service tr2 ++ ?l)
         with (ComplaintPage.SetUploading true :: ComplaintPage.SetUploadError None
                 :: (tr1 ++ map ComplaintPage.Service tr2 ++ l)).
       cbn [until_dismissed]. do 2 f_equal.
       rewrite until_dismissed_app
         by (intros e He msg F; destruct (Hloc e He) as [u Hu]; congruence).
       f_equal.
       rewrite until_dismissed_app; [ reflexivity | ].
       intros e He msg F. apply in_map_iff in He. destruct He as (x & Hx & _).
       congruence. }
  - rewrite (handleAnalyze_uploaded images videos E Hne Eu).
    rewrite (wire_has_duplicates env Hw), En.
    assert (Hpos : Qle_bool n 0 = false).
    { destruct (Qle_bool n 0) eqn:F; [ | reflexivity ].
      apply Qle_bool_iff in F. exfalso. now apply (Qlt_not_le 0 n). }
    rewrite Hpos. cbn [negb].
    rewrite (wire_notice env Hw En). fold default. fold text.
    destruct (wire_uploadResponse_of env Hw) as (visited & -> & Hv).
    rewrite (@rows_or_empty images videos _ r) by exact Hv.
    reflexivity.
Qed.

Lemma collect_without_location
      (step : ComplaintPage.Media -> Js.M ComplaintPage.Event (list Api.File))
      (items : list ComplaintPage.Media) :
  (forall m, step (without_location m) = step m) ->
  forall acc,
    ComplaintPage.collect step (map without_location items) acc
    = ComplaintPage.collect step items acc.
Proof.
  intros Hstep. induction items as [|m items IH]; intros acc; simpl.
  - reflexivity.
  - rewrite Hstep. unfold Js.bind. destruct (step m) as [tr [e|a]];
      [ reflexivity | now rewrite IH ].
Qed.

Lemma collect_files_without_location (images videos : list ComplaintPage.Media) :
  collect_files' (map without_location images) (map without_location videos)
  = collect_files' images videos.
Proof.
  unfold ComplaintPage.collect_files.
  rewrite collect_without_location by reflexivity.
  unfold Js.bind.
  destruct (ComplaintPage.collect (ComplaintPage.image_files env) images [])
    as [tr [e|a]]; [ reflexivity | ].
  now rewrite collect_without_location by reflexivity.
Qed.

Lemma collect_attached
      (step : ComplaintPage.Media -> Js.M ComplaintPage.Event (list Api.File))
      (items : list ComplaintPage.Media) :
  (forall m f, ComplaintPage.file m = Some f -> step m = ([], inr [f])) ->
  (forall m, In m items -> ComplaintPage.file m <> None) ->
  forall acc,
    ComplaintPage.collect step items acc = ([], inr (acc ++ attached_files items)).
Proof.
  intros Hstep. induction items as [|m items IH]; intros Hall acc; simpl.
  - now rewrite app_nil_r.
  - destruct (ComplaintPage.file m) as [f|] eqn:E;
      [ | exfalso; apply (Hall m); [ now left | exact E ] ].
    rewrite (Hstep m f E). cbn [Js.bind].
    rewrite IH by (intros x Hx; apply Hall; now right).
    now rewrite <- app_assoc.
Qed.

Lemma collect_files_attached (images videos : list ComplaintPage.Media) :
  (forall m, In m (images ++ videos) -> ComplaintPage.file m <> None) ->
  collect_files' images videos
  = ([], inr (attached_files images ++ attached_files videos)).
Proof.
  intros Hall. unfold ComplaintPage.collect_files.
  rewrite collect_attached.
  - cbn [Js.bind app]. rewrite collect_attached.
    + reflexivity.
    + intros m f E. unfold ComplaintPage.video_files. now rewrite E.
    + intros m Hm. apply Hall, in_or_app. now right.
  - intros m f E. unfold ComplaintPage.image_files. now rewrite E.
  - intros m Hm. apply Hall, in_or_app. now left.
Qed.

Lemma requests_app (a b : list ComplaintPage.Event) :
  requests (a ++ b) = requests a ++ requests b.
Proof. apply flat_map_app. Qed.

Ltac same_requests :=
  unfold requests; simpl; rewrite ?flat_map_app; simpl;
  rewrite ?flat_map_app; simpl; reflexivity.

Lemma handleAnalyze_requests_without_location
      (images videos : list ComplaintPage.Media) :
  requests (Js.trace (handleAnalyze' (map without_location images)
                                     (map without_location videos)))
  = requests (Js.trace (handleAnalyze' images videos)).
Proof.
  unfold ComplaintPage.handleAnalyze. rewrite !length_map.
  destruct ((List.length images =? 0)%nat && (List.length videos =? 0)%nat);
    [ reflexivity | ].
  unfold ComplaintPage.upload_and_show.
  rewrite collect_files_without_location.
  destruct (collect_files' images videos) as [tr1 [e|files]];
    [ same_requests | ].
  destruct files as [|f files]; [ same_requests | ].
  cbn [Js.bind List.length Nat.eqb]. unfold Js.lift.
  destruct (Api.uploadComplaints env (f :: files)) as [tr2 [e|response]];
    [ same_requests | ].
  cbn [Js.bind].
  destruct (ComplaintPage.has_duplicates env response);
    destruct (Wire.uploadResponse_of env response) as [e|read]; same_requests.
Qed.

(** C4, as the code has it.  The batch request carries the media files
    and nothing else: one [files] entry per file, the images' files
    before the videos', and the same requests go out whatever latitude
    and longitude the client attached to the items.  The attached
    geolocation stays in the page, as the last fallback for the
    coordinates of a result row. *)
Theorem upload_request_carries_files_only
        (images videos : list ComplaintPage.Media) :
  (forall files,
      Api.req_body (Api.upload_request env files)
      = Some (map (fun file => ("files", file)) files))
  /\ ((forall m, In m (images ++ videos) -> ComplaintPage.file m <> None) ->
      collect_files' images videos
      = ([], inr (attached_files images ++ attached_files videos)))
  /\ collect_files' (map without_location images) (map without_location videos)
     = collect_files' images videos
  /\ requests (Js.trace (handleAnalyze' (map without_location images)
                                        (map without_location videos)))
     = requests (Js.trace (handleAnalyze' images videos))
  /\ (forall ticket subTicket uploadedFiles,
        ComplaintPage.uf_latitude
          (ComplaintPage.row_of images videos ticket subTicket uploadedFiles)
        = Js.or_num (Js.or_num (latitude subTicket) (t_latitude ticket))
            (match nth_error (images ++ videos) (List.length uploadedFiles) with
             | Some m => ComplaintPage.lat m
             | None => None
             end)
        /\ ComplaintPage.uf_longitude
             (ComplaintPage.row_of images videos ticket subTicket uploadedFiles)
           = Js.or_num (Js.or_num (longitude subTicket) (t_longitude ticket))
               (match nth_error (images ++ videos) (List.length uploadedFiles) with
                | Some m => ComplaintPage.lng m
                | None => None
                end)).
Proof.
  split; [ reflexivity | ].
  split; [ apply collect_files_attached | ].
  split; [ apply collect_files_without_location | ].
  split; [ apply handleAnalyze_requests_without_location | ].
  intros; split; reflexivity.
Qed.

End UploadFacts.

Ltac in_wire_format :=
  repeat match goal with
         | |- _ /\ _ => split
         | |- exists _, _ => eexists
         | |- Forall2 _ _ _ => constructor
         | |- _ \/ _ => left; reflexivity
         | |- _ = _ => reflexivity
         | |- _ => progress cbn
         | |- _ => progress unfold wire_upload, wire_listing, wire_ticket,
                     wire_subTicket, wire_list, wire_str, wire_num, is_object
         end.

Lemma duplicate_notice_keeps_results_witness :
  let env := Sample.env (Sample.response true 200 "upload-result") in
  wire_upload Sample.upload_json Sample.upload_typed
  /\ ComplaintPage.handleAnalyze env [Sample.picture None None] []
     = ([ComplaintPage.SetUploading true; ComplaintPage.SetUploadError None;
         ComplaintPage.Service (Api.Fetch (Api.upload_request env [Sample.photo]));
         ComplaintPage.Alert "1 duplicate skipped";
         ComplaintPage.Navigate "/analyse"
           {| ComplaintPage.uploadedFiles :=
                [ {| ComplaintPage.uf_id := "img-1";
                     ComplaintPage.previewUrl := Some "blob:preview-1";
                     ComplaintPage.uf_type := "image";
                     ComplaintPage.uf_ticket_id := Some "T-1";
                     ComplaintPage.uf_sub_id := Some "SUB-1";
                     ComplaintPage.uf_issue_type := Some "garbage";
                     ComplaintPage.uf_authority := None;
                     ComplaintPage.uf_status := Some "open";
                     ComplaintPage.uf_latitude := None;
                     ComplaintPage.uf_longitude := None;
                     ComplaintPage.uf_media_count := Some 1%Q;
                     ComplaintPage.uf_rejected_count := Some 1%Q |} ];
              ComplaintPage.uploadResponse := Sample.upload_json |};
         ComplaintPage.SetUploading false],
        inr tt).
Proof.
  intros env.
  assert (Hw : wire_upload Sample.upload_json Sample.upload_typed)
    by in_wire_format.
  split; [ exact Hw | ].
  refine (proj1 (duplicate_notice_keeps_results env
                   [Sample.picture None None] [] (tr1 := []) (files := [Sample.photo])
                   (tr2 := [Api.Fetch (Api.upload_request env [Sample.photo])])
                   (response := Sample.upload_json) (r := Sample.upload_typed)
                   (n := 1%Q) eq_refl _ eq_refl Hw eq_refl _)).
  - discriminate.
  - reflexivity.
Defined.

(** C6, as stated.  The notice is an [alert]: while it is on the
    screen the results page has not been opened. *)
Lemma duplicate_notice_holds_the_results_back : ~ notice_is_non_blocking.
Proof.
  intros H.
  pose (env := Sample.env (Sample.response true 200 "upload-result")).
  assert (Hw : wire_upload Sample.upload_json Sample.upload_typed)
    by in_wire_format.
  destruct (H env [Sample.picture None None] [] [] [Sample.photo]
              [Api.Fetch (Api.upload_request env [Sample.photo])]
              Sample.upload_json Sample.upload_typed 1%Q eq_refl) as [st Hin];
    try reflexivity; try exact Hw; try discriminate.
  simpl in Hin. intuition discriminate.
Qed.

Lemma upload_request_carries_files_only_witness :
  let env := Sample.env (Sample.response true 200 "upload-result") in
  let images := [Sample.picture (Some (33 # 2)%Q) (Some (403 # 5)%Q)] in
  let videos := [Sample.clip] in
  (forall m, In m (images ++ videos) -> ComplaintPage.file m <> None)
  /\ ComplaintPage.collect_files env images videos
     = ([], inr [Sample.photo; Sample.clip_file])
  /\ requests (Js.trace (ComplaintPage.handleAnalyze env images videos))
     = [Api.upload_request env [Sample.photo; Sample.clip_file]]
  /\ requests (Js.trace (ComplaintPage.handleAnalyze env
                           (map without_location images)
                           (map without_location videos)))
     = requests (Js.trace (ComplaintPage.handleAnalyze env images videos)).
Proof.
  intros env images videos.
  assert (H : forall m, In m (images ++ videos) -> ComplaintPage.file m <> None).
  { intros m [<-|[<-|[]]]; discriminate. }
  split; [ exact H | ].
  destruct (upload_request_carries_files_only env images videos)
    as (_ & Hfiles & _ & Hreq & _).
  split; [ exact (Hfiles H) | ].
  split; [ reflexivity | exact Hreq ].
Defined.

(** C4, as stated.  Two batches that hold the same file, one with a
    captured latitude and longitude and one without, send the same
    request: the geolocation cannot be read off it. *)
Lemma upload_request_drops_geolocation : ~ request_carries_geolocation.
Proof.
  intros [read H].
  pose (env := Sample.env (Sample.response true 200 "upload-result")).
  pose proof (H env [Sample.picture (Some (33 # 2)%Q) (Some (403 # 5)%Q)] []
                [] [Sample.photo] eq_refl) as H1.
  pose proof (H env [Sample.picture None None] [] [] [Sample.photo] eq_refl) as H2.
  rewrite H1 in H2. discriminate.
Qed.

(** ** services/api: responses that are not OK *)

Section ErrorFacts.
Variable env : Api.Env.

(** [apiRequest] on a response that is not OK: one request, the error
    logged once and thrown, no data. *)
Lemma apiRequest_not_ok (endpoint : string) (options : Api.Options)
      (response : Api.Response) :
  let request :=
    Api.request_of (Api.API_BASE_URL env ++ endpoint)%string options in
  let e := Js.Error
             (Api.message_or env
                (Some (Api.errorMessage env (Api.text response)))
                ("HTTP error! status: " ++ Js.show_int (Api.status response))%string) in
  Api.fetch env request = inr response ->
  Api.ok response = false ->
  Api.apiRequest env endpoint options
  = ([Api.Fetch request;
      Api.ConsoleError ("API Error (" ++ endpoint ++ "):")%string e],
     inl e).
Proof.
  intros request e Hf Hok. unfold Api.apiRequest, Api.do_fetch.
  fold request. rewrite Hf. cbn [Js.bind Js.try_catch]. rewrite Hok. reflexivity.
Qed.

Lemma apiRequest_carries_detail (endpoint : string) (options : Api.Options)
      (response : Api.Response) (d : Js.json) :
  Api.fetch env (Api.request_of (Api.API_BASE_URL env ++ endpoint)%string options)
  = inr response ->
  Api.ok response = false ->
  server_detail env response d ->
  Js.outcome (Api.apiRequest env endpoint options)
  = inl (Js.Error (Api.String_of env d)).
Proof.
  intros Hf Hok (fields & Hp & Hd & Ht).
  rewrite (apiRequest_not_ok endpoint options Hf Hok).
  cbn [Js.outcome snd].
  unfold Api.errorMessage. rewrite Hp. cbn [Api.get]. rewrite Hd, Ht.
  unfold Api.message_or. now rewrite Ht.
Qed.

(** Without a parsable body the listing call falls back to the raw
    text, and to the status when the text is empty. *)
Lemma apiRequest_falls_back_to_text (endpoint : string) (options : Api.Options)
      (response : Api.Response) (err : Js.error) :
  Api.fetch env (Api.request_of (Api.API_BASE_URL env ++ endpoint)%string options)
  = inr response ->
  Api.ok response = false ->
  Api.JSON_parse env (Api.text response) = inl err ->
  Js.outcome (Api.apiRequest env endpoint options)
  = inl (Js.Error
           (if String.eqb (Api.text response) ""
            then ("HTTP error! status: " ++ Js.show_int (Api.status response))%string
            else Api.text response)).
Proof.
  intros Hf Hok Hp.
  rewrite (apiRequest_not_ok endpoint options Hf Hok). simpl.
  unfold Api.errorMessage. rewrite Hp. unfold Api.message_or. simpl.
  destruct (String.eqb (Api.text response) ""); reflexivity.
Qed.

(** [uploadComplaints] on a response that is not OK never returns
    data: it throws once, after its one request. *)
Lemma uploadComplaints_not_ok (files : list Api.File) (response : Api.Response) :
  Api.fetch env (Api.upload_request env files) = inr response ->
  Api.ok response = false ->
  exists e,
    Api.uploadComplaints env files
    = ([Api.Fetch (Api.upload_request env files)], inl e).
Proof.
  intros Hf Hok. unfold Api.uploadComplaints, Api.do_fetch.
  rewrite Hf. cbn [Js.bind]. rewrite Hok. cbn [negb].
  unfold Api.json_of.
  destruct (Api.JSON_parse env (Api.text response)) as [err|errorData];
    cbn [Js.try_catch Js.bind Js.ret].
  - simpl. eexists. reflexivity.
  - destruct (Api.get env errorData "detail") as [err|detail];
      simpl; eexists; reflexivity.
Qed.

Lemma uploadComplaints_carries_detail (files : list Api.File)
      (response : Api.Response) (d : Js.json) :
  Api.fetch env (Api.upload_request env files) = inr response ->
  Api.ok response = false ->
  server_detail env response d ->
  Js.outcome (Api.uploadComplaints env files)
  = inl (Js.Error (Api.String_of env d)).
Proof.
  intros Hf Hok (fields & Hp & Hd & Ht).
  unfold Api.uploadComplaints, Api.do_fetch.
  rewrite Hf. cbn [Js.bind]. rewrite Hok. cbn [negb].
  unfold Api.json_of. rewrite Hp. cbn [Js.try_catch Js.bind Js.ret Api.get].
  rewrite Hd. cbn [Js.bind Js.throw Js.outcome snd app].
  unfold Api.message_or. now rewrite Ht.
Qed.

(** Without a parsable body the upload call falls back to the status
    text, and to the status code when that is empty. *)
Lemma uploadComplaints_falls_back_to_status (files : list Api.File)
      (response : Api.Response) (err : Js.error) :
  Api.fetch env (Api.upload_request env files) = inr response ->
  Api.ok response = false ->
  Api.JSON_parse env (Api.text response) = inl err ->
  Js.outcome (Api.uploadComplaints env files)
  = inl (Js.Error
           (if String.eqb (Api.statusText response) ""
            then ("Upload failed: " ++ Js.show_int (Api.status response))%string
            else Api.statusText response)).
Proof.
  intros Hf Hok Hp.
  unfold Api.uploadComplaints, Api.do_fetch.
  rewrite Hf. cbn [Js.bind]. rewrite Hok. cbn [negb].
  unfold Api.json_of. rewrite Hp. simpl. unfold Api.message_or. simpl.
  destruct (String.eqb (Api.statusText response) ""); reflexivity.
Qed.

(** A body that is the JSON text [null]: the listing call keeps the
    raw text, the upload call fails while reading [detail]. *)
Lemma apiRequest_null_body (endpoint : string) (options : Api.Options)
      (response : Api.Response) :
  Api.fetch env (Api.request_of (Api.API_BASE_URL env ++ endpoint)%string options)
  = inr response ->
  Api.ok response = false ->
  Api.JSON_parse env (Api.text response) = inr Js.JNull ->
  Api.text response <> "" ->
  Js.outcome (Api.apiRequest env endpoint options)
  = inl (Js.Error (Api.text response)).
Proof.
  intros Hf Hok Hp Hne.
  rewrite (apiRequest_not_ok endpoint options Hf Hok). simpl.
  unfold Api.errorMessage. rewrite Hp. simpl. unfold Api.message_or. simpl.
  apply String.eqb_neq in Hne. now rewrite Hne.
Qed.

Lemma uploadComplaints_null_body (files : list Api.File) (response : Api.Response) :
  Api.fetch env (Api.upload_request env files) = inr response ->
  Api.ok response = false ->
  Api.JSON_parse env (Api.text response) = inr Js.JNull ->
  Js.outcome (Api.uploadComplaints env files)
  = inl (Js.TypeError (Api.null_read env "detail")).
Proof.
  intros Hf Hok Hp.
  unfold Api.uploadComplaints, Api.do_fetch.
  rewrite Hf. cbn [Js.bind]. rewrite Hok. cbn [negb].
  unfold Api.json_of. rewrite Hp. reflexivity.
Qed.

End ErrorFacts.

(** C7, at an error response whose body is the JSON text [null].  The
    upload call does fail with one error and no data, but the error is
    the [TypeError] raised by reading [detail] of [null]: it carries
    neither a detail, nor the body, nor the HTTP status.  The listing
    call, which guards the same read, falls back to the raw body. *)
Theorem upload_error_lost_on_null_body :
  let env := Sample.env (Sample.response false 500 "null") in
  Api.uploadComplaints env [Sample.photo]
  = ([Api.Fetch (Api.upload_request env [Sample.photo])],
     inl (Js.TypeError "Cannot read properties of null (reading 'detail')"))
  /\ Js.outcome (Api.apiRequest env "/api/complaints/tickets" Api.no_options)
     = inl (Js.Error "null")
  /\ Js.outcome
       (Api.uploadComplaints (Sample.env (Sample.response false 500 Sample.detail_text))
                             [Sample.photo])
     = inl (Js.Error "Store unreachable").
Proof.
  intros env. repeat split; reflexivity.
Qed.

(** ** Ticket store: status transitions *)

Lemma next_status_chain (a b : Backend.Status) :
  Backend.next_status a = Some b <-> Backend.follows_chain a b.
Proof.
  split.
  - destruct a; simpl; intros E; inversion E; constructor.
  - intros H; destruct H; reflexivity.
Qed.

Lemma Status_eqb_eq (a b : Backend.Status) :
  Backend.Status_eqb a b = true <-> a = b.
Proof. destruct a, b; simpl; split; congruence. Qed.

Lemma find_after_update (sub : nat) (f : Backend.SubTicket -> Backend.SubTicket)
      (l : list Backend.SubTicket) :
  (forall x, Backend.sub_id (f x) = Backend.sub_id x) ->
  find (fun x => Nat.eqb (Backend.sub_id x) sub)
       (map (fun x => if Nat.eqb (Backend.sub_id x) sub then f x else x) l)
  = option_map f (find (fun x => Nat.eqb (Backend.sub_id x) sub) l).
Proof.
  intros Hf. induction l as [|x l IH]; simpl; [ reflexivity | ].
  destruct (Nat.eqb (Backend.sub_id x) sub) eqn:E; simpl.
  - now rewrite Hf, E.
  - now rewrite E.
Qed.

(** C3.  A status update of a stored sub-ticket succeeds exactly when
    it moves one step along open, in_progress, resolved, closed; then
    the stored status is the new one.  Any other request, closed to
    open among them, fails with InvalidStatusTransition and leaves the
    store, hence the status, as it was. *)
Theorem status_update_follows_chain
        (s : Backend.Store) (sub : nat) (st : Backend.SubTicket)
        (newStatus : Backend.Status) :
  find (fun x => Nat.eqb (Backend.sub_id x) sub) (Backend.subs s) = Some st ->
  ((exists st' s', Backend.updateStatus s sub newStatus = (inr st', s'))
   <-> Backend.follows_chain (Backend.status st) newStatus)
  /\ (Backend.follows_chain (Backend.status st) newStatus ->
      exists s',
        Backend.updateStatus s sub newStatus
        = (inr (Backend.set_status st newStatus), s')
        /\ find (fun x => Nat.eqb (Backend.sub_id x) sub) (Backend.subs s')
           = Some (Backend.set_status st newStatus)
        /\ Backend.tickets s' = Backend.tickets s
        /\ Backend.media s' = Backend.media s)
  /\ (~ Backend.follows_chain (Backend.status st) newStatus ->
      Backend.updateStatus s sub newStatus
      = (inl Backend.InvalidStatusTransition, s))
  /\ (Backend.status st = Backend.closed ->
      Backend.updateStatus s sub Backend.open
      = (inl Backend.InvalidStatusTransition, s)).
Proof.
  intros Hfind.
  assert (Hok : Backend.follows_chain (Backend.status st) newStatus ->
                exists s',
                  Backend.updateStatus s sub newStatus
                  = (inr (Backend.set_status st newStatus), s')
                  /\ find (fun x => Nat.eqb (Backend.sub_id x) sub) (Backend.subs s')
                     = Some (Backend.set_status st newStatus)
                  /\ Backend.tickets s' = Backend.tickets s
                  /\ Backend.media s' = Backend.media s).
  { intros H. apply next_status_chain in H.
    unfold Backend.updateStatus. rewrite Hfind, H.
    rewrite (proj2 (Status_eqb_eq newStatus newStatus) eq_refl).
    eexists. split; [ reflexivity | ]. simpl. repeat split.
    rewrite find_after_update by reflexivity. now rewrite Hfind. }
  assert (Hbad : ~ Backend.follows_chain (Backend.status st) newStatus ->
                 Backend.updateStatus s sub newStatus
                 = (inl Backend.InvalidStatusTransition, s)).
  { intros H. unfold Backend.updateStatus. rewrite Hfind.
    destruct (Backend.next_status (Backend.status st)) as [allowed|] eqn:E;
      [ | reflexivity ].
    destruct (Backend.Status_eqb allowed newStatus) eqn:F; [ | reflexivity ].
    apply Status_eqb_eq in F. subst allowed.
    apply next_status_chain in E. contradiction. }
  split; [ | split; [ exact Hok | split; [ exact Hbad | ] ] ].
  - split.
    + intros (st' & s' & E).
      destruct (Backend.next_status (Backend.status st)) as [allowed|] eqn:N.
      * destruct (Backend.Status_eqb allowed newStatus) eqn:F.
        -- apply Status_eqb_eq in F. subst. now apply next_status_chain.
        -- unfold Backend.updateStatus in E. rewrite Hfind, N, F in E.
           discriminate.
      * unfold Backend.updateStatus in E. rewrite Hfind, N in E. discriminate.
    + intros H. destruct (Hok H) as (s' & E & _). eauto.
  - intros Hc. unfold Backend.updateStatus. now rewrite Hfind, Hc.
Qed.

Lemma status_update_follows_chain_witness :
  find (fun x => Nat.eqb (Backend.sub_id x) 0) (Backend.subs Sample.one_ticket_store)
  = Some Sample.open_sub
  /\ exists s',
       Backend.updateStatus Sample.one_ticket_store 0 Backend.in_progress
       = (inr (Backend.set_status Sample.open_sub Backend.in_progress), s')
       /\ find (fun x => Nat.eqb (Backend.sub_id x) 0) (Backend.subs s')
          = Some (Backend.set_status Sample.open_sub Backend.in_progress).
Proof.
  assert (H : find (fun x => Nat.eqb (Backend.sub_id x) 0)
                   (Backend.subs Sample.one_ticket_store)
              = Some Sample.open_sub) by reflexivity.
  split; [ exact H | ].
  destruct (status_update_follows_chain
              Sample.one_ticket_store 0 Backend.in_progress H)
    as (_ & Hok & _).
  destruct (Hok Backend.open_to_in_progress) as (s' & E & F & _).
  exists s'. split; assumption.
Defined.

(** The chain taken in order succeeds at each step, and a step back
    from closed fails and changes nothing. *)
Example status_chain_in_order :
  let run := Sample.update_all Sample.one_ticket_store 0
               [Backend.in_progress; Backend.resolved; Backend.closed; Backend.open] in
  fst run = [inr Backend.in_progress; inr Backend.resolved; inr Backend.closed;
             inl Backend.InvalidStatusTransition]
  /\ map Backend.status (Backend.subs (snd run)) = [Backend.closed].
Proof. split; reflexivity. Qed.

(** ** Ingestion: byte-identical copies *)

Section DedupFacts.
Variable fingerprint : list Byte.byte -> N.
Variable kind_of : list Byte.byte -> option Backend.MediaKind.
Variable detect : Backend.MediaKind -> list Byte.byte -> option (list Backend.Detection).
Variable authority_mapping : list (string * string).
Variable same_bucket : Backend.Location -> Z -> Backend.Location -> Z -> bool.
Variable max_batch : nat.
Variable message_for : nat -> string.

#[local] Abbreviation process :=
  (Backend.process fingerprint kind_of detect authority_mapping same_bucket).
#[local] Abbreviation submitBatch :=
  (Backend.submitBatch fingerprint kind_of detect authority_mapping same_bucket
                       max_batch message_for).
#[local] Abbreviation after_copies' := (after_copies fingerprint authority_mapping).

(** A file whose fingerprint is registered is a duplicate: detection is
    not run and the store changes by [commit_duplicate] only. *)
Lemma process_duplicate (p : Backend.Progress) (u : Backend.Upload)
      (k : Backend.MediaKind) (canonical : nat) :
  kind_of (Backend.bytes u) = Some k ->
  Backend.lookup_hash (fingerprint (Backend.bytes u))
                      (Backend.fingerprints (Backend.store p))
  = Some canonical ->
  process p u
  = {| Backend.store :=
         Backend.commit_duplicate fingerprint (Backend.store p) u k canonical;
       Backend.touched :=
         Backend.touched p ++ Backend.parents_of (Backend.store p) canonical;
       Backend.duplicates := S (Backend.duplicates p);
       Backend.failures :=
         Backend.failures p ++ [(Backend.name u, Backend.DuplicateMedia)] |}.
Proof.
  intros Hk Hl. unfold Backend.process, Backend.registerIfAbsent.
  now rewrite Hk, Hl.
Qed.

(** No duplicate creates ticket state: the tickets stay, and so do the
    sub-tickets but for their rejected counts. *)
Lemma duplicate_keeps_ticket_state (p : Backend.Progress) (u : Backend.Upload)
      (k : Backend.MediaKind) (canonical : nat) :
  kind_of (Backend.bytes u) = Some k ->
  Backend.lookup_hash (fingerprint (Backend.bytes u))
                      (Backend.fingerprints (Backend.store p))
  = Some canonical ->
  let s := Backend.store p in
  let s' := Backend.store (process p u) in
  Backend.tickets s' = Backend.tickets s
  /\ Backend.fingerprints s' = Backend.fingerprints s
  /\ map (fun st => (Backend.sub_id st, Backend.parent st, Backend.issue_type st,
                     Backend.status st, Backend.media_count st))
         (Backend.subs s')
     = map (fun st => (Backend.sub_id st, Backend.parent st, Backend.issue_type st,
                       Backend.status st, Backend.media_count st))
           (Backend.subs s).
Proof.
  intros Hk Hl s s'. unfold s'. rewrite (process_duplicate p u Hk Hl). simpl.
  repeat split. rewrite map_map. apply map_ext. intros st.
  destruct (Backend.attached_to (Backend.store p) canonical st); reflexivity.
Qed.

Lemma collapse_seen (issue : string) (dets : list Backend.Detection) :
  (forall d, In d dets -> Backend.det_issue_type d = issue) ->
  Backend.collapse [issue] dets = [].
Proof.
  induction dets as [|d dets IH]; intros H; simpl; [ reflexivity | ].
  rewrite (H d) by now left. rewrite String.eqb_refl. simpl.
  apply IH. intros x Hx. apply H. now right.
Qed.

Lemma collapse_one_issue (issue : string) (dets : list Backend.Detection) :
  dets <> [] ->
  (forall d, In d dets -> Backend.det_issue_type d = issue) ->
  exists d, Backend.collapse [] dets = [d] /\ Backend.det_issue_type d = issue.
Proof.
  destruct dets as [|d dets]; [ contradiction | ]. intros _ H.
  exists d. simpl. rewrite (H d) by now left. split; [ | reflexivity ].
  f_equal. apply collapse_seen. intros x Hx. apply H. now right.
Qed.

(** The first copy in an empty store: one media item, one ticket with
    one sub-ticket. *)
Lemma first_copy (u0 : Backend.Upload) (k : Backend.MediaKind)
      (dets : list Backend.Detection) (issue : string) :
  kind_of (Backend.bytes u0) = Some k ->
  detect k (Backend.bytes u0) = Some dets ->
  dets <> [] ->
  (forall d, In d dets -> Backend.det_issue_type d = issue) ->
  after_copies' u0 k issue 0
    (process {| Backend.store := Backend.empty; Backend.touched := [];
                Backend.duplicates := 0; Backend.failures := [] |} u0).
Proof.
  intros Hk Hd Hne Hall.
  destruct (collapse_one_issue Hne Hall) as (d & Hc & Hi).
  unfold Backend.process, Backend.registerIfAbsent. rewrite Hk. simpl.
  rewrite Hd. unfold Backend.commit_novel. simpl. rewrite Hc. simpl.
  unfold Backend.aggregate. simpl. rewrite Hi.
  unfold after_copies. simpl. repeat split.
  - exists []. repeat split. constructor.
  - exists []. split; [ reflexivity | constructor ].
Qed.

(** One more copy: only the duplicate count, the rejected count and the
    list of (duplicate) media items move. *)
Lemma next_copy (u0 u : Backend.Upload) (k : Backend.MediaKind) (issue : string)
      (j : nat) (p : Backend.Progress) :
  kind_of (Backend.bytes u0) = Some k ->
  Backend.bytes u = Backend.bytes u0 ->
  after_copies' u0 k issue j p ->
  after_copies' u0 k issue (S j) (process p u).
Proof.
  intros Hk Hb (Hfp & Ht & Hs & Ha & (dups & Hm & Hlen & Hdup) & Hd & (more & Hto & Hz)).
  assert (Hl : Backend.lookup_hash (fingerprint (Backend.bytes u))
                 (Backend.fingerprints (Backend.store p)) = Some 0%nat).
  { rewrite Hfp, Hb. simpl. now rewrite N.eqb_refl. }
  rewrite Hb in Hl.
  assert (Hk' : kind_of (Backend.bytes u) = Some k) by now rewrite Hb.
  rewrite <- Hb in Hl.
  rewrite (process_duplicate p u Hk' Hl).
  unfold after_copies, Backend.commit_duplicate, Backend.parents_of,
    Backend.attached_to. simpl.
  rewrite Hfp, Ht, Hs, Ha, Hm, Hd, Hto. simpl. repeat split.
  - exists (dups ++ [Backend.item_of fingerprint u (S (List.length dups)) k true]).
    repeat split.
    + rewrite length_app. simpl. lia.
    + apply Forall_app. split; [ exact Hdup | now constructor ].
  - exists (more ++ [0%nat]). split; [ reflexivity | ].
    apply Forall_app. split; [ exact Hz | now constructor ].
Qed.

Lemma all_copies (u0 : Backend.Upload) (k : Backend.MediaKind) (issue : string)
      (rest : list Backend.Upload) :
  kind_of (Backend.bytes u0) = Some k ->
  (forall u, In u rest -> Backend.bytes u = Backend.bytes u0) ->
  forall j p,
    after_copies' u0 k issue j p ->
    after_copies' u0 k issue (j + List.length rest) (fold_left process rest p).
Proof.
  intros Hk. induction rest as [|u rest IH]; intros Hb j p Hp; simpl.
  - now rewrite Nat.add_0_r.
  - replace (j + S (List.length rest))%nat with (S j + List.length rest)%nat by lia.
    apply IH.
    + intros x Hx. apply Hb. now right.
    + apply next_copy; auto. apply Hb. now left.
Qed.

Lemma nodup_zeros (more : list nat) :
  Forall (eq 0%nat) more -> nodup Nat.eq_dec (0%nat :: more) = [0%nat].
Proof.
  induction 1 as [|x more Hx Hm IH].
  - reflexivity.
  - subst x. change (nodup Nat.eq_dec (0%nat :: 0%nat :: more))
      with (if in_dec Nat.eq_dec 0%nat (0%nat :: more)
            then nodup Nat.eq_dec (0%nat :: more)
            else 0%nat :: nodup Nat.eq_dec (0%nat :: more)).
    destruct (in_dec Nat.eq_dec 0%nat (0%nat :: more)) as [_|F];
      [ exact IH | exfalso; apply F; now left ].
Qed.

Lemma filter_all {A} (f : A -> bool) (l : list A) :
  Forall (fun x => f x = true) l -> filter f l = l.
Proof.
  induction 1 as [|x l Hx Hl IH]; simpl; [ reflexivity | ].
  now rewrite Hx, IH.
Qed.

#[local] Abbreviation store_after' :=
  (store_after_copies fingerprint authority_mapping).
#[local] Abbreviation commit :=
  (Backend.commit fingerprint kind_of detect authority_mapping same_bucket).
#[local] Abbreviation run :=
  (Backend.run fingerprint kind_of detect authority_mapping same_bucket).

(** The first commit on an empty store, by whichever batch: one media
    item, one ticket with one sub-ticket, no duplicate counted. *)
Lemma first_commit (p : Backend.Progress) (u0 : Backend.Upload)
      (k : Backend.MediaKind) (dets : list Backend.Detection) (issue : string) :
  Backend.store p = Backend.empty ->
  kind_of (Backend.bytes u0) = Some k ->
  detect k (Backend.bytes u0) = Some dets ->
  dets <> [] ->
  (forall d, In d dets -> Backend.det_issue_type d = issue) ->
  store_after' u0 k issue 0 (Backend.store (process p u0))
  /\ Backend.duplicates (process p u0) = Backend.duplicates p.
Proof.
  intros Hs Hk Hd Hne Hall.
  destruct (collapse_one_issue Hne Hall) as (d & Hc & Hi).
  unfold Backend.process, Backend.registerIfAbsent. rewrite Hk, Hs. simpl.
  rewrite Hd. unfold Backend.commit_novel. simpl. rewrite Hc. simpl.
  unfold Backend.aggregate. simpl. rewrite Hi.
  unfold store_after_copies. simpl. repeat split.
  exists []. repeat split. constructor.
Qed.

(** A later commit of the same content, by whichever batch: one more
    duplicate item, one more rejected, one more duplicate counted. *)
Lemma next_commit (p : Backend.Progress) (u0 u : Backend.Upload)
      (k : Backend.MediaKind) (issue : string) (j : nat) :
  kind_of (Backend.bytes u0) = Some k ->
  Backend.bytes u = Backend.bytes u0 ->
  store_after' u0 k issue j (Backend.store p) ->
  store_after' u0 k issue (S j) (Backend.store (process p u))
  /\ Backend.duplicates (process p u) = S (Backend.duplicates p).
Proof.
  intros Hk Hb (Hfp & Ht & Hs & Ha & (dups & Hm & Hlen & Hdup)).
  assert (Hl : Backend.lookup_hash (fingerprint (Backend.bytes u))
                 (Backend.fingerprints (Backend.store p)) = Some 0%nat).
  { rewrite Hfp, Hb. simpl. now rewrite N.eqb_refl. }
  assert (Hk' : kind_of (Backend.bytes u) = Some k) by now rewrite Hb.
  rewrite (process_duplicate p u Hk' Hl).
  unfold store_after_copies, Backend.commit_duplicate, Backend.attached_to. simpl.
  rewrite Hfp, Ht, Hs, Ha, Hm. simpl. repeat split.
  exists (dups ++ [Backend.item_of fingerprint u (S (List.length dups)) k true]).
  repeat split.
  - rewrite length_app. simpl. lia.
  - apply Forall_app. split; [ exact Hdup | now constructor ].
Qed.

Lemma set_flight_sum (f : Backend.InFlight -> nat) (l : list Backend.InFlight)
      (i : nat) (b b' : Backend.InFlight) :
  nth_error l i = Some b ->
  (list_sum (map f (Backend.set_flight l i b')) + f b
   = list_sum (map f l) + f b')%nat.
Proof.
  revert i. induction l as [|x l IH]; intros [|i] H; simpl in *; try discriminate.
  - inversion H; subst. lia.
  - specialize (IH i H). lia.
Qed.

Lemma set_flight_In (l : list Backend.InFlight) (i : nat)
      (b' x : Backend.InFlight) :
  In x (Backend.set_flight l i b') -> x = b' \/ In x l.
Proof.
  revert i. induction l as [|y l IH]; intros [|i] H; simpl in *; try tauto.
  - destruct H as [H|H]; auto.
  - destruct H as [H|H]; auto. destruct (IH i H); auto.
Qed.

(** Every commit keeps the copies accounted for. *)
Lemma commit_keeps_copies (content : list Byte.byte) (k : Backend.MediaKind)
      (dets : list Backend.Detection) (issue : string) (total : nat)
      (sys : Backend.System) (i : nat) :
  kind_of content = Some k ->
  detect k content = Some dets ->
  dets <> [] ->
  (forall d, In d dets -> Backend.det_issue_type d = issue) ->
  copies_in_flight fingerprint authority_mapping content k issue total sys ->
  copies_in_flight fingerprint authority_mapping content k issue total (commit sys i).
Proof.
  intros Hk Hd Hne Hall [Hsame Hcase]. unfold Backend.commit.
  destruct (nth_error (Backend.flights sys) i) as [b|] eqn:Eb;
    [ | split; assumption ].
  destruct (Backend.pending b) as [|u rest] eqn:Ep; [ split; assumption | ].
  assert (Hin : In b (Backend.flights sys)) by (eapply nth_error_In; eauto).
  assert (Hu : Backend.bytes u = content).
  { apply (Hsame b u Hin). rewrite Ep. now left. }
  set (p := {| Backend.store := Backend.shared sys;
               Backend.touched := Backend.batch_touched b;
               Backend.duplicates := Backend.batch_duplicates b;
               Backend.failures := Backend.batch_failures b |}).
  set (b' := {| Backend.pending := rest;
                Backend.batch_touched := Backend.touched (process p u);
                Backend.batch_duplicates := Backend.duplicates (process p u);
                Backend.batch_failures := Backend.failures (process p u) |}).
  pose proof (set_flight_sum (fun x => List.length (Backend.pending x))
                             (Backend.flights sys) i b' Eb) as Hrem.
  pose proof (set_flight_sum Backend.batch_duplicates
                             (Backend.flights sys) i b' Eb) as Hdup.
  cbv beta in Hrem, Hdup. rewrite Ep in Hrem.
  cbn [List.length Backend.pending Backend.batch_duplicates b'] in Hrem, Hdup.
  split.
  - intros x v Hx Hv. cbn [Backend.flights] in Hx.
    apply set_flight_In in Hx. destruct Hx as [->|Hx].
    + apply (Hsame b v Hin). rewrite Ep. right. exact Hv.
    + now apply (Hsame x v).
  - unfold Backend.remaining, Backend.counted_duplicates in *.
    cbn [Backend.shared Backend.flights].
    destruct Hcase as [(Hempty & Hr & Hc)|(u0 & j & Hu0 & Hst & Hr & Hc)].
    + right. exists u, 0%nat.
      rewrite <- Hu in Hk, Hd.
      destruct (@first_commit p u k dets issue Hempty Hk Hd Hne Hall) as [Hst' Hd'].
      rewrite Hd' in Hdup. cbn [p Backend.duplicates] in Hdup.
      split; [ exact Hu | ]. split; [ exact Hst' | ]. split; lia.
    + right. exists u0, (S j).
      rewrite <- Hu0 in Hk.
      assert (Hb : Backend.bytes u = Backend.bytes u0) by congruence.
      destruct (@next_commit p u0 u k issue j Hk Hb Hst) as [Hst' Hd'].
      rewrite Hd' in Hdup. cbn [p Backend.duplicates] in Hdup.
      split; [ exact Hu0 | ]. split; [ exact Hst' | ]. split; lia.
Qed.

Lemma run_keeps_copies (content : list Byte.byte) (k : Backend.MediaKind)
      (dets : list Backend.Detection) (issue : string) (total : nat)
      (schedule : list nat) :
  kind_of content = Some k ->
  detect k content = Some dets ->
  dets <> [] ->
  (forall d, In d dets -> Backend.det_issue_type d = issue) ->
  forall sys,
    copies_in_flight fingerprint authority_mapping content k issue total sys ->
    copies_in_flight fingerprint authority_mapping content k issue total
                     (run sys schedule).
Proof.
  intros Hk Hd Hne Hall. unfold Backend.run.
  induction schedule as [|i schedule IH]; intros sys H; simpl; [ exact H | ].
  apply IH. eapply commit_keeps_copies; eauto.
Qed.

Lemma start_holds_copies (content : list Byte.byte) (k : Backend.MediaKind)
      (issue : string) (batches : list (list Backend.Upload)) :
  (forall files, In files batches -> (List.length files <= max_batch)%nat) ->
  (forall files u, In files batches -> In u files -> Backend.bytes u = content) ->
  copies_in_flight fingerprint authority_mapping content k issue
                   (List.length (List.concat batches))
                   (Backend.start max_batch Backend.empty batches).
Proof.
  intros Hmax Hsame. split.
  - intros b u Hb Hu. cbn [Backend.start Backend.flights] in Hb.
    apply in_map_iff in Hb. destruct Hb as (files & <- & Hf).
    cbn [Backend.accept Backend.pending] in Hu.
    rewrite firstn_all2 in Hu by (apply Hmax; exact Hf).
    exact (Hsame files u Hf Hu).
  - left. split; [ reflexivity | ].
    unfold Backend.remaining, Backend.counted_duplicates.
    cbn [Backend.start Backend.flights]. rewrite !map_map.
    cbn [Backend.accept Backend.pending Backend.batch_duplicates]. split.
    + induction batches as [|files batches IH]; simpl; [ reflexivity | ].
      rewrite length_app, firstn_all2 by (apply Hmax; now left).
      f_equal. apply IH.
      * intros x Hx. apply Hmax. now right.
      * intros x u Hx. apply Hsame. now right.
    + clear. induction batches as [|files batches IH]; simpl; auto.
Qed.

Lemma nothing_remaining (sys : Backend.System) :
  (forall b, In b (Backend.flights sys) -> Backend.pending b = []) ->
  Backend.remaining sys = 0%nat.
Proof.
  unfold Backend.remaining. induction (Backend.flights sys) as [|b l IH];
    intros H; simpl; [ reflexivity | ].
  rewrite (H b) by now left. simpl. apply IH. intros x Hx. apply H. now right.
Qed.


End DedupFacts.



(** ** Side facts *)

(** The gateway refuses an empty batch as [InvalidInput], whatever the
    store holds; nothing is returned besides the failure. *)
Lemma gateway_rejects_empty_batch
      (fingerprint : list Byte.byte -> N)
      (kind_of : list Byte.byte -> option Backend.MediaKind)
      (detect : Backend.MediaKind -> list Byte.byte -> option (list Backend.Detection))
      (authority_mapping : list (string * string))
      (same_bucket : Backend.Location -> Z -> Backend.Location -> Z -> bool)
      (max_batch : nat) (message_for : nat -> string) (s : Backend.Store) :
  Backend.submitBatch fingerprint kind_of detect authority_mapping same_bucket
                      max_batch message_for s []
  = inl Backend.InvalidInput.
Proof. reflexivity. Qed.

(** The ticket log asks for the whole listing: with no filter the
    endpoint has no query string, and a status filter would travel as
    the [status] parameter. *)
Lemma getTickets_without_filters (env : Api.Env) :
  Api.URLSearchParams_toString env [] = "" ->
  Api.getTickets_endpoint env {| Api.filter_status := None;
                                 Api.filter_issue_type := None |}
  = "/api/complaints/tickets".
Proof.
  intros H. unfold Api.getTickets_endpoint, Api.getTickets_params.
  cbn [Api.filter_status Api.filter_issue_type app]. now rewrite H.
Qed.

Lemma getTickets_status_parameter (s : string) :
  s <> "" ->
  Api.getTickets_params {| Api.filter_status := Some s;
                           Api.filter_issue_type := None |}
  = [("status", s)].
Proof.
  intros H. unfold Api.getTickets_params. simpl.
  apply String.eqb_neq in H. now rewrite H.
Qed.

(** A sub-ticket coordinate of 0 is replaced by the ticket's: with a
    truthy ticket latitude the sub-ticket is on the map, at the
    ticket's latitude. *)
Lemma zero_latitude_falls_back_to_ticket
      (tickets : list Ticket) (ticket : Ticket) (subTicket : SubTicket) (q : Q) :
  In (ticket, subTicket) (flat_pairs tickets) ->
  latitude subTicket = Some q -> q == 0 ->
  Js.truthy_num (t_latitude ticket) = true ->
  Js.truthy_num (MapView.lng_of ticket subTicket) = true ->
  MapView.lat_of ticket subTicket = t_latitude ticket
  /\ has_marker tickets ticket subTicket.
Proof.
  intros Hin Hq Hz Ht Hlng.
  assert (E : MapView.lat_of ticket subTicket = t_latitude ticket).
  { unfold MapView.lat_of, Js.or_num. now rewrite (truthy_num_zero Hq Hz). }
  split; [ exact E | ].
  eapply marker_iff_location; [ eassumption | ].
  split; [ now rewrite E | exact Hlng ].
Qed.

(* ===================================================================== *)
(** * Further properties of the front end *)
(* ===================================================================== *)

(** ** services/api: what every call does *)

(** X1.  The request wrapper behind the ticket calls returns data
    exactly when the response is OK and its body parses, after its one
    request; any failure (a rejected fetch, a response that is not OK,
    a body that does not parse) is logged once and thrown on. *)
Theorem apiRequest_returns_parsed_body_or_logs
        (env : Api.Env) (endpoint : string) (options : Api.Options) :
  let request :=
    Api.request_of (Api.API_BASE_URL env ++ endpoint)%string options in
  let c := Api.apiRequest env endpoint options in
  (forall j, Js.outcome c = inr j
             <-> exists response,
                 Api.fetch env request = inr response
                 /\ Api.ok response = true
                 /\ Api.JSON_parse env (Api.text response) = inr j)
  /\ (forall j, Js.outcome c = inr j -> Js.trace c = [Api.Fetch request])
  /\ (forall e, Js.outcome c = inl e ->
                Js.trace c
                = [Api.Fetch request;
                   Api.ConsoleError ("API Error (" ++ endpoint ++ "):")%string e]).
Proof.
  intros request c. unfold c, Api.apiRequest, Api.do_fetch. fold request.
  destruct (Api.fetch env request) as [err|response] eqn:Ef;
    cbn [Js.bind Js.try_catch Js.emit Js.throw Js.outcome Js.trace fst snd app].
  - repeat split; try discriminate.
    + intros (r & F & _). discriminate.
    + intros e E. inversion E. reflexivity.
  - destruct (Api.ok response) eqn:Eok;
      cbn [negb Js.bind Js.try_catch Js.emit Js.throw Js.outcome Js.trace fst snd app].
    + unfold Api.json_of.
      destruct (Api.JSON_parse env (Api.text response)) as [err|v] eqn:Ep;
        cbn [Js.bind Js.try_catch Js.emit Js.throw Js.outcome Js.trace fst snd app].
      * repeat split; try discriminate.
        -- intros (r & F & _ & P). inversion F; subst. congruence.
        -- intros e E. inversion E. reflexivity.
      * repeat split; try discriminate.
        -- intros E. inversion E; subst. now exists response.
        -- intros (r & F & _ & P). inversion F; subst. congruence.
    + repeat split; try discriminate.
      * intros (r & F & O & _). inversion F; subst. congruence.
      * intros e E. inversion E. reflexivity.
Qed.

Lemma apiRequest_returns_parsed_body_or_logs_witness :
  let env := Sample.env (Sample.response true 200 "upload-result") in
  (exists response,
      Api.fetch env (Api.request_of "/api/complaints/tickets" Api.no_options)
      = inr response
      /\ Api.ok response = true
      /\ Api.JSON_parse env (Api.text response) = inr Sample.upload_json)
  /\ Js.outcome (Api.apiRequest env "/api/complaints/tickets" Api.no_options)
     = inr Sample.upload_json.
Proof.
  intros env.
  assert (H : exists response,
             Api.fetch env (Api.request_of "/api/complaints/tickets" Api.no_options)
             = inr response
             /\ Api.ok response = true
             /\ Api.JSON_parse env (Api.text response) = inr Sample.upload_json).
  { eexists. repeat split. }
  split; [ exact H | ].
  destruct (apiRequest_returns_parsed_body_or_logs
              env "/api/complaints/tickets" Api.no_options) as (Hiff & _).
  apply Hiff. exact H.
Defined.

(** X2.  The upload call makes exactly one request and logs nothing:
    a POST to [/api/complaints/batch] under the base URL, with no
    header of its own, whose form holds the files in order, each
    under the name [files].  It returns data exactly when the
    response is OK and its body parses, and a rejected fetch is
    thrown on unchanged. *)
Theorem uploadComplaints_one_request_then_data_or_error
        (env : Api.Env) (files : list Api.File) :
  let request :=
    {| Api.req_url := (Api.API_BASE_URL env ++ "/api/complaints/batch")%string;
       Api.req_method := Some "POST";
       Api.req_headers := [];
       Api.req_body := Some (map (fun file => ("files", file)) files) |} in
  let c := Api.uploadComplaints env files in
  Js.trace c = [Api.Fetch request]
  /\ Api.upload_request env files = request
  /\ option_map (map snd) (Api.req_body request) = Some files
  /\ (forall j, Js.outcome c = inr j
                <-> exists response,
                    Api.fetch env request = inr response
                    /\ Api.ok response = true
                    /\ Api.JSON_parse env (Api.text response) = inr j)
  /\ (forall e, Api.fetch env request = inl e -> Js.outcome c = inl e).
Proof.
  intros request c. unfold c, Api.uploadComplaints, Api.do_fetch.
  change (Api.upload_request env files) with request.
  split; [ | split; [ reflexivity | split ] ].
  - destruct (Api.fetch env request) as [err|response]; [ reflexivity | ].
    cbn [Js.bind]. destruct (Api.ok response); cbn [negb].
    + unfold Api.json_of. destruct (Api.JSON_parse env _); reflexivity.
    + unfold Api.json_of.
      destruct (Api.JSON_parse env _) as [err|errorData];
        cbn [Js.try_catch Js.bind Js.ret]; [ reflexivity | ].
      destruct (Api.get env errorData "detail"); reflexivity.
  - simpl. rewrite map_map. simpl. now rewrite map_id.
  - destruct (Api.fetch env request) as [err|response] eqn:Ef.
    + split; [ | intros e E; inversion E; reflexivity ].
      intros j. split; [ discriminate | intros (r & F & _); discriminate ].
    + split; [ | discriminate ].
      intros j. cbn [Js.bind]. destruct (Api.ok response) eqn:Eok; cbn [negb].
      * unfold Api.json_of.
        destruct (Api.JSON_parse env (Api.text response)) as [err|v] eqn:Ep; simpl.
        -- split; [ discriminate | ].
           intros (r & F & _ & P). inversion F; subst. congruence.
        -- split.
           ++ intros E. inversion E; subst. now exists response.
           ++ intros (r & F & _ & P). inversion F; subst. congruence.
      * split.
        -- unfold Api.json_of.
           destruct (Api.JSON_parse env _) as [err|errorData];
             cbn [Js.try_catch Js.bind Js.ret]; [ discriminate | ].
           destruct (Api.get env errorData "detail"); discriminate.
        -- intros (r & F & O & _). inversion F; subst. congruence.
Qed.

Lemma uploadComplaints_one_request_then_data_or_error_witness :
  let env := Sample.env (Sample.response true 200 "upload-result") in
  (exists response,
      Api.fetch env (Api.upload_request env [Sample.photo]) = inr response
      /\ Api.ok response = true
      /\ Api.JSON_parse env (Api.text response) = inr Sample.upload_json)
  /\ Js.outcome (Api.uploadComplaints env [Sample.photo]) = inr Sample.upload_json.
Proof.
  intros env.
  assert (H : exists response,
             Api.fetch env (Api.upload_request env [Sample.photo]) = inr response
             /\ Api.ok response = true
             /\ Api.JSON_parse env (Api.text response) = inr Sample.upload_json).
  { eexists. repeat split. }
  split; [ exact H | ].
  destruct (uploadComplaints_one_request_then_data_or_error env [Sample.photo])
    as (_ & _ & _ & Hiff & _).
  apply Hiff. exact H.
Defined.

(** X3.  A filter that is absent or the empty string is left out of the
    query: the listing request is the one of the filters that remain,
    [status] before [issue_type], each at most once. *)
Theorem getTickets_sends_only_set_filters (env : Api.Env) (filters : Api.Filters) :
  Api.getTickets env filters
  = Api.getTickets env
      {| Api.filter_status := Js.or_str (Api.filter_status filters) None;
         Api.filter_issue_type := Js.or_str (Api.filter_issue_type filters) None |}
  /\ (forall k v,
        In (k, v) (Api.getTickets_params filters)
        <-> (k = "status" /\ Api.filter_status filters = Some v /\ v <> "")
            \/ (k = "issue_type" /\ Api.filter_issue_type filters = Some v /\ v <> ""))
  /\ (List.length (Api.getTickets_params filters) <= 2)%nat
  /\ (Api.filter_status filters = None \/ Api.filter_status filters = Some "" ->
      Api.filter_issue_type filters = None \/ Api.filter_issue_type filters = Some "" ->
      Api.getTickets_params filters = []).
Proof.
  destruct filters as [st it]. unfold Api.getTickets, Api.getTickets_endpoint,
    Api.getTickets_params, Js.or_str. simpl.
  split; [ | split; [ | split ] ].
  - destruct st as [s|], it as [i|]; simpl;
      try destruct (String.eqb s "") eqn:Es;
      try destruct (String.eqb i "") eqn:Ei;
      simpl; rewrite ?Es, ?Ei; simpl; reflexivity.
  - intros k v.
    destruct st as [s|], it as [i|]; simpl;
      try destruct (String.eqb_spec s ""); try destruct (String.eqb_spec i "");
      simpl; split; intros H;
      repeat match goal with
             | H : _ \/ _ |- _ => destruct H
             | H : _ /\ _ |- _ => destruct H
             | H : (_, _) = (_, _) |- _ => inversion H; subst; clear H
             | H : False |- _ => contradiction
             | H : Some _ = Some _ |- _ => inversion H; subst; clear H
             | H : None = Some _ |- _ => discriminate
             end; auto; try contradiction; try congruence.
  - destruct st as [s|], it as [i|]; simpl;
      try destruct (String.eqb s ""); try destruct (String.eqb i ""); simpl; lia.
  - intros [Hs|Hs] [Hi|Hi]; inversion Hs; inversion Hi; subst; reflexivity.
Qed.

Lemma getTickets_sends_only_set_filters_witness :
  let filters := {| Api.filter_status := Some ""; Api.filter_issue_type := None |} in
  (Api.filter_status filters = None \/ Api.filter_status filters = Some "")
  /\ (Api.filter_issue_type filters = None \/ Api.filter_issue_type filters = Some "")
  /\ Api.getTickets_params filters = [].
Proof.
  intros filters.
  assert (H1 : Api.filter_status filters = None \/ Api.filter_status filters = Some "")
    by (right; reflexivity).
  assert (H2 : Api.filter_issue_type filters = None
               \/ Api.filter_issue_type filters = Some "")
    by (left; reflexivity).
  split; [ exact H1 | ]. split; [ exact H2 | ].
  destruct (getTickets_sends_only_set_filters
              (Sample.env (Sample.response true 200 "null")) filters)
    as (_ & _ & _ & H).
  exact (H H1 H2).
Defined.

(** ** services/api: the detection calls *)

Section DetectFacts.
Variable env : Api.Env.

Lemma detect_not_ok (path fallback : string) (file : Api.File)
      (response : Api.Response) :
  let c :=
    Js.bind (Api.do_fetch env (ApiCalls.detect_request env path file))
      (fun response =>
         if negb (Api.ok response)
         then
           Js.bind
             (Js.try_catch (Api.json_of env response)
                (fun _ => Js.ret (Js.JObj [("detail", Js.JStr (Api.statusText response))])))
             (fun errorData =>
                Js.bind ([], Api.get env errorData "detail")
                  (fun detail =>
                     Js.throw (Js.Error
                                 (Api.message_or env detail
                                    (fallback ++ Js.show_int (Api.status response))%string))))
         else Api.json_of env response) in
  Api.fetch env (ApiCalls.detect_request env path file) = inr response ->
  Api.ok response = false ->
  (exists e, c = ([Api.Fetch (ApiCalls.detect_request env path file)], inl e))
  /\ (forall d, server_detail env response d ->
                Js.outcome c = inl (Js.Error (Api.String_of env d)))
  /\ (forall err, Api.JSON_parse env (Api.text response) = inl err ->
                  Js.outcome c
                  = inl (Js.Error
                           (if String.eqb (Api.statusText response) ""
                            then (fallback ++ Js.show_int (Api.status response))%string
                            else Api.statusText response))).
Proof.
  intros c Hf Hok. unfold c, Api.do_fetch. rewrite Hf. cbn [Js.bind].
  rewrite Hok. cbn [negb]. unfold Api.json_of.
  split; [ | split ].
  - destruct (Api.JSON_parse env (Api.text response)) as [err|errorData];
      cbn [Js.try_catch Js.bind Js.ret].
    + simpl. eexists. reflexivity.
    + destruct (Api.get env errorData "detail"); simpl; eexists; reflexivity.
  - intros d (fields & Hp & Hd & Ht). rewrite Hp.
    cbn [Js.try_catch Js.bind Js.ret Api.get]. rewrite Hd.
    cbn [Js.bind Js.throw Js.outcome snd app].
    unfold Api.message_or. now rewrite Ht.
  - intros err Hp. rewrite Hp. simpl. unfold Api.message_or. simpl.
    destruct (String.eqb (Api.statusText response) ""); reflexivity.
Qed.


End DetectFacts.


(** ** TicketLog: pages *)

Lemma slice_chunk {A} (l : list A) (start : Z) (n : nat) :
  0 <= start ->
  Js.slice l start (start + Z.of_nat n) = firstn n (skipn (Z.to_nat start) l).
Proof.
  intros Hs. unfold Js.slice.
  assert (E1 : (start <? 0) = false) by (apply Z.ltb_ge; lia).
  assert (E2 : (start + Z.of_nat n <? 0) = false) by (apply Z.ltb_ge; lia).
  rewrite E1, E2.
  set (len := Z.of_nat (List.length l)).
  destruct (Z.le_gt_cases len start) as [Hle|Hgt].
  - rewrite (skipn_all2 l (n := Z.to_nat start)) by (unfold len in Hle; lia).
    rewrite (skipn_all2 l (n := Z.to_nat (Z.min start len)))
      by (unfold len in *; lia).
    now rewrite !firstn_nil.
  - replace (Z.min start len) with start by lia.
    set (rest := skipn (Z.to_nat start) l).
    assert (Hrest : List.length rest = Z.to_nat (len - start)).
    { unfold rest. rewrite length_skipn. unfold len. lia. }
    destruct (Z.le_gt_cases (start + Z.of_nat n) len) as [Hn|Hn].
    + f_equal. lia.
    + replace (Z.to_nat (Z.min (start + Z.of_nat n) len - start))
        with (List.length rest) by lia.
      rewrite firstn_all. symmetry. apply firstn_all2. lia.
Qed.

Lemma firstn_plus {A} (a b : nat) (l : list A) :
  firstn (a + b) l = firstn a l ++ firstn b (skipn a l).
Proof.
  rewrite firstn_skipn_comm.
  rewrite <- (firstn_skipn a (firstn (a + b) l)) at 1.
  f_equal. rewrite firstn_firstn. f_equal. lia.
Qed.

Lemma chunks_concat {A} (size : nat) (l : list A) (m : nat) :
  List.concat (map (fun k => firstn size (skipn (size * k) l)) (seq 0 m))
  = firstn (size * m) l.
Proof.
  induction m as [|m IH].
  - now rewrite Nat.mul_0_r.
  - rewrite seq_S, map_app, concat_app, IH. simpl. rewrite app_nil_r.
    replace (size * S m)%nat with (size * m + size)%nat by lia.
    now rewrite firstn_plus.
Qed.

Section PageFacts.
Variable Date_parse : string -> option Z.
Variables selectedDistortion selectedStatus selectedDate : string.
Variable tickets : list TicketLog.Row.

#[local] Abbreviation shown :=
  (TicketLog.filteredTickets Date_parse selectedDistortion selectedStatus
                             selectedDate tickets).
#[local] Abbreviation page :=
  (TicketLog.paginatedTickets Date_parse selectedDistortion selectedStatus
                              selectedDate tickets).
#[local] Abbreviation pages :=
  (TicketLog.totalPages Date_parse selectedDistortion selectedStatus
                        selectedDate tickets).

Lemma page_chunk (p : Z) :
  1 <= p -> page p = firstn 10 (skipn (10 * Z.to_nat (p - 1)) shown).
Proof.
  intros Hp. unfold TicketLog.paginatedTickets, TicketLog.endIndex,
    TicketLog.startIndex, TicketLog.ITEMS_PER_PAGE.
  etransitivity.
  - refine (@slice_chunk _ _ ((p - 1) * 10) 10%nat _). lia.
  - do 2 f_equal. lia.
Qed.

Lemma pages_bounds :
  0 <= pages
  /\ Z.of_nat (List.length shown) <= 10 * pages
  /\ 10 * pages < Z.of_nat (List.length shown) + 10.
Proof.
  unfold TicketLog.totalPages, TicketLog.ITEMS_PER_PAGE.
  set (n := Z.of_nat (List.length shown)).
  pose proof (Z.div_mod (n + 10 - 1) 10 ltac:(lia)) as Hd.
  pose proof (Z.mod_pos_bound (n + 10 - 1) 10 ltac:(lia)) as Hm.
  assert (0 <= n) by (unfold n; lia).
  repeat split; lia.
Qed.

Lemma page_nonempty (p : Z) : 1 <= p <= pages -> page p <> [].
Proof.
  intros Hp. rewrite page_chunk by lia.
  destruct pages_bounds as (_ & _ & Hub).
  intros E. apply (f_equal (@List.length _)) in E.
  rewrite length_firstn, length_skipn in E. cbn [List.length] in E.
  unfold TicketLog.totalPages, TicketLog.ITEMS_PER_PAGE in *. lia.
Qed.

Lemma page_beyond (p : Z) : 1 <= p -> pages < p -> page p = [].
Proof.
  intros Hp Hq. rewrite page_chunk by lia.
  destruct pages_bounds as (_ & Hlb & _).
  rewrite skipn_all2 by lia. apply firstn_nil.
Qed.

Lemma numbered_nth (startIndex index : Z) (rows : list TicketLog.Row) (i : nat) :
  nth_error (TicketLogPage.numbered startIndex index rows) i
  = option_map (fun row => (startIndex + index + Z.of_nat i + 1, row))
               (nth_error rows i).
Proof.
  revert index i. induction rows as [|r rows IH]; intros index i.
  - now destruct i.
  - destruct i as [|i]; simpl.
    + do 2 f_equal. lia.
    + rewrite IH. destruct (nth_error rows i); simpl; [ | reflexivity ].
      do 2 f_equal. lia.
Qed.

(** X5.  The pages 1 to [totalPages], one after the other, are the filtered
    and sorted rows, each row once: every one of these pages has a
    row, later pages have none, and the number printed beside a row is
    its position, from 1, in the whole sequence. *)
Theorem ticket_log_pages_partition_rows :
  List.concat (map (fun p => page (Z.of_nat p)) (seq 1 (Z.to_nat pages))) = shown
  /\ (forall p, 1 <= p <= pages -> page p <> [])
  /\ (forall p, 1 <= p -> pages < p -> page p = [])
  /\ (forall p i k row,
        1 <= p ->
        nth_error (TicketLogPage.numbered (TicketLog.startIndex p) 0 (page p)) i
        = Some (k, row) ->
        k = (p - 1) * 10 + Z.of_nat i + 1
        /\ nth_error shown (Z.to_nat (k - 1)) = Some row).
Proof.
  split; [ | split; [ exact page_nonempty | split; [ exact page_beyond | ] ] ].
  - rewrite <- seq_shift, map_map.
    rewrite (map_ext _ (fun k => firstn 10 (skipn (10 * k) shown))).
    + rewrite chunks_concat. apply firstn_all2.
      destruct pages_bounds as (H0 & Hlb & _). lia.
    + intros k. rewrite page_chunk by lia. do 2 f_equal. lia.
  - intros p i k row Hp H. rewrite numbered_nth in H.
    destruct (nth_error (page p) i) as [r|] eqn:E; [ | discriminate ].
    simpl in H. inversion H; subst. clear H.
    unfold TicketLog.startIndex, TicketLog.ITEMS_PER_PAGE.
    split; [ lia | ].
    rewrite page_chunk in E by lia.
    rewrite nth_error_firstn in E.
    destruct (i <? 10)%nat; [ | discriminate ].
    rewrite nth_error_skipn in E. rewrite <- E. f_equal. lia.
Qed.

End PageFacts.

(** ** TicketLog: the pager and the load *)

Section PagerFacts.
Variable Date_parse : string -> option Z.

#[local] Abbreviation total := (TicketLogPage.totalPages Date_parse).

Lemma click_keeps_page_in_range (s s' : TicketLogPage.State)
      (a : TicketLogPage.Action) :
  1 <= TicketLogPage.currentPage s ->
  (TicketLogPage.currentPage s = 1 \/ TicketLogPage.currentPage s <= total s) ->
  TicketLogPage.click Date_parse s a = Some s' ->
  1 <= TicketLogPage.currentPage s'
  /\ (TicketLogPage.currentPage s' = 1 \/ TicketLogPage.currentPage s' <= total s')
  /\ TicketLogPage.tickets s' = TicketLogPage.tickets s
  /\ TicketLogPage.loading s' = TicketLogPage.loading s.
Proof.
  intros H1 H2 Hc. destruct a; simpl in Hc.
  - inversion Hc; subst. simpl. auto.
  - destruct (_ && _) in Hc; inversion Hc; subst. simpl. auto with zarith.
  - destruct (_ && _) in Hc; inversion Hc; subst. simpl. auto with zarith.
  - destruct (TicketLogPage.showFilters s); inversion Hc; subst. simpl.
    auto with zarith.
  - destruct (1 <? total s) eqn:Et; [ | discriminate ].
    destruct (TicketLogPage.currentPage s =? 1) eqn:E1; [ discriminate | ].
    inversion Hc; subst. apply Z.eqb_neq in E1.
    change (total (TicketLogPage.with_page s (TicketLogPage.currentPage s - 1)))
      with (total s).
    simpl. repeat split; (lia || reflexivity).
  - destruct (1 <? total s) eqn:Et; [ | discriminate ].
    destruct (TicketLogPage.currentPage s =? total s) eqn:E1; [ discriminate | ].
    inversion Hc; subst. apply Z.eqb_neq in E1. apply Z.ltb_lt in Et.
    change (total (TicketLogPage.with_page s (TicketLogPage.currentPage s + 1)))
      with (total s).
    simpl. repeat split; (lia || reflexivity).
  - destruct (1 <? total s) eqn:Et; [ | discriminate ].
    destruct (1 <=? i) eqn:Ea; [ | discriminate ].
    destruct (i <=? total s) eqn:Eb; [ | discriminate ].
    inversion Hc; subst. apply Z.leb_le in Ea, Eb.
    change (total (TicketLogPage.with_page s i)) with (total s).
    simpl. repeat split; (lia || reflexivity).
Qed.

(** X6.  However the user pages and filters, starting on page 1, the
    current page stays between 1 and the last page (it is page 1 when
    nothing matches): so whenever some row matches the filters, the
    table shows rows. *)
Theorem ticket_log_pager_stays_in_range
        (s s' : TicketLogPage.State) (actions : list TicketLogPage.Action) :
  TicketLogPage.currentPage s = 1 ->
  TicketLogPage.clicks Date_parse s actions = Some s' ->
  1 <= TicketLogPage.currentPage s'
  /\ (TicketLogPage.currentPage s' = 1
      \/ TicketLogPage.currentPage s' <= total s')
  /\ TicketLogPage.tickets s' = TicketLogPage.tickets s
  /\ (TicketLogPage.filteredTickets Date_parse s' <> [] ->
      TicketLogPage.paginatedTickets Date_parse s' <> []).
Proof.
  intros Hstart Hrun.
  assert (Hinv : 1 <= TicketLogPage.currentPage s
                 /\ (TicketLogPage.currentPage s = 1
                     \/ TicketLogPage.currentPage s <= total s)) by lia.
  clear Hstart.
  assert (H : 1 <= TicketLogPage.currentPage s'
              /\ (TicketLogPage.currentPage s' = 1
                  \/ TicketLogPage.currentPage s' <= total s')
              /\ TicketLogPage.tickets s' = TicketLogPage.tickets s).
  { revert s Hinv Hrun. induction actions as [|a actions IH]; intros s [H1 H2] Hrun.
    - simpl in Hrun. inversion Hrun; subst. auto.
    - simpl in Hrun.
      destruct (TicketLogPage.click Date_parse s a) as [s1|] eqn:Ec;
        [ | discriminate ].
      destruct (click_keeps_page_in_range s a H1 H2 Ec) as (A & B & C & _).
      destruct (IH s1 (conj A B) Hrun) as (A' & B' & C').
      repeat split; auto. congruence. }
  destruct H as (A & B & C). repeat split; auto.
  intros Hne.
  unfold TicketLogPage.paginatedTickets.
  apply page_nonempty. split; [ exact A | ].
  destruct B as [B|B]; [ | exact B ].
  rewrite B.
  destruct (pages_bounds Date_parse (TicketLogPage.selectedDistortion s')
                         (TicketLogPage.selectedStatus s')
                         (TicketLogPage.selectedDate s')
                         (TicketLogPage.tickets s')) as (_ & Hlb & _).
  unfold TicketLogPage.filteredTickets in Hne.
  destruct (TicketLog.filteredTickets Date_parse (TicketLogPage.selectedDistortion s')
              (TicketLogPage.selectedStatus s') (TicketLogPage.selectedDate s')
              (TicketLogPage.tickets s')) eqn:El; [ contradiction | ].
  cbn [List.length] in Hlb. lia.
Qed.

Lemma after_services (s : TicketLogPage.State) (tr : list Api.Event) :
  TicketLogPage.after s (map TicketLogPage.Service tr) = s.
Proof.
  unfold TicketLogPage.after. revert s.
  induction tr as [|e tr IH]; intros s; simpl; [ reflexivity | apply IH ].
Qed.

Lemma flattened_rows (tickets : list Ticket) :
  TicketLog.fetchTickets (Some tickets)
  = map (fun p => TicketLog.row_of (fst p) (snd p)) (flat_pairs tickets).
Proof.
  unfold TicketLog.fetchTickets, flat_pairs. simpl.
  induction tickets as [|t tickets IH]; simpl; [ reflexivity | ].
  now rewrite map_app, map_map, IH.
Qed.

(** X7.  The load on mount never throws and always ends the loading
    state, still on page 1.  A listing in the wire format is flattened
    to one row per sub-ticket, in order, and nothing is logged.  When
    the request fails, or the loops over the response throw (a [null]
    response, a [null] among the tickets), the error is only logged,
    no rows are set, and the table reads [No records found], as it
    does for an empty listing. *)
Theorem ticket_log_load_settles (env : Api.Env) :
  let listing :=
    Api.getTickets env {| Api.filter_status := None;
                          Api.filter_issue_type := None |} in
  let c := TicketLogPage.fetchTickets env in
  let s := TicketLogPage.after TicketLogPage.initial (Js.trace c) in
  let failed e :=
    TicketLogPage.tickets s = []
    /\ TicketLogPage.body Date_parse s = TicketLogPage.NoRecords
    /\ In (TicketLogPage.ConsoleError "Failed to fetch tickets:" e) (Js.trace c) in
  Js.outcome c = inr tt
  /\ TicketLogPage.loading s = false
  /\ TicketLogPage.currentPage s = 1
  /\ (forall e, Js.outcome listing = inl e -> failed e)
  /\ (forall response tickets,
        Js.outcome listing = inr response ->
        wire_listing response tickets ->
        TicketLogPage.tickets s
        = map (fun p => TicketLog.row_of (fst p) (snd p))
              (flat_pairs (Js.or_empty tickets))
        /\ (forall label e, ~ In (TicketLogPage.ConsoleError label e) (Js.trace c))
        /\ (Js.or_empty tickets = [] ->
            TicketLogPage.body Date_parse s = TicketLogPage.NoRecords))
  /\ (Js.outcome listing = inr Js.JNull ->
      failed (Js.TypeError (Api.null_read env "tickets")))
  /\ (forall response before after typed,
        Js.outcome listing = inr response ->
        is_object response ->
        Wire.field response "tickets"
        = Some (Js.JArr (before ++ Js.JNull :: after)) ->
        Forall2 wire_ticket before typed ->
        failed (Js.TypeError (Api.null_read env "sub_tickets"))).
Proof.
  intros listing c s failed.
  assert (Hfail : forall tr e,
             TicketLogPage.fetchTickets env
             = (map TicketLogPage.Service tr
                  ++ [TicketLogPage.ConsoleError "Failed to fetch tickets:" e]
                  ++ [TicketLogPage.SetLoading false], inr tt) ->
             failed e).
  { intros tr e E. unfold failed, s, c. rewrite E. cbn [Js.trace fst].
    unfold TicketLogPage.after. rewrite !fold_left_app.
    fold (TicketLogPage.after TicketLogPage.initial (map TicketLogPage.Service tr)).
    rewrite after_services.
    split; [ reflexivity | ]. split; [ reflexivity | ].
    apply in_or_app. right. now left. }
  assert (Hrun : forall tr response,
             listing = (tr, inr response) ->
             TicketLogPage.fetchTickets env
             = (map TicketLogPage.Service tr
                  ++ match Wire.tickets_of env response with
                     | inr read =>
                         [TicketLogPage.SetTickets (TicketLog.fetchTickets read)]
                     | inl e =>
                         [TicketLogPage.ConsoleError "Failed to fetch tickets:" e]
                     end
                  ++ [TicketLogPage.SetLoading false], inr tt)).
  { intros tr response El. unfold TicketLogPage.fetchTickets. fold listing.
    rewrite El. unfold Js.lift. cbn [Js.bind].
    destruct (Wire.tickets_of env response) as [e|read];
      cbn [Js.bind Js.try_catch Js.finally Js.emit];
      now rewrite ?app_nil_r, <- ?app_assoc. }
  destruct listing as [tr [e|response]] eqn:El.
  - assert (E : TicketLogPage.fetchTickets env
                = (map TicketLogPage.Service tr
                     ++ [TicketLogPage.ConsoleError "Failed to fetch tickets:" e]
                     ++ [TicketLogPage.SetLoading false], inr tt)).
    { unfold TicketLogPage.fetchTickets. fold listing. rewrite El.
      unfold Js.lift. cbn [Js.bind Js.try_catch Js.finally Js.emit].
      now rewrite ?app_nil_r, <- ?app_assoc. }
    pose proof (Hfail tr e E) as F.
    unfold s, c. rewrite E. cbn [Js.outcome Js.trace fst snd].
    unfold TicketLogPage.after. rewrite !fold_left_app.
    fold (TicketLogPage.after TicketLogPage.initial (map TicketLogPage.Service tr)).
    rewrite after_services.
    split; [ reflexivity | ]. split; [ reflexivity | ]. split; [ reflexivity | ].
    split; [ intros e' E'; inversion E'; subst; exact F | ].
    split; [ intros; discriminate | ]. split; intros; discriminate.
  - pose proof (Hrun tr response eq_refl) as E.
    split; [ unfold c; now rewrite E | ].
    split; [ unfold s, c; rewrite E; cbn [Js.trace fst];
             unfold TicketLogPage.after; rewrite !fold_left_app;
             destruct (Wire.tickets_of env response); reflexivity | ].
    split; [ unfold s, c; rewrite E; cbn [Js.trace fst];
             unfold TicketLogPage.after; rewrite !fold_left_app;
             fold (TicketLogPage.after TicketLogPage.initial
                     (map TicketLogPage.Service tr));
             rewrite after_services;
             destruct (Wire.tickets_of env response); reflexivity | ].
    split; [ intros; discriminate | ].
    split; [ | split ].
    + intros r tickets Er Hw. inversion Er; subst r.
      rewrite (wire_tickets_of env Hw) in E.
      unfold s, c. rewrite E. cbn [Js.trace fst].
      unfold TicketLogPage.after. rewrite !fold_left_app.
      fold (TicketLogPage.after TicketLogPage.initial (map TicketLogPage.Service tr)).
      rewrite after_services.
      split; [ | split ].
      * destruct tickets as [l|]; [ apply flattened_rows | reflexivity ].
      * intros label e H. apply in_app_or in H. destruct H as [H|H].
        -- apply in_map_iff in H. destruct H as (x & F & _). discriminate.
        -- destruct H as [H|[H|[]]]; discriminate.
      * intros Hnil. cbn [fold_left TicketLogPage.apply].
        destruct tickets as [l|]; simpl in Hnil; [ subst l | ]; reflexivity.
    + intros Er. inversion Er; subst response.
      apply (Hfail tr). rewrite E. reflexivity.
    + intros r before after typed Er Ho Hf Hb. inversion Er; subst r.
      apply (Hfail tr). rewrite E.
      now rewrite (tickets_of_null_ticket env after Ho Hf Hb).
Qed.

End PagerFacts.

Lemma ticket_log_pager_stays_in_range_witness :
  TicketLogPage.currentPage Cases.loaded = 1
  /\ exists s',
       TicketLogPage.clicks Sample.Date_parse Cases.loaded
         [TicketLogPage.ToggleFilters; TicketLogPage.ChangeStatus "resolved"]
       = Some s'
       /\ TicketLogPage.currentPage s' = 1
       /\ TicketLogPage.paginatedTickets Sample.Date_parse s' <> [].
Proof.
  assert (H1 : TicketLogPage.currentPage Cases.loaded = 1) by reflexivity.
  split; [ exact H1 | ].
  eexists. split; [ reflexivity | ]. split; [ reflexivity | ].
  refine (proj2 (proj2 (proj2
            (ticket_log_pager_stays_in_range Sample.Date_parse Cases.loaded
               [TicketLogPage.ToggleFilters; TicketLogPage.ChangeStatus "resolved"]
               H1 eq_refl))) _).
  discriminate.
Defined.

(** ** HomePage: recent activity and statistics *)

Lemma StronglySorted_app_inv {A} (R : A -> A -> Prop) (l1 l2 : list A) :
  StronglySorted R (l1 ++ l2) ->
  StronglySorted R l1 /\ (forall a b, In a l1 -> In b l2 -> R a b).
Proof.
  induction l1 as [|x l1 IH]; simpl; intros H.
  - split; [ constructor | intros a b [] ].
  - apply StronglySorted_inv in H. destruct H as [Hs Hx].
    destruct (IH Hs) as [H1 H2]. rewrite Forall_forall in Hx. split.
    + constructor; [ exact H1 | ].
      apply Forall_forall. intros y Hy. apply Hx, in_or_app. now left.
    + intros a b [<-|Ha] Hb; [ apply Hx, in_or_app; now right | now apply H2 ].
Qed.

Section RecentFacts.
Variable Date_parse : string -> option Z.

(** X8.  The recent-activity list holds the three newest sub-tickets (all
    of them when there are fewer), newest first: nothing left out is
    newer than anything shown.  The candidates are the sub-tickets of
    the listing in document order, each with its ticket's id, and
    with its own date when it has one and its ticket's date when it
    has none. *)
Theorem home_recent_are_three_newest (tickets : list Ticket) :
  (forall a, In a (HomeRecent.flattened tickets) ->
             HomeRecent.date_of Date_parse a <> None) ->
  let all := HomeRecent.flattened tickets in
  let recent := HomeRecent.recentTickets Date_parse tickets in
  List.length recent = Nat.min 3 (List.length all)
  /\ StronglySorted (recent_not_older Date_parse) recent
  /\ (exists rest,
         Permutation all (recent ++ rest)
         /\ (forall a b, In a recent -> In b rest ->
                         recent_not_older Date_parse a b))
  /\ all
     = map (fun p =>
              {| HomeRecent.recent_sub := snd p;
                 HomeRecent.recent_ticket_id := ticket_id (fst p);
                 HomeRecent.recent_created_at :=
                   match created_at (snd p) with
                   | Some own => if String.eqb own ""
                                 then t_created_at (fst p) else Some own
                   | None => t_created_at (fst p)
                   end |})
           (flat_pairs tickets).
Proof.
  intros Hv all recent.
  assert (Hall : all
                 = map (fun p =>
                          {| HomeRecent.recent_sub := snd p;
                             HomeRecent.recent_ticket_id := ticket_id (fst p);
                             HomeRecent.recent_created_at :=
                               match created_at (snd p) with
                               | Some own => if String.eqb own ""
                                             then t_created_at (fst p) else Some own
                               | None => t_created_at (fst p)
                               end |})
                       (flat_pairs tickets)).
  { unfold all, HomeRecent.flattened, flat_pairs. clear.
    induction tickets as [|ticket rest IH]; simpl; [ reflexivity | ].
    rewrite map_app, map_map, <- IH. f_equal.
    apply map_ext. intros subTicket. unfold HomeRecent.recent_of, Js.or_str.
    simpl. destruct (created_at subTicket) as [own|]; simpl; [ | reflexivity ].
    destruct (String.eqb own ""); reflexivity. }
  set (sorted := Js.sort (HomeRecent.newest_first Date_parse) all).
  assert (Hr : recent = firstn 3 sorted).
  { exact (@slice_chunk _ sorted 0 3%nat (Z.le_refl 0)). }
  assert (Hperm : Permutation sorted all) by apply sort_perm.
  assert (Hk : keyed (HomeRecent.newest_first Date_parse) (recent_key Date_parse) all).
  { intros x y Hx Hy. unfold HomeRecent.newest_first, recent_key.
    destruct (HomeRecent.date_of Date_parse x) eqn:Ex; [ | now apply Hv in Ex ].
    destruct (HomeRecent.date_of Date_parse y) eqn:Ey;
      [ reflexivity | now apply Hv in Ey ]. }
  assert (Hs : StronglySorted (recent_not_older Date_parse) sorted).
  { eapply StronglySorted_weaken; [ | exact (sort_sorted Hk) ].
    intros a b Ha Hb Hab. apply sort_In in Ha, Hb.
    unfold descending, recent_key in Hab. unfold recent_not_older.
    destruct (HomeRecent.date_of Date_parse a) as [da|] eqn:Ea;
      [ | exfalso; now apply (Hv a) ].
    destruct (HomeRecent.date_of Date_parse b) as [db|] eqn:Eb;
      [ | exfalso; now apply (Hv b) ].
    now exists da, db. }
  rewrite <- (firstn_skipn 3 sorted) in Hs.
  apply StronglySorted_app_inv in Hs. destruct Hs as [Hs1 Hs2].
  rewrite Hr. split; [ | split; [ exact Hs1 | split; [ | exact Hall ] ] ].
  - rewrite length_firstn. f_equal. now apply Permutation_length.
  - exists (skipn 3 sorted). split; [ | exact Hs2 ].
    rewrite firstn_skipn. now symmetry.
Qed.

End RecentFacts.

Lemma home_recent_are_three_newest_witness :
  (forall a, In a (HomeRecent.flattened Cases.listing_with_undated) ->
             HomeRecent.date_of Sample.Date_parse a <> None)
  /\ map (fun a => (sub_id (HomeRecent.recent_sub a),
                    created_at (HomeRecent.recent_sub a),
                    HomeRecent.recent_created_at a))
         (HomeRecent.recentTickets Sample.Date_parse Cases.listing_with_undated)
     = [ (Some "SUB-2", Some "2026-01-05T08:30:00", Some "2026-01-05T08:30:00");
         (Some "SUB-4", None, Some "2026-01-04T12:00:00");
         (Some "SUB-3", Some "2026-01-03T09:00:00", Some "2026-01-03T09:00:00") ]
  /\ StronglySorted (recent_not_older Sample.Date_parse)
                    (HomeRecent.recentTickets Sample.Date_parse
                                              Cases.listing_with_undated).
Proof.
  assert (Hv : forall a, In a (HomeRecent.flattened Cases.listing_with_undated) ->
                         HomeRecent.date_of Sample.Date_parse a <> None).
  { intros a _. unfold HomeRecent.date_of, Sample.Date_parse.
    destruct (HomeRecent.recent_created_at a) as [c|]; [ | discriminate ].
    destruct (Js.truthy_str (Some c)); discriminate. }
  split; [ exact Hv | ]. split; [ reflexivity | ].
  exact (proj1 (proj2 (home_recent_are_three_newest
                         Sample.Date_parse Cases.listing_with_undated Hv))).
Defined.

Lemma three_way_count {A} (f g : A -> bool) (l : list A) :
  (forall x, f x && g x = false) ->
  List.length l
  = (List.length (filter f l) + List.length (filter g l)
     + List.length (filter (fun x => negb (f x) && negb (g x)) l))%nat.
Proof.
  intros Hd. induction l as [|x l IH]; simpl; [ reflexivity | ].
  specialize (Hd x).
  destruct (f x), (g x); simpl in *; try discriminate; lia.
Qed.

Lemma resolved_not_working (t : Ticket) :
  HomePage.is_resolved t && HomePage.is_working t = false.
Proof.
  unfold HomePage.is_resolved, HomePage.is_working, Js.strict_eq_str.
  destruct (t_status t) as [s|]; [ | reflexivity ].
  destruct (String.eqb_spec s "resolved") as [->|]; [ reflexivity | ].
  destruct (String.eqb_spec s "closed") as [->|]; reflexivity.
Qed.

(** X9.  The dashboard's three counts split the tickets: resolved (status
    resolved or closed), in progress (in_progress or working) and
    open, which is everything else, a missing or unknown status
    included; open is never negative and the three add up to total. *)
Theorem home_stats_split_the_tickets (response_tickets : option (list Ticket)) :
  let stats := HomePage.fetchTickets response_tickets in
  let ticketsData := Js.or_empty response_tickets in
  HomePage.total stats
  = HomePage.resolved stats + HomePage.working stats + HomePage.open stats
  /\ HomePage.open stats = Z.of_nat (List.length (filter counted_open ticketsData))
  /\ 0 <= HomePage.open stats <= HomePage.total stats
  /\ (forall t, counted_open t = true
                <-> t_status t <> Some "resolved" /\ t_status t <> Some "closed"
                    /\ t_status t <> Some "in_progress"
                    /\ t_status t <> Some "working").
Proof.
  intros stats ticketsData. unfold stats, HomePage.fetchTickets.
  fold ticketsData. cbn [HomePage.total HomePage.resolved HomePage.working
                           HomePage.open].
  pose proof (three_way_count HomePage.is_resolved HomePage.is_working
                              ticketsData resolved_not_working) as H.
  fold counted_open in H.
  change (fun x => negb (HomePage.is_resolved x) && negb (HomePage.is_working x))
    with counted_open in H.
  split; [ lia | ]. split; [ lia | ]. split; [ lia | ].
  intros t. unfold counted_open, HomePage.is_resolved, HomePage.is_working.
  rewrite andb_true_iff, !negb_true_iff, !orb_false_iff.
  assert (E : forall s, Js.strict_eq_str (t_status t) s = false
                        <-> t_status t <> Some s).
  { intros s. rewrite <- strict_eq_str_true.
    destruct (Js.strict_eq_str (t_status t) s); split; congruence. }
  rewrite !E. tauto.
Qed.

(** ** MapView: markers *)

(** X10.  Every row kept by the map's fetch gets a marker, in order, so the
    render-time test never drops one; a marker stands at the row's
    resolved coordinates, neither of which is zero, and there are at
    most as many markers as sub-tickets. *)
Theorem map_renders_every_located_row (response_tickets : option (list Ticket)) :
  let rows := MapView.fetchTickets response_tickets in
  let markers := MapView.markers response_tickets in
  map MapView.popup markers = rows
  /\ Forall (fun row => MapView.render_marker row <> None) rows
  /\ (List.length markers
      <= List.length (flat_pairs (Js.or_empty response_tickets)))%nat
  /\ (forall m, In m markers ->
        MapView.loc_latitude (MapView.popup m) = Some (fst (MapView.position m))
        /\ MapView.loc_longitude (MapView.popup m) = Some (snd (MapView.position m))
        /\ ~ fst (MapView.position m) == 0
        /\ ~ snd (MapView.position m) == 0).
Proof.
  intros rows markers.
  assert (Hrows : forall row, In row rows ->
                    Js.truthy_num (MapView.loc_latitude row) = true
                    /\ Js.truthy_num (MapView.loc_longitude row) = true).
  { intros row Hin. unfold rows, MapView.fetchTickets in Hin.
    apply in_flat_map in Hin. destruct Hin as (t & _ & Hin).
    apply in_flat_map in Hin. destruct Hin as (st & _ & Hin).
    destruct (Js.truthy_num (MapView.lat_of t st)) eqn:Ea;
      destruct (Js.truthy_num (MapView.lng_of t st)) eqn:Eb;
      simpl in Hin; try contradiction.
    destruct Hin as [<-|[]]. simpl. auto. }
  assert (Hrender : forall row, In row rows ->
                      exists m, MapView.render_marker row = Some m
                                /\ MapView.popup m = row).
  { intros row Hin. destruct (Hrows row Hin) as [Ha Hb].
    unfold MapView.render_marker. rewrite Ha, Hb. simpl.
    destruct (MapView.loc_latitude row); [ | discriminate ].
    destruct (MapView.loc_longitude row); [ | discriminate ].
    eexists. split; reflexivity. }
  assert (Hmap : map MapView.popup markers = rows).
  { unfold markers, MapView.markers. fold rows.
    clear Hrows. induction rows as [|row rows' IH]; simpl; [ reflexivity | ].
    destruct (Hrender row (or_introl eq_refl)) as (m & Em & Ep).
    rewrite Em. simpl. rewrite Ep. f_equal.
    apply IH. intros r Hr. apply Hrender. now right. }
  split; [ exact Hmap | ]. split; [ | split ].
  - apply Forall_forall. intros row Hin.
    destruct (Hrender row Hin) as (m & Em & _). congruence.
  - rewrite <- (length_map MapView.popup), Hmap.
    unfold rows, MapView.fetchTickets, flat_pairs.
    induction (Js.or_empty response_tickets) as [|t ts IH]; simpl; [ lia | ].
    rewrite !length_app, length_map.
    assert (List.length
              (flat_map (fun subTicket =>
                 if Js.truthy_num (MapView.lat_of t subTicket)
                    && Js.truthy_num (MapView.lng_of t subTicket)
                 then [MapView.locate t subTicket] else [])
                 (Js.or_empty (sub_tickets t)))
            <= List.length (Js.or_empty (sub_tickets t)))%nat.
    { induction (Js.or_empty (sub_tickets t)) as [|st sts IHs]; simpl; [ lia | ].
      rewrite length_app.
      destruct (Js.truthy_num (MapView.lat_of t st)
                && Js.truthy_num (MapView.lng_of t st)); simpl; lia. }
    lia.
  - intros m Hin. unfold markers, MapView.markers in Hin.
    apply in_flat_map in Hin. destruct Hin as (row & Hrow & Hin).
    destruct (MapView.render_marker row) as [m'|] eqn:Em; [ | contradiction ].
    destruct Hin as [<-|[]].
    unfold MapView.render_marker in Em.
    destruct (Js.truthy_num (MapView.loc_latitude row)) eqn:Ea;
      destruct (Js.truthy_num (MapView.loc_longitude row)) eqn:Eb;
      simpl in Em; try discriminate.
    destruct (MapView.loc_latitude row) as [a|] eqn:Ela; [ | discriminate ].
    destruct (MapView.loc_longitude row) as [b|] eqn:Elo; [ | discriminate ].
    inversion Em; subst. simpl. rewrite Ela, Elo.
    simpl in Ea, Eb. apply negb_true_iff in Ea, Eb.
    repeat split; auto; intros Hz; apply Qeq_eq_bool in Hz; congruence.
Qed.

(** ** AnalysePage and MapView: the location link *)

Lemma redirected_iff (st : MapLink.MapState) :
  MapLink.complaint_marker (Some st) <> None
  <-> MapLink.isRedirected (Some st) = true.
Proof.
  unfold MapLink.complaint_marker, MapLink.complaint.
  destruct (MapLink.isRedirected (Some st)) eqn:E; [ | split; congruence ].
  split; [ reflexivity | intros _ ].
  simpl in E. apply andb_true_iff in E. destruct E as [Ea Eb].
  destruct (MapLink.state_lat st); [ | discriminate ].
  destruct (MapLink.state_lng st); [ | discriminate ].
  discriminate.
Qed.

Lemma truthy_num_nonzero (q : Q) :
  Js.truthy_num (Some q) = true <-> ~ q == 0.
Proof.
  simpl. rewrite negb_true_iff. split.
  - intros E Hz. apply Qeq_eq_bool in Hz. congruence.
  - intros Hz. destruct (Qeq_bool q 0) eqn:E; [ | reflexivity ].
    apply Qeq_bool_eq in E. contradiction.
Qed.

Lemma number_truthy (v : MapLink.value) :
  Js.truthy_num (MapLink.Number v) = true
  <-> exists q, v = MapLink.Num q /\ ~ q == 0.
Proof.
  destruct v as [ | | q | ]; cbn [MapLink.Number].
  - split; [ discriminate | intros (q & E & _); discriminate ].
  - split; [ discriminate | intros (q & E & _); discriminate ].
  - rewrite truthy_num_nonzero. split.
    + intros H. now exists q.
    + intros (q' & E & H). now inversion E; subst.
  - split; [ discriminate | intros (q & E & _); discriminate ].
Qed.

(** X11.  The location link of a result row says [Location not available]
    only for a coordinate that is [undefined] or not a number.
    Otherwise it opens the map, a [null] coordinate becoming 0; the map
    then shows the complaint marker, zoomed in, exactly when both
    coordinates are numbers other than 0, and else stays on its
    default view without a marker. *)
Theorem location_link_opens_map_unless_undefined (lat lng : MapLink.value) :
  (MapLink.handleLocationClick lat lng
   = MapLink.Alert "Location not available for this item."
   <-> lat = MapLink.Undefined \/ lng = MapLink.Undefined
       \/ lat = MapLink.NaN \/ lng = MapLink.NaN)
  /\ (forall path st,
        MapLink.handleLocationClick lat lng = MapLink.Navigate path st ->
        path = "/map"
        /\ MapLink.state_lat st = MapLink.Number lat
        /\ MapLink.state_lng st = MapLink.Number lng
        /\ (MapLink.complaint_marker (Some st) <> None
            <-> exists a b, lat = MapLink.Num a /\ lng = MapLink.Num b
                            /\ ~ a == 0 /\ ~ b == 0)
        /\ (forall a b, lat = MapLink.Num a -> lng = MapLink.Num b ->
                        ~ a == 0 -> ~ b == 0 ->
                        MapLink.complaint_marker (Some st)
                        = Some ((a, b), "Complaint Location")
                        /\ MapLink.view (Some st) = ((a, b), 16))
        /\ (MapLink.complaint_marker (Some st) = None ->
            MapLink.view (Some st)
            = (MapLink.DEFAULT_CENTER, MapLink.DEFAULT_ZOOM))).
Proof.
  split.
  - destruct lat, lng; simpl; split; intros H;
      try reflexivity; try discriminate; auto;
      destruct H as [H|[H|[H|H]]]; discriminate.
  - intros path st H.
    assert (Hst : path = "/map"
                  /\ st = {| MapLink.state_lat := MapLink.Number lat;
                             MapLink.state_lng := MapLink.Number lng;
                             MapLink.state_label := None |}).
    { unfold MapLink.handleLocationClick in H.
      destruct (_ || _) in H; inversion H; auto. }
    destruct Hst as [-> ->]. clear H.
    split; [ reflexivity | ]. split; [ reflexivity | ]. split; [ reflexivity | ].
    split; [ | split ].
    + rewrite redirected_iff. unfold MapLink.isRedirected.
      cbn [MapLink.state_lat MapLink.state_lng].
      rewrite andb_true_iff, !number_truthy. split.
      * intros [(a & Ea & Ha) (b & Eb & Hb)]. now exists a, b.
      * intros (a & b & Ea & Eb & Ha & Hb). split; eauto.
    + intros a b -> -> Ha Hb.
      apply truthy_num_nonzero in Ha, Hb. simpl in Ha, Hb.
      unfold MapLink.complaint_marker, MapLink.view, MapLink.complaint,
        MapLink.isRedirected. simpl. rewrite Ha, Hb. simpl. split; reflexivity.
    + intros Hnone. unfold MapLink.view.
      destruct (MapLink.isRedirected _) eqn:E; [ | reflexivity ].
      exfalso. apply (proj2 (redirected_iff _)) in E. contradiction.
Qed.

Lemma location_link_opens_map_unless_undefined_witness :
  exists st,
    MapLink.handleLocationClick MapLink.Null (MapLink.Num (403 # 5))
    = MapLink.Navigate "/map" st
    /\ MapLink.state_lat st = Some 0%Q
    /\ MapLink.view (Some st) = (MapLink.DEFAULT_CENTER, MapLink.DEFAULT_ZOOM).
Proof.
  eexists. split; [ reflexivity | ].
  destruct (location_link_opens_map_unless_undefined
              MapLink.Null (MapLink.Num (403 # 5))) as [_ H].
  destruct (H _ _ eq_refl) as (_ & Hlat & _ & _ & _ & Hview).
  split; [ exact Hlat | ].
  apply Hview. reflexivity.
Defined.

(** ** ComplaintPage: the evidence lists *)

Lemma filter_out_In {A} (key : A -> string) (id : string) (l : list A) (m : A) :
  In m (filter (fun x => negb (String.eqb (key x) id)) l)
  <-> In m l /\ key m <> id.
Proof.
  rewrite filter_In, negb_true_iff, String.eqb_neq. reflexivity.
Qed.

Lemma filter_out_one {A} (key : A -> string) (id : string) (l : list A) :
  NoDup (map key l) ->
  In id (map key l) ->
  S (List.length (filter (fun x => negb (String.eqb (key x) id)) l))
  = List.length l.
Proof.
  induction l as [|x l IH]; simpl; intros Hnd Hin; [ contradiction | ].
  inversion Hnd as [|? ? Hx Hl]; subst.
  destruct (String.eqb_spec (key x) id) as [E|E]; simpl.
  - f_equal. rewrite filter_all; [ reflexivity | ].
    apply Forall_forall. intros y Hy. apply negb_true_iff, String.eqb_neq.
    intros Ey. apply Hx. rewrite E, <- Ey. now apply in_map.
  - f_equal. apply IH; [ exact Hl | ]. destruct Hin; [ contradiction | assumption ].
Qed.

Lemma filter_out_absent {A} (key : A -> string) (id : string) (l : list A) :
  ~ In id (map key l) ->
  filter (fun x => negb (String.eqb (key x) id)) l = l.
Proof.
  intros H. apply filter_all, Forall_forall. intros y Hy.
  apply negb_true_iff, String.eqb_neq. intros E. apply H.
  rewrite <- E. now apply in_map.
Qed.

Lemma filter_subsequence {A} (keep : A -> bool) (l : list A) :
  subsequence (filter keep l) l.
Proof.
  induction l as [|x l IH]; simpl; [ constructor | ].
  destruct (keep x); now constructor.
Qed.

(** X12.  Removing an image by id drops every image with that id and nothing
    else, keeping the others in their order, and leaves the videos
    and the location as they are; with distinct ids exactly one
    image goes, and an id that no image has changes nothing.  The
    same holds for the videos. *)
Theorem removing_evidence_drops_that_id_only (s : Evidence.State) (id : string) :
  (forall m, In m (Evidence.images (Evidence.removeImage s id))
             <-> In m (Evidence.images s) /\ ComplaintPage.id m <> id)
  /\ Evidence.videos (Evidence.removeImage s id) = Evidence.videos s
  /\ (NoDup (map ComplaintPage.id (Evidence.images s)) ->
      In id (map ComplaintPage.id (Evidence.images s)) ->
      S (List.length (Evidence.images (Evidence.removeImage s id)))
      = List.length (Evidence.images s))
  /\ (~ In id (map ComplaintPage.id (Evidence.images s)) ->
      Evidence.removeImage s id = s)
  /\ (forall m, In m (Evidence.videos (Evidence.removeVideo s id))
                <-> In m (Evidence.videos s) /\ ComplaintPage.id m <> id)
  /\ Evidence.images (Evidence.removeVideo s id) = Evidence.images s
  /\ (NoDup (map ComplaintPage.id (Evidence.videos s)) ->
      In id (map ComplaintPage.id (Evidence.videos s)) ->
      S (List.length (Evidence.videos (Evidence.removeVideo s id)))
      = List.length (Evidence.videos s))
  /\ (~ In id (map ComplaintPage.id (Evidence.videos s)) ->
      Evidence.removeVideo s id = s)
  /\ subsequence (Evidence.images (Evidence.removeImage s id)) (Evidence.images s)
  /\ subsequence (Evidence.videos (Evidence.removeVideo s id)) (Evidence.videos s)
  /\ Evidence.location (Evidence.removeImage s id) = Evidence.location s
  /\ Evidence.location (Evidence.removeVideo s id) = Evidence.location s.
Proof.
  destruct s as [imgs vids loc]. unfold Evidence.removeImage, Evidence.removeVideo.
  simpl.
  split; [ intros m; apply filter_out_In | ].
  split; [ reflexivity | ].
  split; [ apply filter_out_one | ].
  split; [ intros H; now rewrite filter_out_absent | ].
  split; [ intros m; apply filter_out_In | ].
  split; [ reflexivity | ].
  split; [ apply filter_out_one | ].
  split; [ intros H; now rewrite filter_out_absent | ].
  split; [ apply filter_subsequence | ].
  split; [ apply filter_subsequence | ].
  split; reflexivity.
Qed.

Lemma removing_evidence_drops_that_id_only_witness :
  let s := Evidence.run [Evidence.PickImages [Cases.picked "a" Sample.photo;
                                             Cases.picked "b" Sample.photo]] in
  NoDup (map ComplaintPage.id (Evidence.images s))
  /\ In "a" (map ComplaintPage.id (Evidence.images s))
  /\ S (List.length (Evidence.images (Evidence.removeImage s "a")))
     = List.length (Evidence.images s).
Proof.
  intros s.
  assert (H1 : NoDup (map ComplaintPage.id (Evidence.images s))).
  { simpl. constructor.
    - intros [H|[]]. discriminate.
    - constructor; [ intros [] | constructor ]. }
  assert (H2 : In "a" (map ComplaintPage.id (Evidence.images s)))
    by (left; reflexivity).
  split; [ exact H1 | ]. split; [ exact H2 | ].
  destruct (removing_evidence_drops_that_id_only s "a") as (_ & _ & H & _).
  exact (H H1 H2).
Defined.

Ltac only_requests :=
  unfold requests; simpl; rewrite ?flat_map_app; simpl;
  rewrite ?flat_map_app; simpl; reflexivity.

Section EvidenceFacts.
Variable env : Api.Env.

Lemma step_keeps_files (s : Evidence.State) (a : Evidence.Action) :
  all_with_file s -> all_with_file (Evidence.step s a).
Proof.
  intros [Hi Hv]. destruct a; simpl; split; simpl; auto; intros m Hm;
    try (apply in_app_or in Hm; destruct Hm as [Hm|Hm];
         [ auto
         | apply in_map_iff in Hm; destruct Hm as (f & <- & _); discriminate ]);
    try (apply filter_In in Hm; destruct Hm; auto);
    try contradiction.
Qed.

Lemma run_keeps_files (actions : list Evidence.Action) :
  all_with_file (Evidence.run actions).
Proof.
  unfold Evidence.run.
  assert (H : all_with_file Evidence.initial) by (split; intros m []).
  revert H. generalize Evidence.initial.
  induction actions as [|a actions IH]; intros s H; simpl; [ exact H | ].
  apply IH. now apply step_keeps_files.
Qed.

Lemma uploadComplaints_trace (files : list Api.File) :
  Js.trace (Api.uploadComplaints env files)
  = [Api.Fetch (Api.upload_request env files)].
Proof.
  unfold Api.uploadComplaints, Api.do_fetch.
  destruct (Api.fetch env (Api.upload_request env files)) as [err|response];
    [ reflexivity | ].
  cbn [Js.bind]. destruct (Api.ok response); cbn [negb].
  - unfold Api.json_of. destruct (Api.JSON_parse env _); reflexivity.
  - unfold Api.json_of.
    destruct (Api.JSON_parse env _) as [err|errorData];
      cbn [Js.try_catch Js.bind Js.ret]; [ reflexivity | ].
    destruct (Api.get env errorData "detail"); reflexivity.
Qed.

Lemma attached_nonempty (items : list ComplaintPage.Media) :
  items <> [] ->
  (forall m, In m items -> ComplaintPage.file m <> None) ->
  attached_files items <> [].
Proof.
  destruct items as [|m items]; [ contradiction | ]. intros _ H. simpl.
  destruct (ComplaintPage.file m) eqn:E; [ discriminate | ].
  exfalso. apply (H m); [ now left | exact E ].
Qed.

(** X13.  However the evidence lists were built from the file inputs
    (picking images or videos, removing items, clearing, with or
    without a position), every item holds its file: submitting then fetches no local URL and sends one
    batch request with exactly the files still listed, images before
    videos, in the order they were picked. *)
Theorem picked_files_are_the_files_uploaded (actions : list Evidence.Action) :
  let s := Evidence.run actions in
  let files := attached_files (Evidence.images s) ++ attached_files (Evidence.videos s) in
  all_with_file s
  /\ ComplaintPage.collect_files env (Evidence.images s) (Evidence.videos s)
     = ([], inr files)
  /\ List.length files
     = (List.length (Evidence.images s) + List.length (Evidence.videos s))%nat
  /\ (Evidence.images s <> [] \/ Evidence.videos s <> [] ->
      requests (Js.trace (ComplaintPage.handleAnalyze env (Evidence.images s)
                                                     (Evidence.videos s)))
      = [Api.upload_request env files]).
Proof.
  intros s files.
  pose proof (run_keeps_files actions) as Hall. fold s in Hall.
  destruct Hall as [Hi Hv].
  assert (Hc : ComplaintPage.collect_files env (Evidence.images s) (Evidence.videos s)
               = ([], inr files)).
  { apply collect_files_attached. intros m Hm.
    apply in_app_or in Hm. destruct Hm; auto. }
  assert (Hlen : forall items,
             (forall m, In m items -> ComplaintPage.file m <> None) ->
             List.length (attached_files items) = List.length items).
  { induction items as [|m items IH]; intros H; simpl; [ reflexivity | ].
    destruct (ComplaintPage.file m) eqn:E;
      [ | exfalso; apply (H m); [ now left | exact E ] ].
    simpl. f_equal. apply IH. intros x Hx. apply H. now right. }
  split; [ now split | ]. split; [ exact Hc | ]. split.
  { unfold files. rewrite length_app, !Hlen by assumption. reflexivity. }
  intros Hne.
  assert (Hfiles : files <> []).
  { unfold files. destruct Hne as [Hne|Hne].
    - pose proof (attached_nonempty Hne Hi) as H.
      destruct (attached_files (Evidence.images s)); [ contradiction | discriminate ].
    - pose proof (attached_nonempty Hne Hv) as H.
      destruct (attached_files (Evidence.videos s)); [ contradiction | ].
      destruct (attached_files (Evidence.images s)); discriminate. }
  unfold ComplaintPage.handleAnalyze.
  assert (G : (List.length (Evidence.images s) =? 0)%nat
              && (List.length (Evidence.videos s) =? 0)%nat = false).
  { destruct (Evidence.images s), (Evidence.videos s); try reflexivity.
    destruct Hne; contradiction. }
  rewrite G. unfold ComplaintPage.upload_and_show. rewrite Hc.
  destruct files as [|f files']; [ contradiction | ].
  cbn [Js.bind List.length Nat.eqb]. unfold Js.lift.
  pose proof (uploadComplaints_trace (f :: files')) as Ht.
  destruct (Api.uploadComplaints env (f :: files')) as [tr2 [e|response]];
    simpl in Ht; subst tr2; [ only_requests | ].
  cbn [Js.bind].
  destruct (ComplaintPage.has_duplicates env response);
    destruct (Wire.uploadResponse_of env response) as [e|read]; only_requests.
Qed.

End EvidenceFacts.

Lemma picked_files_are_the_files_uploaded_witness :
  let env := Sample.env (Sample.response true 200 "upload-result") in
  let s := Evidence.run Cases.session in
  (Evidence.images s <> [] \/ Evidence.videos s <> [])
  /\ map ComplaintPage.id (Evidence.images s ++ Evidence.videos s) = ["b"; "c"]
  /\ requests (Js.trace (ComplaintPage.handleAnalyze env (Evidence.images s)
                                                    (Evidence.videos s)))
     = [Api.upload_request env [Sample.photo; Sample.clip_file]].
Proof.
  intros env s.
  assert (H : Evidence.images s <> [] \/ Evidence.videos s <> [])
    by (left; discriminate).
  split; [ exact H | ]. split; [ reflexivity | ].
  destruct (picked_files_are_the_files_uploaded env Cases.session)
    as (_ & _ & _ & Hreq).
  exact (Hreq H).
Defined.

(** ** ComplaintPage: how a submission ends *)

Section SettleFacts.
Variable env : Api.Env.

#[local] Abbreviation is_service :=
  (fun e : ComplaintPage.Event => exists ev, e = ComplaintPage.Service ev).

Ltac close_shape :=
  split; [ simpl; rewrite <- ?app_assoc; simpl; reflexivity | ].

(** The three ways a submission with items can end: the results page,
    the results page after the duplicate notice, or the error report. *)
Lemma handleAnalyze_shape (images videos : list ComplaintPage.Media) :
  images <> [] \/ videos <> [] ->
  exists services tail,
    ComplaintPage.handleAnalyze env images videos
    = (ComplaintPage.SetUploading true :: ComplaintPage.SetUploadError None
         :: services ++ tail ++ [ComplaintPage.SetUploading false],
       inr tt)
    /\ Forall is_service services
    /\ ((exists st, tail = [ComplaintPage.Navigate "/analyse" st])
        \/ (exists msg st, tail = [ComplaintPage.Alert msg;
                                   ComplaintPage.Navigate "/analyse" st])
        \/ (exists e, tail = reported e)
        \/ (exists msg e, tail = ComplaintPage.Alert msg :: reported e)).
Proof.
  intros Hne. unfold ComplaintPage.handleAnalyze.
  assert (G : (List.length images =? 0)%nat && (List.length videos =? 0)%nat = false).
  { destruct images, videos; try reflexivity. destruct Hne; contradiction. }
  rewrite G. unfold ComplaintPage.upload_and_show.
  pose proof (collect_files_local env images videos) as Hloc.
  assert (Hserv : forall tr, Forall local_fetch tr -> Forall is_service tr).
  { intros tr H. eapply Forall_impl; [ | exact H ].
    intros e [u ->]. eexists. reflexivity. }
  destruct (ComplaintPage.collect_files env images videos) as [tr1 [e|files]];
    simpl in Hloc; apply Hserv in Hloc.
  - exists tr1, (reported e). close_shape.
    split; [ exact Hloc | right; right; left; eauto ].
  - destruct files as [|f files].
    + exists tr1, (reported (Js.Error "No valid files to upload")). close_shape.
      split; [ exact Hloc | right; right; left; eauto ].
    + cbn [Js.bind List.length Nat.eqb]. unfold Js.lift.
      destruct (Api.uploadComplaints env (f :: files)) as [tr2 [e|response]].
      * exists (tr1 ++ map ComplaintPage.Service tr2), (reported e). close_shape.
        split; [ | right; right; left; eauto ].
        apply Forall_app. split; [ exact Hloc | ].
        apply Forall_forall. intros x Hx. apply in_map_iff in Hx.
        destruct Hx as (ev & <- & _). eexists. reflexivity.
      * cbn [Js.bind].
        assert (Hs : Forall is_service (tr1 ++ map ComplaintPage.Service tr2)).
        { apply Forall_app. split; [ exact Hloc | ].
          apply Forall_forall. intros x Hx. apply in_map_iff in Hx.
          destruct Hx as (ev & <- & _). eexists. reflexivity. }
        destruct (ComplaintPage.has_duplicates env response);
          destruct (Wire.uploadResponse_of env response) as [e|read].
        -- exists (tr1 ++ map ComplaintPage.Service tr2),
             (ComplaintPage.Alert (ComplaintPage.notice env response) :: reported e).
           close_shape. split; [ exact Hs | right; right; right; eauto ].
        -- exists (tr1 ++ map ComplaintPage.Service tr2),
             [ComplaintPage.Alert (ComplaintPage.notice env response);
              ComplaintPage.Navigate "/analyse"
                {| ComplaintPage.uploadedFiles := ComplaintPage.rows images videos read;
                   ComplaintPage.uploadResponse := response |}].
           close_shape. split; [ exact Hs | right; left; eauto ].
        -- exists (tr1 ++ map ComplaintPage.Service tr2), (reported e).
           close_shape. split; [ exact Hs | right; right; left; eauto ].
        -- exists (tr1 ++ map ComplaintPage.Service tr2),
             [ComplaintPage.Navigate "/analyse"
                {| ComplaintPage.uploadedFiles := ComplaintPage.rows images videos read;
                   ComplaintPage.uploadResponse := response |}].
           close_shape. split; [ exact Hs | left; eauto ].
Qed.

(** X14.  A submission never throws.  One that has items sets the uploading
    flag first and clears it last, whatever happened in between, and
    touches it nowhere else; it opens the results page at most once,
    as its last step before clearing the flag, and reports an upload
    failure only when it does not. *)
Theorem submission_always_settles (images videos : list ComplaintPage.Media) :
  let c := ComplaintPage.handleAnalyze env images videos in
  Js.outcome c = inr tt
  /\ (images <> [] \/ videos <> [] ->
      exists mid,
        Js.trace c
        = ComplaintPage.SetUploading true :: ComplaintPage.SetUploadError None
            :: mid ++ [ComplaintPage.SetUploading false]
        /\ (forall b, ~ In (ComplaintPage.SetUploading b) mid)
        /\ ((exists pre st,
               mid = pre ++ [ComplaintPage.Navigate "/analyse" st]
               /\ (forall p' s', ~ In (ComplaintPage.Navigate p' s') pre)
               /\ (forall l e, ~ In (ComplaintPage.ConsoleError l e) pre))
            \/ ((forall p' s', ~ In (ComplaintPage.Navigate p' s') mid)
                /\ exists e,
                     In (ComplaintPage.Alert ("Upload failed: " ++ Js.message e)%string)
                        mid))).
Proof.
  intros c. split.
  - unfold c, ComplaintPage.handleAnalyze.
    destruct ((List.length images =? 0)%nat && (List.length videos =? 0)%nat);
      [ reflexivity | ].
    unfold ComplaintPage.upload_and_show, Js.finally, Js.try_catch, Js.bind, Js.lift.
    destruct (ComplaintPage.collect_files env images videos) as [tr1 [e|files]];
      [ reflexivity | ].
    destruct (List.length files =? 0)%nat; [ reflexivity | ].
    destruct (Api.uploadComplaints env files) as [tr2 [e|response]];
      [ reflexivity | ].
    destruct (ComplaintPage.has_duplicates env response);
      destruct (Wire.uploadResponse_of env response) as [e|read]; reflexivity.
  - intros Hne. destruct (handleAnalyze_shape Hne)
      as (services & tail & E & Hs & Ht).
    unfold c. rewrite E. cbn [Js.trace fst].
    exists (services ++ tail). split; [ now rewrite <- app_assoc | ].
    assert (Hsv : forall x, In x services -> exists ev, x = ComplaintPage.Service ev).
    { now apply Forall_forall. }
    destruct Ht as [(st & ->)|[(msg & st & ->)|[(e & ->)|(msg & e & ->)]]].
    4: { split.
         - intros b H. apply in_app_or in H.
           destruct H as [H|[H|[H|[H|[H|[]]]]]];
             [ apply Hsv in H; destruct H; discriminate | discriminate.. ].
         - right. split.
           + intros p' s' H. apply in_app_or in H.
             destruct H as [H|[H|[H|[H|[H|[]]]]]];
               [ apply Hsv in H; destruct H; discriminate | discriminate.. ].
           + exists e. apply in_or_app. right. simpl. auto. }
    + split.
      * intros b H. apply in_app_or in H. destruct H as [H|[H|[]]];
          [ apply Hsv in H; destruct H; discriminate | discriminate ].
      * left. exists services, st. split; [ reflexivity | ]. split.
        -- intros p' s' H. apply Hsv in H. destruct H. discriminate.
        -- intros l e H. apply Hsv in H. destruct H. discriminate.
    + split.
      * intros b H. apply in_app_or in H. destruct H as [H|[H|[H|[]]]];
          [ apply Hsv in H; destruct H; discriminate | discriminate.. ].
      * left. exists (services ++ [ComplaintPage.Alert msg]), st.
        split; [ now rewrite <- app_assoc | ]. split.
        -- intros p' s' H. apply in_app_or in H. destruct H as [H|[H|[]]];
             [ apply Hsv in H; destruct H; discriminate | discriminate ].
        -- intros l e H. apply in_app_or in H. destruct H as [H|[H|[]]];
             [ apply Hsv in H; destruct H; discriminate | discriminate ].
    + split.
      * intros b H. apply in_app_or in H. destruct H as [H|[H|[H|[H|[]]]]];
          [ apply Hsv in H; destruct H; discriminate | discriminate.. ].
      * right. split.
        -- intros p' s' H. apply in_app_or in H.
           destruct H as [H|[H|[H|[H|[]]]]];
             [ apply Hsv in H; destruct H; discriminate | discriminate.. ].
        -- exists e. apply in_or_app. right. simpl. auto.
Qed.

(** X15.  When the upload call fails, the handler logs the error, puts its
    message in the error banner (a fixed text when the message is
    empty) and alerts [Upload failed: message]; the results page is
    not opened.  So a detail that the server named reaches the user
    word for word. *)
Theorem upload_failure_is_reported
        (images videos : list ComplaintPage.Media)
        (tr1 : list ComplaintPage.Event) (files : list Api.File)
        (tr2 : list Api.Event) (e : Js.error) :
  ComplaintPage.collect_files env images videos = (tr1, inr files) ->
  files <> [] ->
  Api.uploadComplaints env files = (tr2, inl e) ->
  ComplaintPage.handleAnalyze env images videos
  = ([ComplaintPage.SetUploading true; ComplaintPage.SetUploadError None]
       ++ tr1 ++ map ComplaintPage.Service tr2
       ++ [ComplaintPage.ConsoleError "Upload error:" e;
           ComplaintPage.SetUploadError
             (Some (if String.eqb (Js.message e) ""
                    then "Failed to upload complaints. Please try again."
                    else Js.message e));
           ComplaintPage.Alert ("Upload failed: " ++ Js.message e)%string;
           ComplaintPage.SetUploading false],
     inr tt)
  /\ (forall response d,
        Api.fetch env (Api.upload_request env files) = inr response ->
        Api.ok response = false ->
        server_detail env response (Js.JStr d) ->
        e = Js.Error d).
Proof.
  intros Ec Hne Eu. split.
  - unfold ComplaintPage.handleAnalyze.
    assert (G : (List.length images =? 0)%nat && (List.length videos =? 0)%nat = false).
    { destruct images, videos; try reflexivity.
      rewrite collect_files_nil in Ec. inversion Ec; subst. contradiction. }
    rewrite G. unfold ComplaintPage.upload_and_show. rewrite Ec.
    destruct files as [|f files]; [ contradiction | ].
    cbn [Js.bind List.length Nat.eqb]. unfold Js.lift. rewrite Eu.
    simpl. rewrite <- !app_assoc. simpl.
    destruct (String.eqb (Js.message e) ""); reflexivity.
  - intros response d Hf Hok Hd.
    pose proof (uploadComplaints_carries_detail files Hf Hok Hd) as H.
    rewrite Eu in H. simpl in H. now inversion H.
Qed.

(** The duplicate test coerces: a count sent as a text is read as a
    number, so a text that reads as a number above zero brings up the
    notice. *)
Lemma textual_count_is_coerced (response : Js.json) (d : string) :
  is_object response ->
  Wire.field response "duplicates_found" = Some (Js.JStr d) ->
  ComplaintPage.has_duplicates env response
  = negb (String.eqb d "") && Js.is_positive (Api.StringToNumber env d).
Proof.
  intros (fields & ->) Hd. unfold ComplaintPage.has_duplicates.
  cbn [ComplaintPage.duplicates_read]. now rewrite Hd.
Qed.

(** X16.  An upload response in the wire format that reports no
    duplicate (no count, or a count that is zero or negative) brings
    up no notice: the handler goes to the results page, with one row
    per sub-ticket of the response, without a single alert. *)
Theorem no_duplicates_no_notice
        (images videos : list ComplaintPage.Media)
        (tr1 : list ComplaintPage.Event) (files : list Api.File)
        (tr2 : list Api.Event) (response : Js.json) (r : Wire.UploadResponse) :
  ComplaintPage.collect_files env images videos = (tr1, inr files) ->
  files <> [] ->
  Api.uploadComplaints env files = (tr2, inr response) ->
  wire_upload response r ->
  (Wire.duplicates_found r = None
   \/ exists n, Wire.duplicates_found r = Some n /\ (n <= 0)%Q) ->
  let shown := ComplaintPage.rows images videos r in
  ComplaintPage.handleAnalyze env images videos
  = ([ComplaintPage.SetUploading true; ComplaintPage.SetUploadError None]
       ++ tr1 ++ map ComplaintPage.Service tr2
       ++ [ComplaintPage.Navigate "/analyse"
             {| ComplaintPage.uploadedFiles := shown;
                ComplaintPage.uploadResponse := response |};
           ComplaintPage.SetUploading false],
     inr tt)
  /\ (forall msg,
        ~ In (ComplaintPage.Alert msg)
             (Js.trace (ComplaintPage.handleAnalyze env images videos)))
  /\ map shown_ids shown
     = map (fun p => (ticket_id (fst p), sub_id (snd p), issue_type (snd p)))
           (flat_pairs (Js.or_empty (Wire.tickets_created r))).
Proof.
  intros Ec Hne Eu Hw Hd shown.
  assert (Hno : ComplaintPage.has_duplicates env response = false).
  { rewrite (wire_has_duplicates env Hw).
    destruct Hd as [->|(n & -> & Hn)]; [ reflexivity | ].
    apply Qle_bool_iff in Hn. now rewrite Hn. }
  pose proof (handleAnalyze_uploaded env images videos Ec Hne Eu) as H.
  rewrite Hno in H.
  destruct (wire_uploadResponse_of env Hw) as (visited & Er & Hv).
  rewrite Er in H. rewrite (@rows_or_empty images videos _ r) in H by exact Hv.
  simpl in H. split; [ exact H | ]. split.
  - intros msg Hin. rewrite H in Hin. simpl in Hin.
    pose proof (collect_files_local env images videos) as Hloc.
    rewrite Ec in Hloc. simpl in Hloc. rewrite Forall_forall in Hloc.
    destruct Hin as [Hin|[Hin|Hin]]; try discriminate.
    apply in_app_or in Hin. destruct Hin as [Hin|Hin].
    + destruct (Hloc _ Hin) as [u F]. discriminate.
    + apply in_app_or in Hin. destruct Hin as [Hin|[Hin|[Hin|[]]]]; try discriminate.
      apply in_map_iff in Hin. destruct Hin as (ev & F & _). discriminate.
  - apply (rows_of_response images videos r).
Qed.

End SettleFacts.

Lemma submission_always_settles_witness :
  let env := Sample.env (Sample.response false 500 Sample.detail_text) in
  let c := ComplaintPage.handleAnalyze env [Sample.picture None None] [Sample.clip] in
  Js.outcome c = inr tt
  /\ exists mid,
       Js.trace c
       = ComplaintPage.SetUploading true :: ComplaintPage.SetUploadError None
           :: mid ++ [ComplaintPage.SetUploading false]
       /\ (forall b, ~ In (ComplaintPage.SetUploading b) mid).
Proof.
  intros env c.
  destruct (submission_always_settles env [Sample.picture None None] [Sample.clip])
    as [Hout Hmid].
  split; [ exact Hout | ].
  destruct Hmid as (mid & E & Hflag & _); [ left; discriminate | ].
  exists mid. split; [ exact E | exact Hflag ].
Defined.

Lemma upload_failure_is_reported_witness :
  let env := Sample.env (Sample.response false 500 Sample.detail_text) in
  ComplaintPage.handleAnalyze env [Sample.picture None None] []
  = ([ComplaintPage.SetUploading true; ComplaintPage.SetUploadError None]
       ++ []
       ++ map ComplaintPage.Service
              [Api.Fetch (Api.upload_request env [Sample.photo])]
       ++ [ComplaintPage.ConsoleError "Upload error:" (Js.Error "Store unreachable");
           ComplaintPage.SetUploadError (Some "Store unreachable");
           ComplaintPage.Alert "Upload failed: Store unreachable";
           ComplaintPage.SetUploading false],
     inr tt).
Proof.
  intros env.
  apply (upload_failure_is_reported env
           [Sample.picture None None] [] (tr1 := []) (files := [Sample.photo])
           (tr2 := [Api.Fetch (Api.upload_request env [Sample.photo])])
           (e := Js.Error "Store unreachable"));
    try reflexivity.
  discriminate.
Defined.

Lemma no_duplicates_no_notice_witness :
  wire_upload Cases.fresh_json Cases.fresh_typed
  /\ ComplaintPage.handleAnalyze Cases.fresh_env [Sample.picture None None] []
     = ([ComplaintPage.SetUploading true; ComplaintPage.SetUploadError None;
         ComplaintPage.Service
           (Api.Fetch (Api.upload_request Cases.fresh_env [Sample.photo]));
         ComplaintPage.Navigate "/analyse"
           {| ComplaintPage.uploadedFiles :=
                ComplaintPage.rows [Sample.picture None None] [] Cases.fresh_typed;
              ComplaintPage.uploadResponse := Cases.fresh_json |};
         ComplaintPage.SetUploading false],
        inr tt)
  /\ map shown_ids
         (ComplaintPage.rows [Sample.picture None None] [] Cases.fresh_typed)
     = [(Some "T-7", Some "SUB-9", Some "garbage")].
Proof.
  assert (Hw : wire_upload Cases.fresh_json Cases.fresh_typed)
    by in_wire_format.
  split; [ exact Hw | ].
  destruct (no_duplicates_no_notice Cases.fresh_env
              [Sample.picture None None] [] (tr1 := []) (files := [Sample.photo])
              (tr2 := [Api.Fetch (Api.upload_request Cases.fresh_env [Sample.photo])])
              (response := Cases.fresh_json) (r := Cases.fresh_typed))
    as (H1 & _ & H3); try reflexivity; try exact Hw.
  - discriminate.
  - right. exists 0%Q. split; [ reflexivity | ]. unfold Qle. simpl. lia.
  - split; [ exact H1 | exact H3 ].
Defined.

(** ** LoginSignup: the form check *)

Lemma nullable_matches (r : RegExp.regex) :
  RegExp.nullable r = true <-> RegExp.matches r [].
Proof.
  split.
  - induction r; simpl; intros H; try discriminate.
    + constructor.
    + apply andb_prop in H. destruct H as [H1 H2].
      change (@nil N) with (@nil N ++ []). constructor; auto.
    + apply orb_prop in H. destruct H as [H|H];
        [ apply RegExp.MAltL | apply RegExp.MAltR ]; auto.
    + constructor.
  - intros H. remember (@nil N) as s eqn:E.
    induction H; simpl; try discriminate; try reflexivity.
    + apply app_eq_nil in E. destruct E as [-> ->].
      rewrite IHmatches1, IHmatches2; reflexivity.
    + rewrite IHmatches; [ reflexivity | exact E ].
    + rewrite IHmatches; [ apply orb_true_r | exact E ].
Qed.

Lemma matches_cat_inv (r1 r2 : RegExp.regex) (s : list N) :
  RegExp.matches (RegExp.Cat r1 r2) s ->
  exists s1 s2, s = s1 ++ s2 /\ RegExp.matches r1 s1 /\ RegExp.matches r2 s2.
Proof. intros H. inversion H; subst. eauto. Qed.

Lemma deriv_matches (c : N) (r : RegExp.regex) :
  forall s, RegExp.matches (RegExp.deriv c r) s <-> RegExp.matches r (c :: s).
Proof.
  intros s. split.
  - revert s. induction r; simpl; intros s H.
    + inversion H.
    + inversion H.
    + destruct (p c) eqn:E; inversion H; subst. now constructor.
    + inversion H; subst.
      * match goal with
        | H1 : RegExp.matches (RegExp.Cat _ _) _ |- _ =>
            apply matches_cat_inv in H1; destruct H1 as (s1 & s2 & -> & Ha & Hb)
        end.
        apply IHr1 in Ha.
        change (c :: s1 ++ s2) with ((c :: s1) ++ s2). now constructor.
      * destruct (RegExp.nullable r1) eqn:E;
          [ | match goal with H1 : RegExp.matches RegExp.Empty _ |- _ =>
                inversion H1 end ].
        apply nullable_matches in E.
        match goal with H1 : RegExp.matches (RegExp.deriv _ _) _ |- _ =>
          apply IHr2 in H1 end.
        change (c :: s) with ([] ++ c :: s). now constructor.
    + inversion H; subst;
        [ apply RegExp.MAltL | apply RegExp.MAltR ]; auto.
    + apply matches_cat_inv in H. destruct H as (s1 & s2 & -> & Ha & Hb).
      apply IHr in Ha.
      change (c :: s1 ++ s2) with ((c :: s1) ++ s2). now constructor.
  - intros H. remember (c :: s) as cs eqn:E. revert s E.
    induction H; intros t E; simpl.
    + discriminate.
    + injection E as -> <-. rewrite H. constructor.
    + destruct s1 as [|c1 s1]; simpl in E.
      * apply RegExp.MAltR.
        apply nullable_matches in H. rewrite H. auto.
      * injection E as -> <-. apply RegExp.MAltL. constructor; auto.
    + apply RegExp.MAltL. auto.
    + apply RegExp.MAltR. auto.
    + discriminate.
    + destruct s1 as [|c1 s1]; simpl in E.
      * apply IHmatches2 in E. exact E.
      * injection E as -> <-. constructor; auto.
Qed.

(** The matcher decides membership in the words of the pattern. *)
Lemma test_matches (s : list N) :
  forall r, RegExp.test r s = true <-> RegExp.matches r s.
Proof.
  unfold RegExp.test. induction s as [|c s IH]; intros r; simpl.
  - apply nullable_matches.
  - rewrite IH. apply deriv_matches.
Qed.

Lemma matches_chr_inv (c : N) (s : list N) :
  RegExp.matches (RegExp.Chr c) s -> s = [c].
Proof.
  intros H. inversion H; subst.
  match goal with E : N.eqb _ _ = true |- _ => apply N.eqb_eq in E; now subst end.
Qed.

Lemma matches_star_class (p : N -> bool) (s : list N) :
  RegExp.matches (RegExp.Star (RegExp.Class p)) s <-> forallb p s = true.
Proof.
  split.
  - intros H. remember (RegExp.Star (RegExp.Class p)) as r eqn:E.
    induction H; try discriminate; [ reflexivity | ].
    injection E as ->. inversion H; subst. simpl.
    rewrite IHmatches2 by reflexivity.
    match goal with E : p _ = true |- _ => now rewrite E end.
  - induction s as [|c s IH]; simpl; intros H; [ constructor | ].
    apply andb_prop in H. destruct H as [Hc Hs].
    change (c :: s) with ([c] ++ s). constructor; [ now constructor | auto ].
Qed.

Lemma matches_plus_class (p : N -> bool) (s : list N) :
  RegExp.matches (RegExp.Plus (RegExp.Class p)) s
  <-> s <> [] /\ forallb p s = true.
Proof.
  unfold RegExp.Plus. split.
  - intros H. apply matches_cat_inv in H. destruct H as (s1 & s2 & -> & H1 & H2).
    inversion H1; subst. apply matches_star_class in H2. simpl.
    split; [ discriminate | ].
    match goal with E : p _ = true |- _ => now rewrite E end.
  - intros [Hne H]. destruct s as [|c s]; [ contradiction | ].
    simpl in H. apply andb_prop in H. destruct H as [Hc Hs].
    change (c :: s) with ([c] ++ s).
    constructor; [ now constructor | now apply matches_star_class ].
Qed.

(** X17.  The e-mail check accepts exactly the texts without white
    space that read [a@b.c] with non-empty [a], [b] and [c]; the
    parts may themselves hold further [@] and dots. *)
Theorem email_check_accepts_exact_shape (email : LoginSignup.text) :
  LoginSignup.email_test email = true <-> email_shape email.
Proof.
  unfold LoginSignup.email_test, LoginSignup.email_pattern, email_shape.
  rewrite test_matches. split.
  - intros H.
    apply matches_cat_inv in H. destruct H as (a & s1 & -> & Ha & H).
    apply matches_cat_inv in H. destruct H as (x & s2 & -> & Hx & H).
    apply matches_cat_inv in H. destruct H as (b & s3 & -> & Hb & H).
    apply matches_cat_inv in H. destruct H as (y & c & -> & Hy & Hc).
    apply matches_chr_inv in Hx, Hy. subst x y.
    apply matches_plus_class in Ha, Hb, Hc.
    destruct Ha as [Na Fa], Hb as [Nb Fb], Hc as [Nc Fc].
    rewrite forallb_forall in Fa, Fb, Fc. split.
    + intros ch Hin. unfold RegExp.not_space in Fa, Fb, Fc.
      apply in_app_or in Hin. destruct Hin as [Hin|Hin];
        [ apply Fa in Hin; now apply negb_true_iff in Hin | ].
      simpl in Hin. destruct Hin as [<-|Hin]; [ reflexivity | ].
      apply in_app_or in Hin. destruct Hin as [Hin|Hin];
        [ apply Fb in Hin; now apply negb_true_iff in Hin | ].
      simpl in Hin. destruct Hin as [<-|Hin]; [ reflexivity | ].
      apply Fc in Hin. now apply negb_true_iff in Hin.
    + exists a, b, c. simpl. auto.
  - intros [Hsp (a & b & c & Na & Nb & Nc & ->)].
    assert (F : forall part, (forall ch, In ch part ->
                                In ch (a ++ 64%N :: b ++ 46%N :: c)) ->
                             forallb RegExp.not_space part = true).
    { intros part Hsub. apply forallb_forall. intros ch Hin.
      unfold RegExp.not_space. now rewrite (Hsp ch (Hsub ch Hin)). }
    constructor.
    { apply matches_plus_class. split; [ exact Na | ].
      apply F. intros ch Hin. apply in_or_app. now left. }
    change (64%N :: b ++ 46%N :: c) with ([64%N] ++ b ++ [46%N] ++ c).
    constructor; [ constructor; reflexivity | ].
    constructor.
    { apply matches_plus_class. split; [ exact Nb | ].
      apply F. intros ch Hin. apply in_or_app. right. right.
      apply in_or_app. now left. }
    constructor; [ constructor; reflexivity | ].
    apply matches_plus_class. split; [ exact Nc | ].
    apply F. intros ch Hin. apply in_or_app. right. right.
    apply in_or_app. right. now right.
Qed.

(** X18.  A click on the submit button signs the user in (alert, the
    [isLoggedIn] flag, the move to [/home]) exactly when the form is
    valid, and then with no error left on the form; otherwise it only
    sets the errors, at least one of them.  A valid form needs a
    well-formed e-mail and a password; the name (three code units at
    least, not blank) and the six code units of the password are asked
    for in the [Sign Up] mode only. *)
Theorem login_form_submits_iff_valid
        (action : string) (name email password : LoginSignup.text) :
  let events := LoginSignup.handleSubmit action name email password in
  (In (LoginSignup.Navigate "/home") events
   <-> form_valid action name email password)
  /\ (form_valid action name email password ->
      events
      = [ LoginSignup.SetErrors LoginSignup.no_errors;
          LoginSignup.Alert (if String.eqb action "Sign Up"
                             then "Signup successful" else "Login successful");
          LoginSignup.SetItem "isLoggedIn" "true";
          LoginSignup.Navigate "/home" ])
  /\ (~ form_valid action name email password ->
      exists errors,
        events = [LoginSignup.SetErrors errors]
        /\ errors <> LoginSignup.no_errors).
Proof.
  intros events.
  assert (Hname : LoginSignup.name_error action name = None
                  <-> (action = "Sign Up" ->
                       LoginSignup.blank name = false
                       /\ (3 <= List.length name)%nat)).
  { unfold LoginSignup.name_error.
    destruct (String.eqb action "Sign Up") eqn:Ea.
    - apply String.eqb_eq in Ea.
      destruct (LoginSignup.blank name);
        [ split; [ discriminate | intros H; destruct (H Ea); discriminate ] | ].
      destruct (List.length name <? 3)%nat eqn:El.
      + apply Nat.ltb_lt in El. split; [ discriminate | ].
        intros H. destruct (H Ea). lia.
      + apply Nat.ltb_ge in El. split; auto.
    - apply String.eqb_neq in Ea. split; [ intros _ H; contradiction | reflexivity ]. }
  assert (Hmail : LoginSignup.email_error email = None
                  <-> LoginSignup.email_test email = true).
  { unfold LoginSignup.email_error. destruct email as [|c email].
    - split; discriminate.
    - destruct (LoginSignup.email_test (c :: email)); simpl;
        split; auto; discriminate. }
  assert (Hpass : LoginSignup.password_error action password = None
                  <-> password <> []
                      /\ (action = "Sign Up" -> (6 <= List.length password)%nat)).
  { unfold LoginSignup.password_error. destruct password as [|c password].
    - split; [ discriminate | intros [H _]; contradiction ].
    - destruct (String.eqb action "Sign Up") eqn:Ea; cbn [andb].
      + apply String.eqb_eq in Ea.
        destruct (List.length (c :: password) <? 6)%nat eqn:El.
        * apply Nat.ltb_lt in El. split; [ discriminate | ].
          intros [_ H]. specialize (H Ea). lia.
        * apply Nat.ltb_ge in El. split; [ | reflexivity ].
          intros _. split; [ discriminate | auto ].
      + apply String.eqb_neq in Ea. split; [ | reflexivity ].
        intros _. split; [ discriminate | intros H; contradiction ]. }
  assert (Hvalid : form_valid action name email password
                   <-> (LoginSignup.name_error action name = None
                        /\ LoginSignup.email_error email = None
                        /\ LoginSignup.password_error action password = None)).
  { unfold form_valid. rewrite Hname, Hmail, Hpass. tauto. }
  unfold events, LoginSignup.handleSubmit, LoginSignup.validateForm.
  cbn [LoginSignup.err_name LoginSignup.err_email LoginSignup.err_password].
  destruct (LoginSignup.name_error action name) as [en|] eqn:En;
    destruct (LoginSignup.email_error email) as [em|] eqn:Em;
    destruct (LoginSignup.password_error action password) as [ep|] eqn:Ep;
    cbn [negb].
  8: { split; [ | split ].
       - split; [ intros _; apply Hvalid; auto | intros _; simpl; auto ].
       - reflexivity.
       - intros H. exfalso. apply H, Hvalid. auto. }
  all: split; [ | split ].
  all: try (split; [ intros [H|[]]; discriminate
                   | intros H; apply Hvalid in H;
                     destruct H as (H1 & H2 & H3); discriminate ]).
  all: try (intros H; apply Hvalid in H;
            destruct H as (H1 & H2 & H3); discriminate).
  all: intros _; eexists; split; [ reflexivity | discriminate ].
Qed.

Lemma login_form_submits_iff_valid_witness :
  let email := Cases.units "asha@example.org" in
  let password := Cases.units "pw" in
  form_valid "Log In" [] email password
  /\ In (LoginSignup.Navigate "/home")
        (LoginSignup.handleSubmit "Log In" [] email password)
  /\ ~ form_valid "Sign Up" [] email password
  /\ exists errors,
       LoginSignup.handleSubmit "Sign Up" [] email password
       = [LoginSignup.SetErrors errors]
       /\ errors <> LoginSignup.no_errors.
Proof.
  intros email password.
  assert (V : form_valid "Log In" [] email password).
  { split; [ reflexivity | ]. split; [ discriminate | ]. discriminate. }
  assert (NV : ~ form_valid "Sign Up" [] email password).
  { intros (_ & _ & H). destruct (H eq_refl) as (F & _). discriminate. }
  split; [ exact V | ].
  split; [ apply (login_form_submits_iff_valid "Log In" [] email password); exact V | ].
  split; [ exact NV | ].
  apply (login_form_submits_iff_valid "Sign Up" [] email password). exact NV.
Defined.

(** ** ComplaintPage: result rows and media items *)

Section PairFacts.
Variables images videos : list ComplaintPage.Media.

Lemma row_of_paired (ticket : Ticket) (subTicket : SubTicket)
      (uploadedFiles : list ComplaintPage.UploadedFile) :
  paired_with_media images videos (List.length uploadedFiles)
    (ComplaintPage.row_of images videos ticket subTicket uploadedFiles).
Proof.
  unfold paired_with_media, ComplaintPage.row_of. simpl.
  destruct (nth_error (images ++ videos) (List.length uploadedFiles)) as [m|].
  - split; [ | reflexivity ].
    unfold Js.truthy_str. now destruct (String.eqb (ComplaintPage.id m) "").
  - split; reflexivity.
Qed.

Lemma push_sub_tickets_paired (ticket : Ticket) (subs : list SubTicket) :
  forall uploadedFiles,
    (forall k row, nth_error uploadedFiles k = Some row ->
                   paired_with_media images videos k row) ->
    forall k row,
      nth_error
        (fold_left (fun uploadedFiles subTicket =>
                      uploadedFiles
                      ++ [ComplaintPage.row_of images videos ticket subTicket
                            uploadedFiles])
                   subs uploadedFiles) k = Some row ->
      paired_with_media images videos k row.
Proof.
  induction subs as [|st subs IH]; intros acc Hacc; simpl; [ exact Hacc | ].
  apply IH. intros k row Hk.
  destruct (Nat.lt_ge_cases k (List.length acc)) as [Hlt|Hge].
  - rewrite nth_error_app1 in Hk by exact Hlt. now apply Hacc.
  - rewrite nth_error_app2 in Hk by exact Hge.
    destruct (k - List.length acc)%nat as [|j] eqn:Ej; simpl in Hk.
    + injection Hk as <-. replace k with (List.length acc) by lia.
      apply row_of_paired.
    + destruct j; discriminate.
Qed.

Lemma push_tickets_paired (tickets : list Ticket) :
  forall uploadedFiles,
    (forall k row, nth_error uploadedFiles k = Some row ->
                   paired_with_media images videos k row) ->
    forall k row,
      nth_error
        (fold_left (fun uploadedFiles ticket =>
                      ComplaintPage.push_sub_tickets images videos ticket
                        uploadedFiles)
                   tickets uploadedFiles) k = Some row ->
      paired_with_media images videos k row.
Proof.
  induction tickets as [|t tickets IH]; intros acc Hacc; simpl; [ exact Hacc | ].
  apply IH. unfold ComplaintPage.push_sub_tickets.
  now apply push_sub_tickets_paired.
Qed.

(** X19.  Result rows are matched with the uploaded items by position
    alone: row number [k], counted over all sub-tickets of the
    response in order, shows the id and the preview of item number [k]
    of the images followed by the videos, whichever ticket the row
    reports; a row past the last item shows the id [media-k] and no
    preview.  There are as many rows as the response has sub-tickets,
    however many items were uploaded. *)
Theorem result_rows_pair_with_media_by_position (response : Wire.UploadResponse) :
  let rows := ComplaintPage.rows images videos response in
  List.length rows
  = List.length (flat_pairs (Js.or_empty (Wire.tickets_created response)))
  /\ forall k row,
       nth_error rows k = Some row ->
       paired_with_media images videos k row.
Proof.
  intros rows. split.
  - destruct (rows_of_response images videos response) as [H _].
    apply (f_equal (@List.length _)) in H. now rewrite !length_map in H.
  - unfold rows, ComplaintPage.rows.
    destruct (Wire.tickets_created response) as [tickets|];
      [ | intros [|k] row H; discriminate ].
    destruct (0 <? List.length tickets)%nat;
      [ | intros [|k] row H; discriminate ].
    apply push_tickets_paired. intros [|k] row H; discriminate.
Qed.

End PairFacts.

Lemma result_rows_pair_with_media_by_position_witness :
  let rows := ComplaintPage.rows [Sample.picture None None] [Sample.clip]
                Sample.upload_response in
  exists first second third,
    rows = [first; second; third]
    /\ ComplaintPage.uf_sub_id second = Some "SUB-2"
    /\ ComplaintPage.previewUrl second = ComplaintPage.url Sample.clip
    /\ ComplaintPage.uf_id third = "media-2"
    /\ ComplaintPage.previewUrl third = None.
Proof.
  intros rows.
  destruct (result_rows_pair_with_media_by_position
              [Sample.picture None None] [Sample.clip] Sample.upload_response)
    as [_ H].
  do 3 eexists. split; [ reflexivity | ]. split; [ reflexivity | ].
  pose proof (H 1%nat _ eq_refl) as H1. pose proof (H 2%nat _ eq_refl) as H2.
  destruct H1 as [_ H1]. destruct H2 as [H2 H3].
  split; [ exact H1 | ]. split; [ exact H2 | exact H3 ].
Defined.

(** ** ComplaintPage: the location stamped on the evidence *)

Lemma step_keeps_or_stamps (a : Evidence.Action) (s : Evidence.State) :
  (forall la lo, a <> Evidence.Located la lo) ->
  Evidence.loc_lat (Evidence.location (Evidence.step s a))
  = Evidence.loc_lat (Evidence.location s)
  /\ Evidence.loc_lng (Evidence.location (Evidence.step s a))
     = Evidence.loc_lng (Evidence.location s)
  /\ forall m, In m (evidence_items (Evidence.step s a)) ->
       In m (evidence_items s)
       \/ (ComplaintPage.lat m = Evidence.loc_lat (Evidence.location s)
           /\ ComplaintPage.lng m = Evidence.loc_lng (Evidence.location s)).
Proof.
  intros Hfix. unfold evidence_items.
  destruct a as [files|files|i|i| |la lo|msg]; simpl;
    try (exfalso; eapply Hfix; reflexivity);
    split; try reflexivity; split; try reflexivity; intros m Hin.
  - rewrite <- app_assoc in Hin. apply in_app_or in Hin.
    destruct Hin as [Hin|Hin]; [ left; apply in_or_app; now left | ].
    apply in_app_or in Hin. destruct Hin as [Hin|Hin];
      [ | left; apply in_or_app; now right ].
    apply in_map_iff in Hin. destruct Hin as (f & <- & _). right. now split.
  - apply in_app_or in Hin.
    destruct Hin as [Hin|Hin]; [ left; apply in_or_app; now left | ].
    apply in_app_or in Hin. destruct Hin as [Hin|Hin];
      [ left; apply in_or_app; now right | ].
    apply in_map_iff in Hin. destruct Hin as (f & <- & _). right. now split.
  - left. apply in_app_or in Hin. apply in_or_app.
    destruct Hin as [Hin|Hin]; [ left | now right ].
    apply filter_In in Hin. tauto.
  - left. apply in_app_or in Hin. apply in_or_app.
    destruct Hin as [Hin|Hin]; [ now left | right ].
    apply filter_In in Hin. tauto.
  - contradiction.
  - now left.
Qed.

Lemma steps_keep_or_stamp (actions : list Evidence.Action) :
  (forall la lo, ~ In (Evidence.Located la lo) actions) ->
  forall s m,
    In m (evidence_items (fold_left Evidence.step actions s)) ->
    In m (evidence_items s)
    \/ (ComplaintPage.lat m = Evidence.loc_lat (Evidence.location s)
        /\ ComplaintPage.lng m = Evidence.loc_lng (Evidence.location s)).
Proof.
  induction actions as [|a actions IH]; intros Hfix s m; simpl; [ now left | ].
  intros Hin.
  assert (Ha : forall la lo, a <> Evidence.Located la lo).
  { intros la lo E. apply (Hfix la lo). left. exact E. }
  destruct (step_keeps_or_stamps s Ha) as (Ela & Elo & Hstep).
  apply IH in Hin; [ | intros la lo H; apply (Hfix la lo); now right ].
  rewrite Ela, Elo in Hin. destruct Hin as [Hin|Hin]; [ | now right ].
  now apply Hstep.
Qed.

(** X20.  An item from a file input keeps the position that was known
    when it was picked.  With the one position fix of the page arriving after the
    actions [pre] and before the actions [post], the items left from
    [pre] have no coordinates, also after the fix, and every other
    item carries the coordinates of the fix. *)
Theorem evidence_keeps_location_of_pick_time
        (pre post : list Evidence.Action) (latitude longitude : Q) :
  (forall la lo, ~ In (Evidence.Located la lo) pre) ->
  (forall la lo, ~ In (Evidence.Located la lo) post) ->
  forall m,
    In m (evidence_items
            (Evidence.run (pre ++ Evidence.Located latitude longitude :: post))) ->
    (In m (evidence_items (Evidence.run pre))
     /\ ComplaintPage.lat m = None /\ ComplaintPage.lng m = None)
    \/ (~ In m (evidence_items (Evidence.run pre))
        /\ ComplaintPage.lat m = Some latitude
        /\ ComplaintPage.lng m = Some longitude).
Proof.
  intros Hpre Hpost m Hin.
  assert (Hold : forall x, In x (evidence_items (Evidence.run pre)) ->
                           ComplaintPage.lat x = None /\ ComplaintPage.lng x = None).
  { intros x Hx. unfold Evidence.run in Hx.
    apply (@steps_keep_or_stamp pre Hpre) in Hx.
    destruct Hx as [[]|Hx]. exact Hx. }
  unfold Evidence.run in Hin. rewrite fold_left_app in Hin. simpl in Hin.
  apply (@steps_keep_or_stamp post Hpost) in Hin. simpl in Hin.
  destruct Hin as [Hin|[Hla Hlo]].
  - left. split; [ exact Hin | now apply Hold ].
  - right. split; [ | now split ].
    intros Hx. apply Hold in Hx. destruct Hx as [Hx _]. congruence.
Qed.

Lemma evidence_keeps_location_of_pick_time_witness :
  let early := Evidence.item_of (Evidence.location Evidence.initial)
                 (Cases.picked "a" Sample.photo) in
  let late := {| ComplaintPage.id := "c"; ComplaintPage.url := Some "blob:c";
                 ComplaintPage.file := Some Sample.clip_file;
                 ComplaintPage.lat := Some (33 # 2)%Q;
                 ComplaintPage.lng := Some (403 # 5)%Q |} in
  let s := Evidence.run
             ([Evidence.PickImages [Cases.picked "a" Sample.photo]]
                ++ Evidence.Located (33 # 2)%Q (403 # 5)%Q
                :: [Evidence.PickVideos [Cases.picked "c" Sample.clip_file]]) in
  evidence_items s = [early; late]
  /\ ComplaintPage.lat early = None
  /\ ~ In late (evidence_items
                  (Evidence.run [Evidence.PickImages [Cases.picked "a" Sample.photo]])).
Proof.
  intros early late s. split; [ reflexivity | ].
  assert (Hpre : forall la lo,
             ~ In (Evidence.Located la lo)
                  [Evidence.PickImages [Cases.picked "a" Sample.photo]]).
  { intros la lo [H|[]]. discriminate. }
  assert (Hpost : forall la lo,
             ~ In (Evidence.Located la lo)
                  [Evidence.PickVideos [Cases.picked "c" Sample.clip_file]]).
  { intros la lo [H|[]]. discriminate. }
  destruct (@evidence_keeps_location_of_pick_time _ _ (33 # 2)%Q (403 # 5)%Q
              Hpre Hpost early) as [(_ & H & _)|(_ & H & _)].
  - left. reflexivity.
  - destruct (@evidence_keeps_location_of_pick_time _ _ (33 # 2)%Q (403 # 5)%Q
                Hpre Hpost late) as [(_ & F & _)|(N & _ & _)].
    + right. left. reflexivity.
    + discriminate.
    + split; [ exact H | exact N ].
  - discriminate.
Defined.

(** ** Instances on the sample data *)

Lemma ticket_log_pages_partition_rows_witness :
  TicketLog.paginatedTickets Sample.Date_parse "all" "all" "" Sample.rows 1 <> []
  /\ TicketLog.paginatedTickets Sample.Date_parse "all" "all" "" Sample.rows 2 = [].
Proof.
  destruct (ticket_log_pages_partition_rows
              Sample.Date_parse "all" "all" "" Sample.rows)
    as (_ & Hin & Hout & _).
  split.
  - apply Hin. split; [ lia | vm_compute; discriminate ].
  - apply Hout; [ lia | vm_compute; reflexivity ].
Defined.

Lemma ticket_log_load_settles_witness :
  let settled env :=
    TicketLogPage.after TicketLogPage.initial
                        (Js.trace (TicketLogPage.fetchTickets env)) in
  let unreachable := Sample.env (Sample.response false 503 Sample.detail_text) in
  (TicketLogPage.tickets (settled unreachable) = []
   /\ TicketLogPage.body Sample.Date_parse (settled unreachable)
      = TicketLogPage.NoRecords
   /\ In (TicketLogPage.ConsoleError "Failed to fetch tickets:"
            (Js.Error "Store unreachable"))
         (Js.trace (TicketLogPage.fetchTickets unreachable)))
  /\ wire_listing Cases.listing_json (Some [Cases.listed_typed])
  /\ map (fun row => (TicketLog.row_ticket_id row, sub_id (TicketLog.row_sub row)))
         (TicketLogPage.tickets (settled (Cases.answering Cases.listing_json)))
     = [(Some "T-7", Some "SUB-9")]
  /\ (TicketLogPage.tickets (settled (Cases.answering Cases.listing_with_null)) = []
      /\ TicketLogPage.body Sample.Date_parse
                            (settled (Cases.answering Cases.listing_with_null))
         = TicketLogPage.NoRecords
      /\ In (TicketLogPage.ConsoleError "Failed to fetch tickets:"
               (Js.TypeError
                  "Cannot read properties of null (reading 'sub_tickets')"))
            (Js.trace (TicketLogPage.fetchTickets
                         (Cases.answering Cases.listing_with_null)))).
Proof.
  intros settled unreachable.
  assert (Hw : wire_listing Cases.listing_json (Some [Cases.listed_typed]))
    by in_wire_format.
  split; [ | split; [ exact Hw | split ] ].
  - destruct (ticket_log_load_settles Sample.Date_parse unreachable)
      as (_ & _ & _ & Hfail & _).
    apply Hfail. reflexivity.
  - destruct (ticket_log_load_settles Sample.Date_parse
                (Cases.answering Cases.listing_json))
      as (_ & _ & _ & _ & Hread & _).
    destruct (Hread Cases.listing_json (Some [Cases.listed_typed]) eq_refl Hw)
      as (Hrows & _).
    unfold settled. rewrite Hrows. reflexivity.
  - destruct (ticket_log_load_settles Sample.Date_parse
                (Cases.answering Cases.listing_with_null))
      as (_ & _ & _ & _ & _ & _ & Hnull).
    apply (Hnull Cases.listing_with_null [Cases.listed_json] []
                 [Cases.listed_typed]).
    + reflexivity.
    + now eexists.
    + reflexivity.
    + destruct Hw as (_ & items & E & H). cbn in E. inversion E; subst items.
      exact H.
Defined.

Lemma home_stats_split_the_tickets_witness :
  HomePage.open (HomePage.fetchTickets (Some Sample.listing)) = 2
  /\ counted_open Sample.ticket1 = true.
Proof.
  destruct (home_stats_split_the_tickets (Some Sample.listing))
    as (_ & Hopen & _ & Hstatus).
  split; [ rewrite Hopen; reflexivity | ].
  apply Hstatus. repeat split; discriminate.
Defined.

Lemma map_renders_every_located_row_witness :
  exists m others,
    MapView.markers (Some Sample.listing) = m :: others
    /\ MapView.position m = ((33 # 2)%Q, (403 # 5)%Q)
    /\ ~ (fst (MapView.position m) == 0)%Q.
Proof.
  do 2 eexists. split; [ reflexivity | ]. split; [ reflexivity | ].
  destruct (map_renders_every_located_row (Some Sample.listing))
    as (_ & _ & _ & H).
  refine (proj1 (proj2 (proj2 (H _ _)))). left. reflexivity.
Defined.

Lemma email_check_accepts_exact_shape_witness :
  email_shape (Cases.units "asha@example.org")
  /\ ~ email_shape (Cases.units "asha@example")
  /\ ~ email_shape (Cases.units "asha @example.org").
Proof.
  split; [ | split ].
  - apply email_check_accepts_exact_shape. reflexivity.
  - intros H. apply email_check_accepts_exact_shape in H. discriminate.
  - intros H. apply email_check_accepts_exact_shape in H. discriminate.
Defined.
